(** * datastore-writer: buffered batch writer and bulk loader

    A shallow embedding of [src/DatastoreWriter.ts] and [src/BulkLoader.ts].

    The writer is a JavaScript object whose methods mutate its fields, emit
    events and call the Datastore client.  Methods are embedded as
    computations in a small monad [M] that threads the object's fields,
    carries a thrown [Error] (the fields keep the mutations made before the
    throw, as in JavaScript) and collects, in order, the externally visible
    effects: events emitted, calls made to the Datastore client, promises
    resolved.

    [flush] is an [async] function with a single [await].  It is embedded as
    two computations: [flush] runs the body up to the [await] and
    [flush_resume] runs the rest once the awaited promise has settled.

    Numbers: [number] fields that hold counts are embedded as [Z] (no
    rounding, no NaN), [bigint] fields as [Z].  [hrtime.bigint()] is an input
    of the computation that reads it (argument [now]).  Calls to [logger] have
    no effect on the state and are left out, except for the value that
    [BulkLoader.#complete] computes and logs. *)

From Stdlib Require Import ZArith List String Bool Lia.
Import ListNotations.
Open Scope Z_scope.

(** ** Values shared by the two classes *)

(** A Datastore entity as the writer sees it: a value that is falsy
    ([null], [undefined]) or an object. *)
Inductive Entity : Type :=
| Nullish
| Obj (key : string).

Definition truthy (e : Entity) : bool :=
  match e with Nullish => false | Obj _ => true end.

(** The Datastore client handed to the constructor. *)
Inductive Datastore : Type :=
| Client (projectId : string).

(** Values thrown by the code, or with which a promise is rejected. *)
Inductive Error : Type :=
| DatastoreNullOrEmpty            (* "datastore is null or empty" *)
| BufferSizeNullOrEmpty           (* "bufferSize is null or empty" *)
| MaxConcurrentNullOrEmpty        (* "maxConcurrentRequests is null or empty" *)
| BufferSizeNotPositive (n : Z)   (* "bufferSize n cannot be less than or equal to 0" *)
| MaxConcurrentNotPositive (n : Z)(* "maxConcurrentRequests n should be at least 1" *)
| EntityNullOrEmpty               (* "entity is null or empty" *)
| ExceededMaxConcurrent           (* "exceeded maximum number of concurrent requests." *)
| AssertionError                  (* assert.ok(false) *)
| TypeError                       (* property read on undefined *)
| SinkFailure (cause : string)    (* rejection of datastore.insert / upsert *)
| ConvertFailure (cause : string) (* thrown by the converter *)
| LoaderArgument (msg : string)   (* thrown by the BulkLoader constructor *)
| ReaderFailure (cause : string). (* 'error' event of the line reader *)

(** How the promise returned by [datastore.insert] / [datastore.upsert]
    settles.  A fulfilled promise carries a result of which the code only
    reads [result[0].mutationResults.length] and [result[0].indexUpdates];
    [readable] tells whether these reads succeed. *)
Inductive SinkResult : Type :=
| Fulfilled (readable : bool)
| Rejected (cause : Error).

Module Stats.
(** Payload of the 'stats' event (DatastoreWriter.ts, lines 167-172). *)
Record t : Type := mk {
  start : Z;
  end_ : Z;
  request_count : Z;
  elapsed : Z
}.
End Stats.

Inductive Event : Type :=
| Busy
| Idle
| StatsEvent (payload : Stats.t)
| ErrorEvent (err : Error).

(** Externally visible effects of the writer, in program order. *)
Inductive Effect : Type :=
| Emit (ev : Event)                 (* this.emit(...) *)
| Insert (batch : list Entity)      (* this.#datastore.insert(foo) *)
| Upsert (batch : list Entity)      (* this.#datastore.upsert(foo) *)
| Resolve (p : nat).                (* resolve() of the promise [p] made by ready() *)

Inductive Completion (A : Type) : Type :=
| Normal (a : A)
| Throw (e : Error).
Arguments Normal {A} a.
Arguments Throw {A} e.

(** ** The monad of methods

    A method of an object with fields [S] whose visible effects are of type
    [O]. *)

Section Methods.
Context {S O : Type}.

Definition Method (A : Type) : Type := S -> Completion A * S * list O.

Definition ret {A} (a : A) : Method A := fun s => (Normal a, s, []).

Definition bind {A B} (m : Method A) (k : A -> Method B) : Method B :=
  fun s =>
    match m s with
    | (Normal a, s1, o1) =>
        match k a s1 with
        | (r, s2, o2) => (r, s2, o1 ++ o2)
        end
    | (Throw e, s1, o1) => (Throw e, s1, o1)
    end.

Definition throw {A} (e : Error) : Method A := fun s => (Throw e, s, []).

(** [try { m } catch (e) { ... }] with the handler left to the caller: the
    completion of [m] becomes a value. *)
Definition attempt {A} (m : Method A) : Method (Completion A) :=
  fun s => match m s with (r, s1, o1) => (Normal r, s1, o1) end.

Definition get {A} (f : S -> A) : Method A := fun s => (Normal (f s), s, []).

Definition modify (f : S -> S) : Method unit :=
  fun s => (Normal tt, f s, []).

Definition perform (o : list O) : Method unit := fun s => (Normal tt, s, o).

Definition when (b : bool) (m : Method unit) : Method unit :=
  if b then m else ret tt.

(** [assert.ok(b)] *)
Definition assert_ok (b : bool) : Method unit :=
  if b then ret tt else throw AssertionError.
End Methods.

Declare Scope js_scope.
Delimit Scope js_scope with js.
Notation "x <- m ;; k" := (bind m (fun x => k))
  (at level 100, m at next level, right associativity) : js_scope.
Notation "m ;; k" := (bind m (fun _ => k))
  (at level 100, right associativity) : js_scope.
Open Scope js_scope.

(** ** DatastoreWriter *)

Module DatastoreWriter.

Module Options.
(** [IDatastoreWriterOptions]; [None] is a property that is absent or
    [undefined]. *)
Record t : Type := mk {
  buffer_size : option Z;
  max_concurrent_requests : option Z;
  upsert : option bool
}.

(** [_.isEmpty(options)] for an object: no own property. *)
Definition isEmpty (o : option t) : bool :=
  match o with
  | None => true
  | Some (mk None None None) => true
  | Some _ => false
  end.

Definition defaults : t := mk (Some 500) (Some 10) (Some false).

(** [!n] for a number that may be absent. *)
Definition falsy (n : option Z) : bool :=
  match n with
  | None => true
  | Some v => v =? 0
  end.
End Options.

(** The fields of a [DatastoreWriter].  [isTicking] is [undefined] until the
    first [#startTimer]; only its truthiness is read, so it starts [false].
    [t0] and [t1] are [undefined] until set and are read only after being
    set; they start at [0].  The last two fields are the part of the
    [EventEmitter] and of the heap that [ready] uses: the promises whose
    [resolve] is registered by [this.once('idle', ...)], oldest first, and the
    number of promises [ready] has created. *)
Record Writer : Type := mkWriter {
  entities : list Entity;
  datastore : Datastore;
  isBusy : bool;
  bufferSize : Z;
  bufferCount : Z;
  t0 : Z;
  t1 : Z;
  isTicking : bool;
  maxConcurrentRequests : Z;
  concurrentRequests : Z;
  elapsed : Z;
  requestCount : Z;
  upsert : bool;
  idleOnce : list nat;
  promises : nat
}.

Definition set_entities (v : list Entity) (w : Writer) : Writer :=
  mkWriter v (datastore w) (isBusy w) (bufferSize w) (bufferCount w) (t0 w)
    (t1 w) (isTicking w) (maxConcurrentRequests w) (concurrentRequests w)
    (elapsed w) (requestCount w) (upsert w) (idleOnce w) (promises w).

Definition set_isBusy (v : bool) (w : Writer) : Writer :=
  mkWriter (entities w) (datastore w) v (bufferSize w) (bufferCount w) (t0 w)
    (t1 w) (isTicking w) (maxConcurrentRequests w) (concurrentRequests w)
    (elapsed w) (requestCount w) (upsert w) (idleOnce w) (promises w).

Definition set_bufferCount (v : Z) (w : Writer) : Writer :=
  mkWriter (entities w) (datastore w) (isBusy w) (bufferSize w) v (t0 w)
    (t1 w) (isTicking w) (maxConcurrentRequests w) (concurrentRequests w)
    (elapsed w) (requestCount w) (upsert w) (idleOnce w) (promises w).

Definition set_t0 (v : Z) (w : Writer) : Writer :=
  mkWriter (entities w) (datastore w) (isBusy w) (bufferSize w)
    (bufferCount w) v (t1 w) (isTicking w) (maxConcurrentRequests w)
    (concurrentRequests w) (elapsed w) (requestCount w) (upsert w)
    (idleOnce w) (promises w).

Definition set_t1 (v : Z) (w : Writer) : Writer :=
  mkWriter (entities w) (datastore w) (isBusy w) (bufferSize w)
    (bufferCount w) (t0 w) v (isTicking w) (maxConcurrentRequests w)
    (concurrentRequests w) (elapsed w) (requestCount w) (upsert w)
    (idleOnce w) (promises w).

Definition set_isTicking (v : bool) (w : Writer) : Writer :=
  mkWriter (entities w) (datastore w) (isBusy w) (bufferSize w)
    (bufferCount w) (t0 w) (t1 w) v (maxConcurrentRequests w)
    (concurrentRequests w) (elapsed w) (requestCount w) (upsert w)
    (idleOnce w) (promises w).

Definition set_concurrentRequests (v : Z) (w : Writer) : Writer :=
  mkWriter (entities w) (datastore w) (isBusy w) (bufferSize w)
    (bufferCount w) (t0 w) (t1 w) (isTicking w) (maxConcurrentRequests w) v
    (elapsed w) (requestCount w) (upsert w) (idleOnce w) (promises w).

Definition set_elapsed (v : Z) (w : Writer) : Writer :=
  mkWriter (entities w) (datastore w) (isBusy w) (bufferSize w)
    (bufferCount w) (t0 w) (t1 w) (isTicking w) (maxConcurrentRequests w)
    (concurrentRequests w) v (requestCount w) (upsert w) (idleOnce w)
    (promises w).

Definition set_requestCount (v : Z) (w : Writer) : Writer :=
  mkWriter (entities w) (datastore w) (isBusy w) (bufferSize w)
    (bufferCount w) (t0 w) (t1 w) (isTicking w) (maxConcurrentRequests w)
    (concurrentRequests w) (elapsed w) v (upsert w) (idleOnce w) (promises w).

Definition set_idleOnce (v : list nat) (w : Writer) : Writer :=
  mkWriter (entities w) (datastore w) (isBusy w) (bufferSize w)
    (bufferCount w) (t0 w) (t1 w) (isTicking w) (maxConcurrentRequests w)
    (concurrentRequests w) (elapsed w) (requestCount w) (upsert w) v
    (promises w).

Definition set_promises (v : nat) (w : Writer) : Writer :=
  mkWriter (entities w) (datastore w) (isBusy w) (bufferSize w)
    (bufferCount w) (t0 w) (t1 w) (isTicking w) (maxConcurrentRequests w)
    (concurrentRequests w) (elapsed w) (requestCount w) (upsert w)
    (idleOnce w) v.

Definition M : Type -> Type := @Method Writer Effect.

(** *** constructor (lines 71-107) *)

Definition constructor (ds : option Datastore) (options : option Options.t)
  : Completion Writer :=
  let options :=
    if Options.isEmpty options then Options.defaults
    else match options with Some o => o | None => Options.defaults end in
  let buffer_size :=
    if Options.falsy (Options.buffer_size options) then Some 500
    else Options.buffer_size options in
  let max_concurrent_requests :=
    if Options.falsy (Options.max_concurrent_requests options) then Some 10
    else Options.max_concurrent_requests options in
  match ds with
  | None => Throw DatastoreNullOrEmpty
  | Some d =>
      if Options.falsy buffer_size then Throw BufferSizeNullOrEmpty
      else if Options.falsy max_concurrent_requests
      then Throw MaxConcurrentNullOrEmpty
      else
        match buffer_size, max_concurrent_requests with
        | Some bs, Some mc =>
            if bs <=? 0 then Throw (BufferSizeNotPositive bs)
            else if mc <=? 0 then Throw (MaxConcurrentNotPositive mc)
            else Normal
              {| entities := [];
                 datastore := d;
                 isBusy := false;
                 bufferSize := bs;
                 bufferCount := 0;
                 t0 := 0;
                 t1 := 0;
                 isTicking := false;
                 maxConcurrentRequests := mc;
                 concurrentRequests := 0;
                 elapsed := 0;
                 requestCount := 0;
                 upsert := match Options.upsert options with
                           | Some b => b
                           | None => false
                           end;
                 idleOnce := [];
                 promises := 0 |}
        | None, _ => Throw BufferSizeNullOrEmpty
        | _, None => Throw MaxConcurrentNullOrEmpty
        end
  end.

(** *** #changeStateToBusy, #changeStateToIdle (lines 109-121) *)

Definition changeStateToBusy : M unit :=
  busy <- get isBusy ;;
  n <- get concurrentRequests ;;
  mx <- get maxConcurrentRequests ;;
  when (negb busy && (n =? mx))
    (modify (set_isBusy true) ;;
     perform [Emit Busy]).

(** [this.emit('idle')] calls the listeners registered with [once], each of
    which resolves its promise, and removes them. *)
Definition emit_idle : M unit :=
  waiting <- get idleOnce ;;
  modify (set_idleOnce []) ;;
  perform (Emit Idle :: map Resolve waiting).

Definition changeStateToIdle : M unit :=
  busy <- get isBusy ;;
  n <- get concurrentRequests ;;
  mx <- get maxConcurrentRequests ;;
  when (busy && (n <? mx))
    (modify (set_isBusy false) ;;
     emit_idle).

(** *** ready (lines 127-135)

    Returns the new promise.  The executor runs inside [new Promise]. *)
Definition ready : M nat :=
  p <- get promises ;;
  modify (set_promises (S p)) ;;
  busy <- get isBusy ;;
  (if busy
   then modify (fun w => set_idleOnce (idleOnce w ++ [p]) w)
   else perform [Resolve p]) ;;
  ret p.

(** *** #startTimer, #endTimer (lines 154-173) *)

Definition startTimer (now : Z) : M unit :=
  ticking <- get isTicking ;;
  assert_ok (negb ticking) ;;
  modify (set_isTicking true) ;;
  modify (set_t0 now).

Definition endTimer (now : Z) : M unit :=
  ticking <- get isTicking ;;
  assert_ok ticking ;;
  modify (set_isTicking false) ;;
  modify (set_t1 now) ;;
  a <- get t0 ;;
  b <- get t1 ;;
  let nano := b - a in
  modify (fun w => set_elapsed (elapsed w + nano) w) ;;
  rc <- get requestCount ;;
  perform [Emit (StatsEvent (Stats.mk a b rc nano))].

(** *** flush (lines 178-202) *)

(** Where the synchronous part of [flush] stops: at the end of the body (the
    returned promise is fulfilled), or at the [await] on the promise of the
    Datastore call made for [foo], with [requestNumber] in its closure. *)
Inductive Suspension : Type :=
| Done
| Await (requestNumber : Z) (foo : list Entity).

Definition flush (now : Z) : M Suspension :=
  foo <- get entities ;;
  modify (set_entities []) ;;
  if (0 <? Z.of_nat (List.length foo)) then
    modify (fun w => set_concurrentRequests (concurrentRequests w + 1) w) ;;
    n <- get concurrentRequests ;;
    mx <- get maxConcurrentRequests ;;
    (if mx <? n then throw ExceededMaxConcurrent else ret tt) ;;
    modify (fun w => set_requestCount (requestCount w + 1) w) ;;
    requestNumber <- get requestCount ;;
    changeStateToBusy ;;
    startTimer now ;;
    ups <- get upsert ;;
    perform [if ups then Upsert foo else Insert foo] ;;
    ret (Await requestNumber foo)
  else ret Done.

(** The rest of the body, run when the awaited promise has settled with
    [result]: a rejection is thrown at the [await]. *)
Definition flush_resume (now : Z) (result : SinkResult) : M unit :=
  match result with
  | Rejected cause => throw cause
  | Fulfilled readable =>
      modify (fun w => set_concurrentRequests (concurrentRequests w - 1) w) ;;
      endTimer now ;;
      (if readable then ret tt else throw TypeError) ;;
      changeStateToIdle
  end.

(** *** add (lines 141-152)

    [this.flush()] never throws into [add]: an exception in the body of the
    [async] function rejects the returned promise, and the [catch] callback
    then emits 'error'.  When the flush is suspended the callback stays
    attached to its promise; [add] returns the suspension so that the caller
    can run [add_settled] when the request settles.  (What Node does when
    'error' is emitted with no listener registered is outside the model: the
    event is recorded as emitted.) *)
Definition add (now : Z) (entity : Entity) : M Suspension :=
  (if truthy entity then ret tt else throw EntityNullOrEmpty) ;;
  modify (fun w => set_entities (entities w ++ [entity]) w) ;;
  modify (fun w => set_bufferCount (bufferCount w + 1) w) ;;
  n <- get bufferCount ;;
  size <- get bufferSize ;;
  if Z.rem n size =? 0 then
    r <- attempt (flush now) ;;
    match r with
    | Normal s => ret s
    | Throw err => perform [Emit (ErrorEvent err)] ;; ret Done
    end
  else ret Done.

(** Settlement of the promise of a flush started by [add]. *)
Definition add_settled (now : Z) (result : SinkResult) : M unit :=
  r <- attempt (flush_resume now result) ;;
  match r with
  | Normal _ => ret tt
  | Throw err => perform [Emit (ErrorEvent err)]
  end.

End DatastoreWriter.

Import DatastoreWriter.

(** ** The writer with its requests in flight

    Between two turns of the event loop the state of a program that uses a
    writer is the writer object and the suspended [flush] calls, each waiting
    for the Datastore request it made.  A turn is a call of a public method,
    or the settlement of one request in flight. *)

Inductive Origin : Type :=
| Automatic     (* this.flush() in add *)
| Explicit.     (* flush() called from outside *)

Record Request : Type := mkRequest {
  number : Z;
  origin : Origin;
  batch : list Entity
}.

Record System : Type := mkSystem {
  writer : Writer;
  inFlight : list Request
}.

Inductive Op : Type :=
| CallAdd (entity : Entity)
| CallFlush
| CallReady
| Settle (requestNumber : Z) (result : SinkResult).

(** What the caller of the turn observes. *)
Inductive Outcome : Type :=
| AddReturned
| AddThrew (e : Error)
| ReadyReturned (p : nat)
| FlushPending (requestNumber : Z)
| FlushFulfilled
| FlushRejected (e : Error)
| AutomaticSettled
| NotInFlight.

Fixpoint take_request (n : Z) (l : list Request)
  : option (Request * list Request) :=
  match l with
  | [] => None
  | r :: rest =>
      if number r =? n then Some (r, rest)
      else match take_request n rest with
           | Some (x, rest') => Some (x, r :: rest')
           | None => None
           end
  end.

Definition suspended (o : Origin) (s : Suspension) (l : list Request)
  : list Request :=
  match s with
  | Done => l
  | Await n foo => l ++ [mkRequest n o foo]
  end.

Definition step (now : Z) (op : Op) (s : System)
  : System * Outcome * list Effect :=
  match op with
  | CallAdd entity =>
      match add now entity (writer s) with
      | (Normal susp, w, out) =>
          (mkSystem w (suspended Automatic susp (inFlight s)), AddReturned, out)
      | (Throw e, w, out) => (mkSystem w (inFlight s), AddThrew e, out)
      end
  | CallFlush =>
      match flush now (writer s) with
      | (Normal Done, w, out) => (mkSystem w (inFlight s), FlushFulfilled, out)
      | (Normal (Await n foo), w, out) =>
          (mkSystem w (inFlight s ++ [mkRequest n Explicit foo]),
           FlushPending n, out)
      | (Throw e, w, out) => (mkSystem w (inFlight s), FlushRejected e, out)
      end
  | CallReady =>
      match ready (writer s) with
      | (Normal p, w, out) => (mkSystem w (inFlight s), ReadyReturned p, out)
      | (Throw e, w, out) => (mkSystem w (inFlight s), AddThrew e, out)
      end
  | Settle n result =>
      match take_request n (inFlight s) with
      | None => (s, NotInFlight, [])
      | Some (r, rest) =>
          match origin r with
          | Automatic =>
              match add_settled now result (writer s) with
              | (_, w, out) => (mkSystem w rest, AutomaticSettled, out)
              end
          | Explicit =>
              match flush_resume now result (writer s) with
              | (Normal _, w, out) => (mkSystem w rest, FlushFulfilled, out)
              | (Throw e, w, out) => (mkSystem w rest, FlushRejected e, out)
              end
          end
      end
  end.

(** A schedule gives, for each turn, the clock reading and the operation.
    [run] returns the final state and what each turn did. *)
Definition Turn : Type := (Op * Outcome * list Effect)%type.

Fixpoint run (sched : list (Z * Op)) (s : System) : System * list Turn :=
  match sched with
  | [] => (s, [])
  | (now, op) :: rest =>
      match step now op s with
      | (s1, oc, out) =>
          match run rest s1 with
          | (s2, tr) => (s2, (op, oc, out) :: tr)
          end
      end
  end.

Definition final (sched : list (Z * Op)) (s : System) : System :=
  fst (run sched s).

Definition trace (sched : list (Z * Op)) (s : System) : list Turn :=
  snd (run sched s).

Definition boot (w : Writer) : System := mkSystem w [].

(** The writer built by [new DatastoreWriter(datastore, {buffer_size,
    max_concurrent_requests, upsert})]. *)
Definition fresh (d : Datastore) (bs mc : Z) (ups : bool) : Writer :=
  {| entities := []; datastore := d; isBusy := false; bufferSize := bs;
     bufferCount := 0; t0 := 0; t1 := 0; isTicking := false;
     maxConcurrentRequests := mc; concurrentRequests := 0; elapsed := 0;
     requestCount := 0; upsert := ups; idleOnce := []; promises := 0 |}.


(** ** BulkLoader *)

(** The value of [Number(elapsed) * 1e-9 / requestCount], a JavaScript
    [number].  Division by zero does not throw: it gives [NaN] for [0 / 0]
    and an infinity otherwise.  The rounding of a finite quotient is not
    modelled: it is kept as the pair of its operands. *)
Inductive Seconds : Type :=
| NaN
| PlusInfinity
| MinusInfinity
| Quotient (nanoseconds : Z) (requests : Z).

Definition mean_latency (elapsed requestCount : Z) : Seconds :=
  if requestCount =? 0 then
    if elapsed =? 0 then NaN
    else if 0 <? elapsed then PlusInfinity else MinusInfinity
  else Quotient elapsed requestCount.

(** The line reader is the package [line-by-line], which is not part of
    this repository.  Its behaviour is taken from the way the code uses it:
    it emits 'line' for each line in order while it is neither paused nor
    closed, and then 'end', once; [close] "stops emitting 'line' events,
    closes the file and emits the 'end' event" (BulkLoader.ts, line 138). *)
Module LineByLineReader.
Record t : Type := mk {
  remaining : list string;
  paused : bool;
  closed : bool;
  ended : bool
}.

Definition open (file : list string) : t := mk file false false false.

Definition pause (r : t) : t := mk (remaining r) true (closed r) (ended r).
Definition resume (r : t) : t := mk (remaining r) false (closed r) (ended r).
Definition close (r : t) : t := mk [] (paused r) true (ended r).

(** The next 'line' event, when one is due. *)
Definition next_line (r : t) : option (string * t) :=
  if paused r || closed r || ended r then None
  else match remaining r with
       | [] => None
       | line :: rest => Some (line, mk rest (paused r) (closed r) (ended r))
       end.

(** The 'end' event, when it is due. *)
Definition next_end (r : t) : option t :=
  if paused r || ended r then None
  else match remaining r with
       | [] => Some (mk [] (paused r) (closed r) true)
       | _ :: _ => None
       end.
End LineByLineReader.

Module BulkLoader.

Module Options.
(** [IBulkLoaderOptions] *)
Record t : Type := mk {
  num_concurrent : option Z;
  num_lines : option Z;
  batch_size : option Z;
  upsert : option bool
}.

Definition isEmpty (o : option t) : bool :=
  match o with
  | None => true
  | Some (mk None None None None) => true
  | Some _ => false
  end.

(** [#default_options] (lines 68-74) *)
Definition default_options : t := mk (Some 10) None (Some 500) (Some false).
End Options.

(** [IEntityConverter.convert] *)
Definition IEntityConverter : Type := string -> Completion Entity.

(** What a run of the loader shows: the effects of its writer, the value
    logged by [#complete], and the settlement of the promise of [load]. *)
Inductive Signal : Type :=
| OfWriter (e : Effect)
| LogAverage (sec : Seconds)    (* logger.info(`avg. request time = ${sec} s`) *)
| ResolveLoad                   (* this.#resolve() *)
| RejectLoad (err : Error).     (* this.#reject(err) *)

(** The fields of a [BulkLoader].  [#resolve] and [#reject] are the two
    functions of the promise of [load] and appear as the signals they
    produce.  The last two fields are the callbacks the loader has attached
    to promises that are still pending: the suspended calls of [flush], and
    for each promise of [ready] the entity that [#waitForWriter] holds. *)
Record Loader : Type := mkLoader {
  writer : Writer;
  path : string;
  batch : Z;
  count : Z;
  numConcurrent : Z;
  nLines : option Z;
  converter : IEntityConverter;
  lr : LineByLineReader.t;
  isPaused : bool;
  requestCount : Z;
  pending : list Request;
  waiters : list (nat * Entity)
}.

Definition set_writer (v : Writer) (l : Loader) : Loader :=
  mkLoader v (path l) (batch l) (count l) (numConcurrent l) (nLines l)
    (converter l) (lr l) (isPaused l) (requestCount l) (pending l) (waiters l).

Definition set_count (v : Z) (l : Loader) : Loader :=
  mkLoader (writer l) (path l) (batch l) v (numConcurrent l) (nLines l)
    (converter l) (lr l) (isPaused l) (requestCount l) (pending l) (waiters l).

Definition set_lr (v : LineByLineReader.t) (l : Loader) : Loader :=
  mkLoader (writer l) (path l) (batch l) (count l) (numConcurrent l) (nLines l)
    (converter l) v (isPaused l) (requestCount l) (pending l) (waiters l).

Definition set_isPaused (v : bool) (l : Loader) : Loader :=
  mkLoader (writer l) (path l) (batch l) (count l) (numConcurrent l) (nLines l)
    (converter l) (lr l) v (requestCount l) (pending l) (waiters l).

Definition set_requestCount (v : Z) (l : Loader) : Loader :=
  mkLoader (writer l) (path l) (batch l) (count l) (numConcurrent l) (nLines l)
    (converter l) (lr l) (isPaused l) v (pending l) (waiters l).

Definition set_pending (v : list Request) (l : Loader) : Loader :=
  mkLoader (writer l) (path l) (batch l) (count l) (numConcurrent l) (nLines l)
    (converter l) (lr l) (isPaused l) (requestCount l) v (waiters l).

Definition set_waiters (v : list (nat * Entity)) (l : Loader) : Loader :=
  mkLoader (writer l) (path l) (batch l) (count l) (numConcurrent l) (nLines l)
    (converter l) (lr l) (isPaused l) (requestCount l) (pending l) v.

Definition L : Type -> Type := @Method Loader Signal.

(** *** constructor (lines 76-103) *)

Definition constructor (filePath : string) (ds : option Datastore)
  (conv : option IEntityConverter) (options : option Options.t)
  : Completion Loader :=
  if String.eqb filePath EmptyString
  then Throw (LoaderArgument "filePath is null or empty")
  else
    match conv, ds with
    | None, _ => Throw (LoaderArgument "converter is null or undefined")
    | _, None => Throw (LoaderArgument "datastore is null or undefined")
    | Some cv, Some d =>
        let options :=
          if Options.isEmpty options then Options.default_options
          else match options with
               | Some o => o
               | None => Options.default_options
               end in
        let batch_size :=
          if DatastoreWriter.Options.falsy (Options.batch_size options)
          then 500
          else match Options.batch_size options with Some v => v | None => 500 end in
        let num_concurrent :=
          if DatastoreWriter.Options.falsy (Options.num_concurrent options)
          then 10
          else match Options.num_concurrent options with Some v => v | None => 10 end in
        let upsert :=
          match Options.upsert options with Some b => b | None => false end in
        if negb (0 <? batch_size)
        then Throw (LoaderArgument "batch size must be greater than 0")
        else if negb (0 <? num_concurrent)
        then Throw (LoaderArgument "nConcurrent must be greater than 0")
        else
          match DatastoreWriter.constructor (Some d)
                  (Some (DatastoreWriter.Options.mk (Some batch_size)
                           (Some num_concurrent) (Some upsert))) with
          | Throw e => Throw e
          | Normal w =>
              Normal
                {| writer := w;
                   path := filePath;
                   batch := batch_size;
                   count := 0;
                   numConcurrent := num_concurrent;
                   nLines := Options.num_lines options;
                   converter := cv;
                   lr := LineByLineReader.open [];
                   isPaused := false;
                   requestCount := 0;
                   pending := [];
                   waiters := [] |}
          end
    end.

(** *** #handleErrorEvent (lines 161-172) *)

Definition handleErrorEvent (err : Error) : L unit := perform [RejectLoad err].

(** *** The listeners on the writer (lines 101-111)

    A method of the writer called by the loader: its effects are seen, and
    the listeners registered on 'error' and 'stats' run for the events among
    them. *)
Definition listener (e : Effect) : L unit :=
  perform [OfWriter e] ;;
  match e with
  | Emit (StatsEvent _) => modify (fun l => set_requestCount (requestCount l + 1) l)
  | Emit (ErrorEvent err) => handleErrorEvent err
  | _ => ret tt
  end.

Fixpoint listeners (out : list Effect) : L unit :=
  match out with
  | [] => ret tt
  | e :: rest => listener e ;; listeners rest
  end.

Definition call_writer {A} (m : M A) : L A :=
  fun l =>
    match m (writer l) with
    | (r, w, out) =>
        match listeners out (set_writer w l) with
        | (_, l', sig) => (r, l', sig)
        end
    end.

Definition suspend (o : Origin) (s : Suspension) : L unit :=
  modify (fun l => set_pending (suspended o s (pending l)) l).

(** *** #waitForWriter (lines 113-125)

    [waitForWriter] attaches the callback; [resumed] is the callback, run
    when the promise of [ready] is resolved. *)
Definition waitForWriter (entity : Entity) : L unit :=
  p <- call_writer ready ;;
  modify (fun l => set_waiters (waiters l ++ [(p, entity)]) l).

Definition resumed (now : Z) (entity : Entity) : L unit :=
  r <- attempt
         (paused <- get isPaused ;;
          assert_ok paused ;;
          s <- call_writer (add now entity) ;;
          suspend Automatic s ;;
          modify (fun l => set_lr (LineByLineReader.resume (lr l)) l) ;;
          modify (set_isPaused false)) ;;
  match r with
  | Normal _ => ret tt
  | Throw err => handleErrorEvent err
  end.

(** *** #complete (lines 127-133) *)

Definition complete : L unit :=
  e <- get (fun l => DatastoreWriter.elapsed (writer l)) ;;
  n <- get (fun l => DatastoreWriter.requestCount (writer l)) ;;
  perform [LogAverage (mean_latency e n); ResolveLoad].

(** *** #handleLineEvent (lines 135-155) *)

Definition limit_reached (limit : option Z) (c : Z) : bool :=
  match limit with
  | Some n => (0 <? n) && (c =? n)
  | None => false
  end.

Definition handleLineEvent (now : Z) (line : string) : L unit :=
  r <- attempt
         (limit <- get nLines ;;
          c <- get count ;;
          if limit_reached limit c then
            modify (fun l => set_lr (LineByLineReader.close (lr l)) l)
          else
            modify (fun l => set_count (count l + 1) l) ;;
            cv <- get converter ;;
            entity <- (fun l => (cv line, l, [])) ;;
            busy <- get (fun l => isBusy (writer l)) ;;
            if busy then
              modify (fun l => set_lr (LineByLineReader.pause (lr l)) l) ;;
              modify (set_isPaused true) ;;
              waitForWriter entity
            else
              s <- call_writer (add now entity) ;;
              suspend Automatic s) ;;
  match r with
  | Normal _ => ret tt
  | Throw err => handleErrorEvent err
  end.

(** *** #handleEndEvent (lines 157-159) *)

Definition handleEndEvent (now : Z) : L unit :=
  r <- attempt (call_writer (flush now)) ;;
  match r with
  | Normal Done => complete
  | Normal (Await n foo) => suspend Explicit (Await n foo)
  | Throw err => handleErrorEvent err
  end.

(** *** load (lines 174-194) *)

Definition load (file : list string) (l : Loader) : Loader :=
  set_count 0 (set_lr (LineByLineReader.open file) l).

(** *** Turns of the event loop

    A turn is an event of the reader or the settlement of a Datastore
    request.  The callbacks that the turn makes runnable run before the next
    turn: first those attached to the promises of [ready] resolved in the
    turn, then those attached to the promise of the [flush] that finished.
    Every reading of the clock in a turn gives [now]. *)

Inductive Tick : Type :=
| LineEvent
| EndEvent
| ReaderError (cause : string)
| Settled (requestNumber : Z) (result : SinkResult).

Definition resolved_in (sig : list Signal) : list nat :=
  flat_map (fun s => match s with
                     | OfWriter (Resolve p) => [p]
                     | _ => []
                     end) sig.

Fixpoint take_waiter (p : nat) (ws : list (nat * Entity))
  : option (Entity * list (nat * Entity)) :=
  match ws with
  | [] => None
  | (q, entity) :: rest =>
      if Nat.eqb q p then Some (entity, rest)
      else match take_waiter p rest with
           | Some (x, rest') => Some (x, (q, entity) :: rest')
           | None => None
           end
  end.

Fixpoint continue (now : Z) (ps : list nat) : L unit :=
  match ps with
  | [] => ret tt
  | p :: rest =>
      ws <- get waiters ;;
      match take_waiter p ws with
      | Some (entity, ws') => modify (set_waiters ws') ;; resumed now entity
      | None => ret tt
      end ;;
      continue now rest
  end.

(** The synchronous part of a turn, with the callback to run at the end for
    a [flush] that finished. *)
Definition settle (now : Z) (n : Z) (result : SinkResult)
  : L (option (Completion unit)) :=
  reqs <- get pending ;;
  match take_request n reqs with
  | None => ret None
  | Some (r, rest) =>
      modify (set_pending rest) ;;
      match origin r with
      | Automatic => call_writer (add_settled now result) ;; ret None
      | Explicit =>
          c <- attempt (call_writer (flush_resume now result)) ;;
          ret (Some c)
      end
  end.

Definition turn (now : Z) (tick : Tick) : L unit :=
  match tick with
  | LineEvent =>
      r <- get lr ;;
      match LineByLineReader.next_line r with
      | None => ret tt
      | Some (line, r') => modify (set_lr r') ;; handleLineEvent now line
      end
  | EndEvent =>
      r <- get lr ;;
      match LineByLineReader.next_end r with
      | None => ret tt
      | Some r' => modify (set_lr r') ;; handleEndEvent now
      end
  | ReaderError cause => handleErrorEvent (ReaderFailure cause)
  | Settled n result =>
      fun l =>
        match settle now n result l with
        | (c, l1, sig1) =>
            match continue now (resolved_in sig1) l1 with
            | (_, l2, sig2) =>
                match
                  match c with
                  | Normal (Some (Normal _)) => complete l2
                  | Normal (Some (Throw err)) => handleErrorEvent err l2
                  | _ => (Normal tt, l2, [])
                  end
                with
                | (r, l3, sig3) => (r, l3, sig1 ++ sig2 ++ sig3)
                end
            end
        end
  end.

Definition deliver (now : Z) (tick : Tick) (l : Loader) : Loader * list Signal :=
  match turn now tick l with
  | (_, l', sig) => (l', sig)
  end.

Fixpoint play (sched : list (Z * Tick)) (l : Loader)
  : Loader * list (list Signal) :=
  match sched with
  | [] => (l, [])
  | (now, tick) :: rest =>
      match deliver now tick l with
      | (l1, sig) =>
          match play rest l1 with
          | (l2, sigs) => (l2, sig :: sigs)
          end
      end
  end.

End BulkLoader.

(** ** Vocabulary of the properties *)

(** The call [flush] makes to the Datastore client. *)
Definition sink_call (ups : bool) (foo : list Entity) : Effect :=
  if ups then Upsert foo else Insert foo.

(** The acquisition that saturates the writer, the release that frees it. *)
Definition busy_edge (w : Writer) : bool :=
  negb (isBusy w) && (concurrentRequests w + 1 =? maxConcurrentRequests w).

Definition idle_edge (w : Writer) : bool :=
  isBusy w && (concurrentRequests w - 1 <? maxConcurrentRequests w).

(** The caller does what the comment on [ready] asks ("Always await this
    method before calling add or flush"): [add] and [flush] are called only
    when the writer is not busy. *)
Definition allowed (op : Op) (s : System) : bool :=
  match op with
  | CallAdd _ | CallFlush => negb (isBusy (writer s))
  | CallReady | Settle _ _ => true
  end.

Fixpoint awaits_ready (sched : list (Z * Op)) (s : System) : bool :=
  match sched with
  | [] => true
  | (now, op) :: rest =>
      allowed op s && awaits_ready rest (fst (fst (step now op s)))
  end.

(** The bound of the concurrency gate. *)
Definition within_limit (s : System) : Prop :=
  0 <= concurrentRequests (writer s) <= maxConcurrentRequests (writer s).

(** The writer after the first three statements of [add]. *)
Definition pushed (entity : Entity) (w : Writer) : Writer :=
  set_bufferCount (bufferCount w + 1) (set_entities (entities w ++ [entity]) w).

(** What the gate keeps true as long as the caller awaits [ready]: every
    request in flight is counted, the count is within the limit, and a writer
    that is not busy has room for one more request. *)
Definition gate_inv (s : System) : Prop :=
  Z.of_nat (List.length (inFlight s)) <= concurrentRequests (writer s)
  /\ concurrentRequests (writer s) <= maxConcurrentRequests (writer s)
  /\ (isBusy (writer s) = false ->
      concurrentRequests (writer s) < maxConcurrentRequests (writer s)).

(** The batches handed to the Datastore client by a list of effects, and by
    the automatic flushes of a run: those started inside a call of [add]. *)
Definition batches_of (out : list Effect) : list (list Entity) :=
  flat_map (fun e => match e with
                     | Insert b | Upsert b => [b]
                     | Emit _ | Resolve _ => []
                     end) out.

Definition automatic_batches (tr : list Turn) : list (list Entity) :=
  flat_map (fun t : Turn =>
              match t with
              | (CallAdd _, _, out) => batches_of out
              | _ => []
              end) tr.

Definition all_batches (tr : list Turn) : list (list Entity) :=
  flat_map (fun t : Turn => batches_of (snd t)) tr.

(** Schedules in which the explicit calls of [flush] are trailing: no [add]
    follows a [flush]. *)
Fixpoint no_add (sched : list (Z * Op)) : bool :=
  match sched with
  | [] => true
  | (_, CallAdd _) :: _ => false
  | _ :: rest => no_add rest
  end.

Fixpoint flush_only_trailing (sched : list (Z * Op)) : bool :=
  match sched with
  | [] => true
  | (_, CallFlush) :: rest => no_add rest
  | _ :: rest => flush_only_trailing rest
  end.

(** The buffer holds the records added since the last multiple of
    [bufferSize]. *)
Definition aligned (w : Writer) : Prop :=
  0 < bufferSize w /\ 0 <= bufferCount w
  /\ Z.of_nat (List.length (entities w)) = Z.rem (bufferCount w) (bufferSize w).

(** Construction fails synchronously. *)
Definition rejects (ds : option Datastore) (opts : option Options.t) : Prop :=
  exists e, constructor ds opts = Throw e.

Definition negative (n : option Z) : bool :=
  match n with
  | Some v => v <? 0
  | None => false
  end.

(** The 'stats' payloads among a list of effects. *)
Definition stats_of (out : list Effect) : list Stats.t :=
  flat_map (fun e => match e with
                     | Emit (StatsEvent p) => [p]
                     | _ => []
                     end) out.

(** Effects that neither emit 'idle' nor resolve a promise of [ready]. *)
Definition silent (e : Effect) : bool :=
  match e with
  | Emit Idle | Resolve _ => false
  | _ => true
  end.

Definition quiet (out : list Effect) : bool := forallb silent out.

(** The promises waiting for 'idle' are distinct and were all made by
    earlier calls of [ready]. *)
Definition waiting_inv (w : Writer) : Prop :=
  NoDup (idleOnce w)
  /\ Forall (fun q => (q < promises w)%nat) (idleOnce w).

(** How a turn can touch the promises of [ready]. *)
Inductive touches (w w' : Writer) (out : list Effect) : Prop :=
| touches_nothing :
    quiet out = true -> idleOnce w' = idleOnce w ->
    promises w' = promises w -> touches w w' out
| touches_register :
    isBusy w = true -> out = [] ->
    idleOnce w' = idleOnce w ++ [promises w] ->
    promises w' = S (promises w) -> touches w w' out
| touches_immediate :
    isBusy w = false -> out = [Resolve (promises w)] ->
    idleOnce w' = idleOnce w ->
    promises w' = S (promises w) -> touches w w' out
| touches_idle pre post :
    quiet pre = true -> quiet post = true ->
    out = pre ++ Emit Idle :: map Resolve (idleOnce w) ++ post ->
    idleOnce w' = [] -> promises w' = promises w -> touches w w' out.

(** *** Vocabulary for the loader *)

(** The loader returned by [new BulkLoader(...)] for a configuration that
    passes the checks of the constructor. *)
Definition loader (filePath : string) (d : Datastore)
  (conv : BulkLoader.IEntityConverter) (bs mc : Z) (limit : option Z)
  (ups : bool) : BulkLoader.Loader :=
  BulkLoader.mkLoader (fresh d bs mc ups) filePath bs 0 mc limit conv
    (LineByLineReader.open []) false 0 [] [].

(** The batches handed to the Datastore client among the signals of a
    turn, and of a run. *)
Definition signal_batches (sig : list BulkLoader.Signal) : list (list Entity) :=
  flat_map (fun s => match s with
                     | BulkLoader.OfWriter (Insert b)
                     | BulkLoader.OfWriter (Upsert b) => [b]
                     | _ => []
                     end) sig.

Definition run_batches (sigs : list (list BulkLoader.Signal))
  : list (list Entity) :=
  flat_map signal_batches sigs.

(** The reader emits 'line' at each reading of [clock], then 'end'. *)
Definition lines_then_end (clock : list Z) (tend : Z)
  : list (Z * BulkLoader.Tick) :=
  map (fun t => (t, BulkLoader.LineEvent)) clock ++ [(tend, BulkLoader.EndEvent)].

(** A method of the loader that leaves the cursor of the pipeline alone:
    the count of records consumed and the limit. *)
Definition keeps {A} (m : BulkLoader.L A) : Prop :=
  forall l r l' sig,
    m l = (r, l', sig) ->
    BulkLoader.count l' = BulkLoader.count l
    /\ BulkLoader.nLines l' = BulkLoader.nLines l.

(** The cursor is within the limit [n]. *)
Definition within (n : Z) (l : BulkLoader.Loader) : Prop :=
  BulkLoader.nLines l = Some n /\ 0 <= BulkLoader.count l <= n.

(** The entity the converter returns for a line ([Nullish] when it
    throws). *)
Definition converted (conv : BulkLoader.IEntityConverter) (line : string)
  : Entity :=
  match conv line with
  | Normal e => e
  | Throw _ => Nullish
  end.

(** The loader while it reads with nothing in flight: [k] records consumed,
    all of them in the buffer [ents], the reader in state [r]. *)
Definition reading (filePath : string) (d : Datastore)
  (conv : BulkLoader.IEntityConverter) (bs mc n : Z) (ups : bool)
  (ents : list Entity) (k : Z) (r : LineByLineReader.t) : BulkLoader.Loader :=
  BulkLoader.mkLoader
    (mkWriter ents d false bs k 0 0 false mc 0 0 0 ups [] 0)
    filePath bs k mc (Some n) conv r false 0 [] [].

(** ** Vocabulary of further properties *)

(** All the effects of a run, in order. *)
Definition effects (tr : list Turn) : list Effect :=
  flat_map (fun t : Turn => snd t) tr.

(** The 'busy' and 'idle' events among a list of effects. *)
Definition edges (out : list Effect) : list Event :=
  flat_map (fun e => match e with
                     | Emit Busy => [Busy]
                     | Emit Idle => [Idle]
                     | _ => []
                     end) out.

(** Reads a sequence of 'busy' and 'idle' events from a writer whose
    [isBusy] is [busy]: [Some b] when each 'busy' comes while not busy and
    each 'idle' while busy, with [b] the value of [isBusy] at the end. *)
Fixpoint alternate (busy : bool) (evs : list Event) : option bool :=
  match evs with
  | [] => Some busy
  | Busy :: rest => if busy then None else alternate true rest
  | Idle :: rest => if busy then alternate false rest else None
  | _ :: rest => alternate busy rest
  end.

(** At most one request is in flight, and the timer runs while it is. *)
Definition single_flight (s : System) : Prop :=
  (List.length (inFlight s) <= 1)%nat
  /\ (inFlight s <> [] -> isTicking (writer s) = true).

(** The sum of the durations reported by 'stats' events. *)
Definition total_elapsed (ps : list Stats.t) : Z :=
  fold_right (fun p acc => Stats.elapsed p + acc) 0 ps.

(** The readings of the clock never go back, starting from [last]. *)
Fixpoint monotone (last : Z) (sched : list (Z * Op)) : bool :=
  match sched with
  | [] => true
  | (now, _) :: rest => (last <=? now) && monotone now rest
  end.

(** The records that the calls of [add] in a schedule put in the buffer. *)
Definition added (sched : list (Z * Op)) : list Entity :=
  flat_map (fun t : Z * Op =>
              match snd t with
              | CallAdd e => if truthy e then [e] else []
              | _ => []
              end) sched.

(** The writer after a failed Datastore request: the timer is left running
    with nothing in flight. *)
Definition wedged (s : System) : Prop :=
  isTicking (writer s) = true /\ inFlight s = [].

(** The value the constructors use for a numeric option: the default when
    the option is absent or 0. *)
Definition or_default (dflt : Z) (n : option Z) : Z :=
  match n with
  | Some v => if v =? 0 then dflt else v
  | None => dflt
  end.

Definition or_false (b : option bool) : bool :=
  match b with
  | Some v => v
  | None => false
  end.

(** The errors carried by the 'error' events among a list of effects. *)
Definition errors_of (out : list Effect) : list Error :=
  flat_map (fun e => match e with
                     | Emit (ErrorEvent err) => [err]
                     | _ => []
                     end) out.

(** With one slot, a writer that is not busy has no request in flight and
    its timer is stopped. *)
Definition one_slot_inv (s : System) : Prop :=
  maxConcurrentRequests (writer s) = 1
  /\ gate_inv s
  /\ (isBusy (writer s) = false -> isTicking (writer s) = false).

(** The options object a constructor works on, when none is passed. *)
Definition given (opts : option Options.t) : Options.t :=
  match opts with
  | Some o => o
  | None => Options.mk None None None
  end.

Definition loader_given (opts : option BulkLoader.Options.t)
  : BulkLoader.Options.t :=
  match opts with
  | Some o => o
  | None => BulkLoader.Options.mk None None None None
  end.

(** *** Vocabulary for the loader *)

(** What the loader signals for the effects of a call to its writer: each
    effect, and for an 'error' event the rejection made by its listener. *)
Definition signals_of (out : list Effect) : list BulkLoader.Signal :=
  flat_map (fun e => BulkLoader.OfWriter e
                       :: match e with
                          | Emit (ErrorEvent err) => [BulkLoader.RejectLoad err]
                          | _ => []
                          end) out.

(** The effects of the writer among the signals of the loader. *)
Definition writer_effects (sig : list BulkLoader.Signal) : list Effect :=
  flat_map (fun s => match s with
                     | BulkLoader.OfWriter e => [e]
                     | _ => []
                     end) sig.

(** The writer of a loader with the requests it has in flight. *)
Definition sys (l : BulkLoader.Loader) : System :=
  mkSystem (BulkLoader.writer l) (BulkLoader.pending l).

(** A busy writer has an empty buffer. *)
Definition busy_empty (s : System) : Prop :=
  isBusy (writer s) = true -> entities (writer s) = [].

(** At most one record waits for the writer, and the reader is paused while
    it waits. *)
Definition one_waiter (l : BulkLoader.Loader) : Prop :=
  BulkLoader.waiters l = []
  \/ exists p entity,
       BulkLoader.waiters l = [(p, entity)]
       /\ LineByLineReader.paused (BulkLoader.lr l) = true
       /\ BulkLoader.isPaused l = true.

(** The records that the converter gives for the lines consumed. *)
Definition converted_records (conv : BulkLoader.IEntityConverter)
  (lines : list string) : list Entity :=
  flat_map (fun line => match conv line with
                        | Normal e => if truthy e then [e] else []
                        | Throw _ => []
                        end) lines.

(** The number of calls of [this.#resolve()] among the signals. *)
Definition resolutions (sig : list BulkLoader.Signal) : nat :=
  List.length (filter (fun s => match s with
                                | BulkLoader.ResolveLoad => true
                                | _ => false
                                end) sig).

(** The suspended calls of [flush] made by [#handleEndEvent]. *)
Definition explicit_pending (l : BulkLoader.Loader) : nat :=
  List.length (filter (fun r => match origin r with
                                | Explicit => true
                                | Automatic => false
                                end) (BulkLoader.pending l)).

(** The promises of [ready] resolved by a list of effects. *)
Definition resolved_of (out : list Effect) : list nat :=
  flat_map (fun e => match e with
                     | Resolve p => [p]
                     | _ => []
                     end) out.

(** The loader after a call to a method of its writer that left the writer
    in state [w] with effects [out]: the 'stats' listener has counted. *)
Definition called (w : Writer) (out : list Effect) (l : BulkLoader.Loader)
  : BulkLoader.Loader :=
  BulkLoader.set_requestCount
    (BulkLoader.requestCount l + Z.of_nat (List.length (stats_of out)))
    (BulkLoader.set_writer w l).

(** The rejection signalled when a call made inside [try] throws. *)
Definition caught {A} (r : Completion A) : list BulkLoader.Signal :=
  match r with
  | Normal _ => []
  | Throw err => [BulkLoader.RejectLoad err]
  end.

(** The records that wait for the writer. *)
Definition waiting (l : BulkLoader.Loader) : list Entity :=
  flat_map (fun pe : nat * Entity => if truthy (snd pe) then [snd pe] else [])
    (BulkLoader.waiters l).

(** The line that a turn hands to the converter, if any. *)
Definition consumed_by (tick : BulkLoader.Tick) (l : BulkLoader.Loader)
  : list string :=
  match tick with
  | BulkLoader.LineEvent =>
      match LineByLineReader.next_line (BulkLoader.lr l) with
      | Some (line, _) =>
          if BulkLoader.limit_reached (BulkLoader.nLines l) (BulkLoader.count l)
          then []
          else [line]
      | None => []
      end
  | _ => []
  end.

(** The lines handed to the converter along a run, in order. *)
Fixpoint consumed (sched : list (Z * BulkLoader.Tick)) (l : BulkLoader.Loader)
  : list string :=
  match sched with
  | [] => []
  | (now, tick) :: rest =>
      consumed_by tick l ++ consumed rest (fst (BulkLoader.deliver now tick l))
  end.

(** What holds of a loader between two turns. *)
Definition loader_inv (l : BulkLoader.Loader) : Prop :=
  gate_inv (sys l) /\ busy_empty (sys l) /\ one_waiter l.

(** What a turn of the loader does to its writer: the calls it makes. *)
Definition simulates (now : Z) (tick : BulkLoader.Tick) (l : BulkLoader.Loader)
  (ops : list (Z * Op)) : Prop :=
  let l' := fst (BulkLoader.deliver now tick l) in
  sys l' = final ops (sys l)
  /\ awaits_ready ops (sys l) = true
  /\ writer_effects (snd (BulkLoader.deliver now tick l))
     = effects (trace ops (sys l))
  /\ one_waiter l'
  /\ added ops ++ waiting l'
     = waiting l
         ++ converted_records (BulkLoader.converter l) (consumed_by tick l)
  /\ BulkLoader.converter l' = BulkLoader.converter l.

(** A call of [add] or [flush] that fails because the limit of concurrent
    requests is exceeded: [flush] rejects with that error, [add] reports it
    with an 'error' event. *)
Definition exceeds (t : Turn) : Prop :=
  match t with
  | (CallAdd _, _, out) => In ExceededMaxConcurrent (errors_of out)
  | (CallFlush, oc, _) => oc = FlushRejected ExceededMaxConcurrent
  | _ => False
  end.

(** No limit on the number of records: [num_lines] is absent or not
    positive, so that [this.#nLines > 0] is false. *)
Definition no_limit (l : BulkLoader.Loader) : Prop :=
  match BulkLoader.nLines l with
  | Some n => n <= 0
  | None => True
  end.

(** The calls of [this.#resolve()] that can still come: one for each
    suspended [flush] of [#handleEndEvent], and one for the 'end' event as
    long as the reader has not emitted it. *)
Definition outstanding (l : BulkLoader.Loader) : nat :=
  explicit_pending l
  + (if LineByLineReader.ended (BulkLoader.lr l) then 0 else 1).

(** The state of the promise of [load] after the calls of
    [this.#resolve()] and [this.#reject(err)] among the signals, oldest
    first: the first call settles the promise, later calls have no
    effect; [None] while the promise is pending. *)
Fixpoint settlement (sig : list BulkLoader.Signal) : option (Completion unit) :=
  match sig with
  | [] => None
  | BulkLoader.ResolveLoad :: _ => Some (Normal tt)
  | BulkLoader.RejectLoad err :: _ => Some (Throw err)
  | _ :: rest => settlement rest
  end.
(** * Properties *)

Ltac unfold_js :=
  cbv [flush flush_resume add add_settled ready startTimer endTimer
       changeStateToBusy changeStateToIdle emit_idle assert_ok
       bind ret throw attempt get modify perform when
       set_entities set_isBusy set_bufferCount set_t0 set_t1 set_isTicking
       set_concurrentRequests set_elapsed set_requestCount set_idleOnce
       set_promises
       entities datastore isBusy bufferSize bufferCount t0 t1 isTicking
       maxConcurrentRequests concurrentRequests elapsed requestCount upsert
       idleOnce promises].

Lemma constructor_fresh d bs mc ups :
  0 < bs -> 0 < mc ->
  constructor (Some d) (Some (Options.mk (Some bs) (Some mc) (Some ups)))
  = Normal (fresh d bs mc ups).
Proof.
  intros Hb Hm. unfold constructor, Options.isEmpty, Options.falsy. simpl.
  destruct (bs =? 0) eqn:E1; [lia|].
  destruct (mc =? 0) eqn:E2; [lia|].
  simpl. rewrite E1, E2.
  destruct (bs <=? 0) eqn:E3; [lia|].
  destruct (mc <=? 0) eqn:E4; [lia|].
  reflexivity.
Qed.

(** ** Runs on small inputs *)

(** Five records through a buffer of two, each request settled before the
    next threshold: batches of 2, 2 and, from the trailing flush, 1. *)
Example batches_2_2_1 :
  all_batches
    (trace [(0, CallAdd (Obj "a")); (1, CallAdd (Obj "b"));
            (2, Settle 1 (Fulfilled true));
            (3, CallAdd (Obj "c")); (4, CallAdd (Obj "d"));
            (5, Settle 2 (Fulfilled true));
            (6, CallAdd (Obj "e")); (7, CallFlush)]
       (boot (fresh (Client "p") 2 10 false)))
  = [[Obj "a"; Obj "b"]; [Obj "c"; Obj "d"]; [Obj "e"]].
Proof. reflexivity. Qed.

(** One slot: 'busy' when the request starts, 'idle' when it completes, and
    the promise of a [ready] called in between resolves with 'idle'. *)
Example busy_then_idle :
  map (fun t : Turn => snd t)
    (trace [(0, CallAdd (Obj "a")); (1, CallReady);
            (4, Settle 1 (Fulfilled true)); (5, CallReady)]
       (boot (fresh (Client "p") 1 1 false)))
  = [[Emit Busy; Insert [Obj "a"]];
     [];
     [Emit (StatsEvent (Stats.mk 0 4 1 4)); Emit Idle; Resolve 0%nat];
     [Resolve 1%nat]].
Proof. reflexivity. Qed.

(** The timer is one per writer: a flush started while a request is in
    flight fails the assertion of [#startTimer], after its batch was taken
    and counted. *)
Example overlapping_flush :
  let sched := [(0, CallAdd (Obj "a")); (1, CallAdd (Obj "b"))] in
  let s0 := boot (fresh (Client "p") 1 10 false) in
  map (fun t : Turn => snd t) (trace sched s0)
  = [[Insert [Obj "a"]]; [Emit (ErrorEvent AssertionError)]]
  /\ concurrentRequests (writer (final sched s0)) = 2
  /\ entities (writer (final sched s0)) = [].
Proof. repeat split. Qed.

(** ** The cases of flush *)

Lemma flush_empty now w :
  entities w = [] -> flush now w = (Normal Done, w, []).
Proof.
  intros H. destruct w. simpl in H. subst. reflexivity.
Qed.

Lemma flush_clears_buffer now w r w' out :
  flush now w = (r, w', out) -> entities w' = [].
Proof.
  destruct w as [ents ds busy bs bc a b tick mx n el rc ups io pr].
  unfold_js. destruct ents as [|e ents]; simpl.
  - intros H; inversion H; reflexivity.
  - destruct (mx <? n + 1); simpl; [intros H; inversion H; reflexivity|].
    destruct (negb busy && (n + 1 =? mx))%bool; simpl;
      destruct tick; simpl; destruct ups; simpl;
      intros H; inversion H; reflexivity.
Qed.

(** The three ways a flush of a non-empty buffer can go. *)

Lemma flush_exceeded now w :
  entities w <> [] ->
  maxConcurrentRequests w < concurrentRequests w + 1 ->
  flush now w =
    (Throw ExceededMaxConcurrent,
     set_concurrentRequests (concurrentRequests w + 1) (set_entities [] w),
     []).
Proof.
  destruct w as [ents ds busy bs bc a b tick mx n el rc ups io pr].
  unfold_js. intros Hne Hlt.
  destruct ents as [|e ents]; [congruence|]. simpl.
  destruct (mx <? n + 1) eqn:E; [reflexivity|]. apply Z.ltb_ge in E. lia.
Qed.

Lemma flush_ticking now w :
  entities w <> [] ->
  concurrentRequests w + 1 <= maxConcurrentRequests w ->
  isTicking w = true ->
  flush now w =
    (Throw AssertionError,
     set_isBusy (isBusy w || busy_edge w)
       (set_requestCount (requestCount w + 1)
          (set_concurrentRequests (concurrentRequests w + 1)
             (set_entities [] w))),
     if busy_edge w then [Emit Busy] else []).
Proof.
  destruct w as [ents ds busy bs bc a b tick mx n el rc ups io pr].
  unfold busy_edge. unfold_js. intros Hne Hle Htick. subst tick.
  destruct ents as [|e ents]; [congruence|]. simpl.
  destruct (mx <? n + 1) eqn:E; [apply Z.ltb_lt in E; lia|]. simpl.
  destruct busy; simpl; [reflexivity|].
  destruct (n + 1 =? mx); reflexivity.
Qed.

Lemma flush_submits now w :
  entities w <> [] ->
  concurrentRequests w + 1 <= maxConcurrentRequests w ->
  isTicking w = false ->
  flush now w =
    (Normal (Await (requestCount w + 1) (entities w)),
     set_t0 now
       (set_isTicking true
          (set_isBusy (isBusy w || busy_edge w)
             (set_requestCount (requestCount w + 1)
                (set_concurrentRequests (concurrentRequests w + 1)
                   (set_entities [] w))))),
     (if busy_edge w then [Emit Busy] else [])
       ++ [sink_call (upsert w) (entities w)]).
Proof.
  destruct w as [ents ds busy bs bc a b tick mx n el rc ups io pr].
  unfold busy_edge, sink_call. unfold_js. intros Hne Hle Htick. subst tick.
  destruct ents as [|e ents]; [congruence|]. simpl.
  destruct (mx <? n + 1) eqn:E; [apply Z.ltb_lt in E; lia|]. simpl.
  destruct busy; simpl; [destruct ups; reflexivity|].
  destruct (n + 1 =? mx); destruct ups; reflexivity.
Qed.

(** A rejected request: the body of [flush] is left at the [await]. *)
Lemma flush_resume_rejected now cause w :
  flush_resume now (Rejected cause) w = (Throw cause, w, []).
Proof. reflexivity. Qed.

(** A fulfilled request, with the timer running. *)
Lemma flush_resume_fulfilled now readable w :
  isTicking w = true ->
  flush_resume now (Fulfilled readable) w =
    let w1 :=
      set_elapsed (elapsed w + (now - t0 w))
        (set_t1 now
           (set_isTicking false
              (set_concurrentRequests (concurrentRequests w - 1) w))) in
    let stats :=
      Emit (StatsEvent (Stats.mk (t0 w) now (requestCount w) (now - t0 w))) in
    if readable then
      if idle_edge w
      then (Normal tt, set_idleOnce [] (set_isBusy false w1),
            stats :: Emit Idle :: map Resolve (idleOnce w))
      else (Normal tt, w1, [stats])
    else (Throw TypeError, w1, [stats]).
Proof.
  destruct w as [ents ds busy bs bc a b tick mx n el rc ups io pr].
  unfold idle_edge. unfold_js. intros Htick. subst tick. simpl.
  destruct readable; simpl; [|reflexivity].
  destruct busy; simpl; [|reflexivity].
  destruct (n - 1 <? mx); reflexivity.
Qed.

Lemma flush_resume_not_ticking now readable w :
  isTicking w = false ->
  flush_resume now (Fulfilled readable) w =
    (Throw AssertionError,
     set_concurrentRequests (concurrentRequests w - 1) w, []).
Proof.
  destruct w as [ents ds busy bs bc a b tick mx n el rc ups io pr].
  unfold_js. intros Htick. subst tick. reflexivity.
Qed.

Lemma flush_cases now w :
  (entities w = [] /\ flush now w = (Normal Done, w, []))
  \/ (entities w <> []
      /\ maxConcurrentRequests w < concurrentRequests w + 1
      /\ flush now w =
           (Throw ExceededMaxConcurrent,
            set_concurrentRequests (concurrentRequests w + 1)
              (set_entities [] w), []))
  \/ (entities w <> []
      /\ concurrentRequests w + 1 <= maxConcurrentRequests w
      /\ isTicking w = true
      /\ flush now w =
           (Throw AssertionError,
            set_isBusy (isBusy w || busy_edge w)
              (set_requestCount (requestCount w + 1)
                 (set_concurrentRequests (concurrentRequests w + 1)
                    (set_entities [] w))),
            if busy_edge w then [Emit Busy] else []))
  \/ (entities w <> []
      /\ concurrentRequests w + 1 <= maxConcurrentRequests w
      /\ isTicking w = false
      /\ flush now w =
           (Normal (Await (requestCount w + 1) (entities w)),
            set_t0 now
              (set_isTicking true
                 (set_isBusy (isBusy w || busy_edge w)
                    (set_requestCount (requestCount w + 1)
                       (set_concurrentRequests (concurrentRequests w + 1)
                          (set_entities [] w))))),
            (if busy_edge w then [Emit Busy] else [])
              ++ [sink_call (upsert w) (entities w)])).
Proof.
  destruct (entities w) eqn:He.
  - left. split; [reflexivity|]. now apply flush_empty.
  - right. rewrite <- He.
    assert (Hne : entities w <> []) by (rewrite He; discriminate).
    destruct (Z_lt_le_dec (maxConcurrentRequests w) (concurrentRequests w + 1))
      as [Hlt|Hle].
    + left. auto using flush_exceeded.
    + right. destruct (isTicking w) eqn:Ht.
      * left. auto using flush_ticking.
      * right. auto using flush_submits.
Qed.

(** [add] in terms of [flush]. *)
Lemma add_falsy now w : add now Nullish w = (Throw EntityNullOrEmpty, w, []).
Proof. reflexivity. Qed.

Lemma add_below_threshold now key w :
  Z.rem (bufferCount w + 1) (bufferSize w) <> 0 ->
  add now (Obj key) w = (Normal Done, pushed (Obj key) w, []).
Proof.
  intros H. apply Z.eqb_neq in H.
  destruct w as [ents ds busy bs bc a b tick mx n el rc ups io pr].
  unfold pushed.
  cbv [add bind ret throw attempt get modify perform truthy
       set_entities set_bufferCount
       entities datastore isBusy bufferSize bufferCount t0 t1 isTicking
       maxConcurrentRequests concurrentRequests elapsed requestCount upsert
       idleOnce promises] in *.
  rewrite H. reflexivity.
Qed.

Lemma add_at_threshold now key w :
  Z.rem (bufferCount w + 1) (bufferSize w) = 0 ->
  add now (Obj key) w =
    match flush now (pushed (Obj key) w) with
    | (Normal s, w', out) => (Normal s, w', out)
    | (Throw err, w', out) => (Normal Done, w', out ++ [Emit (ErrorEvent err)])
    end.
Proof.
  intros H. apply Z.eqb_eq in H.
  destruct w as [ents ds busy bs bc a b tick mx n el rc ups io pr].
  unfold pushed.
  cbv [add bind ret throw attempt get modify perform truthy
       set_entities set_bufferCount
       entities datastore isBusy bufferSize bufferCount t0 t1 isTicking
       maxConcurrentRequests concurrentRequests elapsed requestCount upsert
       idleOnce promises] in *.
  rewrite H.
  match goal with |- context [flush now ?x] => destruct (flush now x) as [[r w'] out] end.
  destruct r; simpl; rewrite ?app_nil_r; reflexivity.
Qed.

Lemma add_settled_eq now result w :
  add_settled now result w =
    match flush_resume now result w with
    | (Normal _, w', out) => (Normal tt, w', out)
    | (Throw err, w', out) => (Normal tt, w', out ++ [Emit (ErrorEvent err)])
    end.
Proof.
  cbv [add_settled bind attempt ret perform].
  destruct (flush_resume now result w) as [[r w'] out].
  destruct r; simpl; rewrite ?app_nil_r; reflexivity.
Qed.

Lemma take_request_length n l r rest :
  take_request n l = Some (r, rest) ->
  List.length l = S (List.length rest).
Proof.
  revert r rest. induction l as [|x l IH]; simpl; intros r rest H.
  - discriminate.
  - destruct (number x =? n).
    + inversion H; subst. reflexivity.
    + destruct (take_request n l) as [[y rest']|]; [|discriminate].
      inversion H; subst. simpl. f_equal. eapply IH. reflexivity.
Qed.

Lemma take_request_In n l r rest :
  take_request n l = Some (r, rest) -> In r l /\ number r = n.
Proof.
  revert r rest. induction l as [|x l IH]; simpl; intros r rest H.
  - discriminate.
  - destruct (number x =? n) eqn:E.
    + inversion H; subst. split; [now left|]. now apply Z.eqb_eq.
    + destruct (take_request n l) as [[y rest']|]; [|discriminate].
      inversion H; subst. destruct (IH _ _ eq_refl). split; [now right|assumption].
Qed.

(** ** The concurrency gate *)

Lemma ready_eq w :
  ready w =
    (Normal (promises w),
     (if isBusy w
      then set_idleOnce (idleOnce w ++ [promises w])
      else fun x => x) (set_promises (S (promises w)) w),
     if isBusy w then [] else [Resolve (promises w)]).
Proof.
  destruct w as [ents ds busy bs bc a b tick mx n el rc ups io pr].
  unfold_js. destruct busy; reflexivity.
Qed.

Lemma flush_gate now s r w out o :
  gate_inv s -> isBusy (writer s) = false ->
  flush now (writer s) = (r, w, out) ->
  gate_inv (mkSystem w (match r with
                        | Normal susp => suspended o susp (inFlight s)
                        | Throw _ => inFlight s
                        end)).
Proof.
  intros (Hfl & Hle & Hroom) Hbusy. specialize (Hroom Hbusy).
  destruct (flush_cases now (writer s))
    as [(_ & E)|[(_ & Hlt & E)|[(_ & _ & _ & E)|(_ & _ & _ & E)]]];
    rewrite E; intros H; inversion H; subst; clear H E.
  - unfold gate_inv; simpl; auto.
  - lia.
  - unfold gate_inv, busy_edge; simpl. rewrite Hbusy. simpl.
    split; [lia|split; [lia|]].
    intros Hb; apply Z.eqb_neq in Hb; lia.
  - unfold gate_inv, busy_edge; simpl. rewrite Hbusy. simpl.
    rewrite length_app; simpl. split; [lia|split; [lia|]].
    intros Hb; apply Z.eqb_neq in Hb; lia.
Qed.

Lemma flush_resume_gate now result w r w' out rest k :
  Z.of_nat (S k) <= concurrentRequests w ->
  concurrentRequests w <= maxConcurrentRequests w ->
  (isBusy w = false -> concurrentRequests w < maxConcurrentRequests w) ->
  List.length rest = k ->
  flush_resume now result w = (r, w', out) ->
  gate_inv (mkSystem w' rest).
Proof.
  intros Hfl Hle Hroom Hk.
  destruct result as [readable|cause].
  - destruct (isTicking w) eqn:Ht.
    + rewrite flush_resume_fulfilled by assumption. cbv zeta.
      destruct readable; [destruct (idle_edge w) eqn:Hi|];
        intros H; inversion H; subst; clear H;
        unfold gate_inv; simpl; (split; [lia|split; [lia|intros _; lia]]).
    + rewrite flush_resume_not_ticking by assumption.
      intros H; inversion H; subst; clear H.
      unfold gate_inv; simpl. split; [lia|split; [lia|intros _; lia]].
  - rewrite flush_resume_rejected. intros H; inversion H; subst; clear H.
    unfold gate_inv; simpl. split; [lia|split; [lia|assumption]].
Qed.

Lemma step_gate now op s :
  gate_inv s -> allowed op s = true ->
  gate_inv (fst (fst (step now op s))).
Proof.
  intros Hinv Hal. destruct op as [entity| | |n result]; simpl in *.
  - apply negb_true_iff in Hal.
    destruct entity as [|key].
    + rewrite add_falsy. destruct s; exact Hinv.
    + destruct (Z.eq_dec (Z.rem (bufferCount (writer s) + 1)
                                  (bufferSize (writer s))) 0) as [E|E].
      * rewrite add_at_threshold by assumption.
        destruct (flush now (pushed (Obj key) (writer s)))
          as [[r w] out] eqn:Ef.
        pose proof (flush_gate now (mkSystem (pushed (Obj key) (writer s))
                                      (inFlight s)) r w out Automatic) as H.
        simpl in H. specialize (H Hinv Hal Ef).
        destruct r; exact H.
      * rewrite add_below_threshold by assumption. exact Hinv.
  - apply negb_true_iff in Hal.
    destruct (flush now (writer s)) as [[r w] out] eqn:Ef.
    pose proof (flush_gate now s r w out Explicit Hinv Hal Ef) as H.
    destruct r as [[|k foo]|e]; exact H.
  - rewrite ready_eq. destruct Hinv as (H1 & H2 & H3).
    destruct (isBusy (writer s)) eqn:Hb; unfold gate_inv; simpl; rewrite ?Hb;
      auto.
  - destruct (take_request n (inFlight s)) as [[r rest]|] eqn:Et;
      [|exact Hinv].
    apply take_request_length in Et. destruct Hinv as (H1 & H2 & H3).
    rewrite Et in H1.
    destruct (origin r).
    + rewrite add_settled_eq.
      destruct (flush_resume now result (writer s)) as [[c w] out] eqn:Ef.
      pose proof (flush_resume_gate _ _ _ _ _ _ rest _ H1 H2 H3 eq_refl Ef).
      destruct c; assumption.
    + destruct (flush_resume now result (writer s)) as [[c w] out] eqn:Ef.
      pose proof (flush_resume_gate _ _ _ _ _ _ rest _ H1 H2 H3 eq_refl Ef).
      destruct c; assumption.
Qed.

Lemma final_cons now op rest s :
  final ((now, op) :: rest) s = final rest (fst (fst (step now op s))).
Proof.
  unfold final. simpl. destruct (step now op s) as [[s1 oc] out]. simpl.
  destruct (run rest s1); reflexivity.
Qed.

Lemma trace_cons now op rest s :
  trace ((now, op) :: rest) s =
    (op, snd (fst (step now op s)), snd (step now op s))
      :: trace rest (fst (fst (step now op s))).
Proof.
  unfold trace. simpl. destruct (step now op s) as [[s1 oc] out]. simpl.
  destruct (run rest s1); reflexivity.
Qed.

Lemma awaits_ready_firstn k sched s :
  awaits_ready sched s = true -> awaits_ready (firstn k sched) s = true.
Proof.
  revert sched s. induction k as [|k IH]; intros [|[now op] rest] s; simpl;
    try reflexivity.
  intros H. apply andb_true_iff in H. destruct H as [H1 H2].
  rewrite H1. simpl. now apply IH.
Qed.

Lemma run_gate sched s :
  gate_inv s -> awaits_ready sched s = true -> gate_inv (final sched s).
Proof.
  revert s. induction sched as [|[now op] rest IH]; intros s Hinv Hal.
  - exact Hinv.
  - simpl in Hal. apply andb_true_iff in Hal. destruct Hal as [H1 H2].
    rewrite final_cons. apply IH; [now apply step_gate|assumption].
Qed.

Lemma constructor_normal ds opts w :
  constructor ds opts = Normal w ->
  exists d ups,
    ds = Some d /\ w = fresh d (bufferSize w) (maxConcurrentRequests w) ups
    /\ 0 < bufferSize w /\ 0 < maxConcurrentRequests w.
Proof.
  unfold constructor. destruct ds as [d|]; [|discriminate].
  set (o := if Options.isEmpty opts then _ else _).
  set (bs := if Options.falsy (Options.buffer_size o) then _ else _).
  set (mc := if Options.falsy (Options.max_concurrent_requests o) then _ else _).
  destruct (Options.falsy bs); [discriminate|].
  destruct (Options.falsy mc); [discriminate|].
  destruct bs as [b|]; [|discriminate].
  destruct mc as [m|]; [|discriminate].
  destruct (b <=? 0) eqn:Eb; [discriminate|].
  destruct (m <=? 0) eqn:Em; [discriminate|].
  intros H. inversion H; subst; clear H. simpl.
  apply Z.leb_gt in Eb, Em.
  exists d. eexists. repeat split; assumption.
Qed.

Lemma constructor_gate ds opts w :
  constructor ds opts = Normal w -> gate_inv (boot w).
Proof.
  intros H. apply constructor_normal in H.
  destruct H as (d & ups & _ & Hw & Hb & Hm). rewrite Hw.
  unfold gate_inv; simpl. lia.
Qed.

(** C2, as amended.  In every run in which [add] and [flush] are called only
    while the writer is not busy (the caller awaits [ready] first), the
    number of concurrent requests stays between 0 and
    [maxConcurrentRequests] at every point of the run. *)
Theorem gate_within_limit ds opts w sched k :
  constructor ds opts = Normal w ->
  awaits_ready sched (boot w) = true ->
  within_limit (final (firstn k sched) (boot w)).
Proof.
  intros Hc Hal.
  pose proof (run_gate (firstn k sched) (boot w) (constructor_gate _ _ _ Hc)
                (awaits_ready_firstn k _ _ Hal)) as (H1 & H2 & _).
  unfold within_limit. lia.
Qed.

Lemma gate_within_limit_witness :
  within_limit
    (final (firstn 3
              [(0, CallAdd (Obj "a")); (1, CallReady);
               (4, Settle 1 (Fulfilled true)); (5, CallAdd (Obj "b"))])
       (boot (fresh (Client "p") 1 1 false))).
Proof.
  apply (gate_within_limit (Some (Client "p"))
           (Some (Options.mk (Some 1) (Some 1) (Some false)))).
  - reflexivity.
  - reflexivity.
Defined.

(** C2, as stated, fails: a second [add] that reaches the threshold while the
    only slot is taken leaves the count at 2 with a limit of 1. *)
Lemma gate_limit_exceeded :
  constructor (Some (Client "p"))
    (Some (Options.mk (Some 1) (Some 1) (Some false)))
  = Normal (fresh (Client "p") 1 1 false)
  /\ ~ within_limit
         (final [(0, CallAdd (Obj "a")); (1, CallAdd (Obj "b"))]
            (boot (fresh (Client "p") 1 1 false))).
Proof.
  split; [reflexivity|].
  unfold within_limit. vm_compute. intros [_ H]. apply H. reflexivity.
Qed.

(** ** Batches of the automatic flushes *)

Lemma rem_succ_zero bc bs :
  0 < bs -> 0 <= bc -> Z.rem (bc + 1) bs = 0 -> Z.rem bc bs + 1 = bs.
Proof.
  intros Hbs Hbc H.
  rewrite (Z.rem_mod_nonneg (bc + 1)) in H by lia.
  rewrite (Z.rem_mod_nonneg bc) by lia.
  pose proof (Z.mod_pos_bound bc bs Hbs) as Hr.
  rewrite <- Zplus_mod_idemp_l in H.
  destruct (Z.eq_dec (bc mod bs + 1) bs) as [E|E]; [assumption|].
  rewrite Z.mod_small in H by lia. lia.
Qed.

Lemma rem_succ_nonzero bc bs :
  0 < bs -> 0 <= bc -> Z.rem (bc + 1) bs <> 0 ->
  Z.rem bc bs + 1 = Z.rem (bc + 1) bs.
Proof.
  intros Hbs Hbc H.
  rewrite (Z.rem_mod_nonneg (bc + 1)) in H by lia.
  rewrite (Z.rem_mod_nonneg (bc + 1)), (Z.rem_mod_nonneg bc) by lia.
  pose proof (Z.mod_pos_bound bc bs Hbs) as Hr.
  rewrite <- (Zplus_mod_idemp_l bc 1 bs) in *.
  destruct (Z.eq_dec (bc mod bs + 1) bs) as [E|E].
  - rewrite E, Z.mod_same in H by lia. congruence.
  - rewrite (Z.mod_small (bc mod bs + 1)) by lia. reflexivity.
Qed.

Lemma flush_aligned_zero now w r w' out :
  0 < bufferSize w -> 0 <= bufferCount w ->
  Z.rem (bufferCount w) (bufferSize w) = 0 ->
  flush now w = (r, w', out) ->
  aligned w' /\ bufferSize w' = bufferSize w
  /\ forall b, In b (batches_of out) -> b = entities w.
Proof.
  intros Hbs Hbc Hrem.
  destruct (flush_cases now w)
    as [(He & E)|[(_ & _ & E)|[(_ & _ & _ & E)|(_ & _ & _ & E)]]];
    rewrite E; intros H; inversion H; subst; clear H E;
    unfold aligned; simpl; rewrite ?Hrem.
  - rewrite He. simpl. repeat split; auto; contradiction.
  - repeat split; auto; contradiction.
  - repeat split; auto. destruct (busy_edge w); simpl; contradiction.
  - repeat split; auto. unfold sink_call.
    destruct (busy_edge w), (upsert w); simpl; intros b [Hb|[]]; auto.
Qed.

Lemma flush_resume_buffer now result w r w' out :
  flush_resume now result w = (r, w', out) ->
  entities w' = entities w /\ bufferCount w' = bufferCount w
  /\ bufferSize w' = bufferSize w.
Proof.
  destruct result as [readable|cause].
  - destruct (isTicking w) eqn:Ht.
    + rewrite flush_resume_fulfilled by assumption. cbv zeta.
      destruct readable; [destruct (idle_edge w)|];
        intros H; inversion H; subst; auto.
    + rewrite flush_resume_not_ticking by assumption.
      intros H; inversion H; subst; auto.
  - rewrite flush_resume_rejected. intros H; inversion H; subst; auto.
Qed.

Lemma add_aligned now entity w r w' out :
  aligned w -> add now entity w = (r, w', out) ->
  aligned w' /\ bufferSize w' = bufferSize w
  /\ forall b, In b (batches_of out) ->
               Z.of_nat (List.length b) = bufferSize w.
Proof.
  intros (Hbs & Hbc & Hlen).
  destruct entity as [|key].
  - rewrite add_falsy. intros H; inversion H; subst; clear H.
    unfold aligned. simpl. repeat split; auto; contradiction.
  - destruct (Z.eq_dec (Z.rem (bufferCount w + 1) (bufferSize w)) 0) as [E|E].
    + rewrite add_at_threshold by assumption.
      destruct (flush now (pushed (Obj key) w)) as [[c w1] o1] eqn:Ef.
      apply flush_aligned_zero in Ef; simpl; [|lia..|assumption].
      destruct Ef as (Ha & Hsz & Hb). simpl in Hsz.
      assert (Hlen' : Z.of_nat (List.length (entities (pushed (Obj key) w)))
                      = bufferSize w).
      { simpl. rewrite length_app. simpl.
        rewrite <- (rem_succ_zero (bufferCount w) (bufferSize w)) by assumption.
        lia. }
      destruct c; intros H; inversion H; subst; clear H;
        (split; [assumption|split; [assumption|]]).
      * intros b Hin. rewrite (Hb b Hin). exact Hlen'.
      * intros b Hin. unfold batches_of in Hin.
        rewrite flat_map_app in Hin. simpl in Hin. rewrite app_nil_r in Hin.
        rewrite (Hb b Hin). exact Hlen'.
    + rewrite add_below_threshold by assumption.
      intros H; inversion H; subst; clear H.
      unfold aligned. simpl. rewrite length_app. simpl.
      rewrite <- rem_succ_nonzero by assumption.
      repeat split; try lia; contradiction.
Qed.

Lemma op_eq_flush (op : Op) : {op = CallFlush} + {op <> CallFlush}.
Proof. destruct op; (now left) || (right; discriminate). Qed.

Lemma no_add_automatic sched s :
  no_add sched = true -> automatic_batches (trace sched s) = [].
Proof.
  revert s. induction sched as [|[now op] rest IH]; intros s H.
  - reflexivity.
  - rewrite trace_cons. simpl.
    destruct op; simpl in *; try discriminate; now apply IH.
Qed.

Lemma step_aligned now op s :
  aligned (writer s) -> op <> CallFlush ->
  aligned (writer (fst (fst (step now op s))))
  /\ bufferSize (writer (fst (fst (step now op s)))) = bufferSize (writer s)
  /\ forall entity b,
       op = CallAdd entity -> In b (batches_of (snd (step now op s))) ->
       Z.of_nat (List.length b) = bufferSize (writer s).
Proof.
  intros Ha Hop. destruct op as [entity| | |n result]; simpl.
  - destruct (add now entity (writer s)) as [[c w] out] eqn:E.
    pose proof (add_aligned _ _ _ _ _ _ Ha E) as (H1 & H2 & H3).
    destruct c; simpl; eauto.
  - congruence.
  - rewrite ready_eq. destruct Ha as (H1 & H2 & H3). unfold aligned.
    destruct (isBusy (writer s)); simpl;
      (split; [auto|split; [reflexivity|intros; discriminate]]).
  - assert (Hkeep : forall c w out,
              flush_resume now result (writer s) = (c, w, out) ->
              aligned w /\ bufferSize w = bufferSize (writer s)).
    { intros c w out Ef. apply flush_resume_buffer in Ef.
      destruct Ef as (Hb1 & Hb2 & Hb3). unfold aligned.
      rewrite Hb1, Hb2, Hb3. split; [exact Ha|reflexivity]. }
    destruct (take_request n (inFlight s)) as [[r rest]|];
      [|simpl; split; [exact Ha|split; [reflexivity|intros; discriminate]]].
    destruct (origin r).
    + rewrite add_settled_eq.
      destruct (flush_resume now result (writer s)) as [[c w] out] eqn:Ef.
      destruct (Hkeep _ _ _ eq_refl).
      destruct c; simpl; (split; [assumption|split; [assumption|intros; discriminate]]).
    + destruct (flush_resume now result (writer s)) as [[c w] out] eqn:Ef.
      destruct (Hkeep _ _ _ eq_refl).
      destruct c; simpl; (split; [assumption|split; [assumption|intros; discriminate]]).
Qed.

Lemma run_automatic_batches sched s b :
  aligned (writer s) -> flush_only_trailing sched = true ->
  In b (automatic_batches (trace sched s)) ->
  Z.of_nat (List.length b) = bufferSize (writer s).
Proof.
  revert s. induction sched as [|[now op] rest IH]; intros s Ha Hsched Hin.
  - contradiction.
  - rewrite trace_cons in Hin.
    destruct (op_eq_flush op) as [Hop|Hop].
    + subst op. simpl in Hsched, Hin.
      rewrite no_add_automatic in Hin by assumption. contradiction.
    + destruct (step_aligned now op s Ha Hop) as (Ha' & Hsz & Hb).
      assert (Hrest : flush_only_trailing rest = true)
        by (destruct op; simpl in Hsched; congruence).
      unfold automatic_batches in Hin. simpl in Hin.
      apply in_app_or in Hin. destruct Hin as [Hin|Hin].
      * destruct op; try contradiction. eapply Hb; [reflexivity|exact Hin].
      * rewrite <- Hsz. apply IH; assumption.
Qed.

(** C3, as amended.  In every run in which no [add] follows an explicit
    [flush] (explicit flushes are trailing), every batch submitted by an
    automatic flush holds exactly [bufferSize] records. *)
Theorem automatic_batch_size ds opts w sched b :
  constructor ds opts = Normal w ->
  flush_only_trailing sched = true ->
  In b (automatic_batches (trace sched (boot w))) ->
  Z.of_nat (List.length b) = bufferSize w.
Proof.
  intros Hc Hsched Hin.
  apply (run_automatic_batches sched (boot w) b); try assumption.
  apply constructor_normal in Hc.
  destruct Hc as (d & ups & _ & Hw & Hbs & _).
  rewrite Hw. unfold aligned. simpl. rewrite Z.rem_0_l by lia. lia.
Qed.

Lemma automatic_batch_size_witness :
  Z.of_nat (List.length [Obj "a"; Obj "b"]) = 2.
Proof.
  apply (automatic_batch_size (Some (Client "p"))
           (Some (Options.mk (Some 2) (Some 10) (Some false)))
           (fresh (Client "p") 2 10 false)
           [(0, CallAdd (Obj "a")); (1, CallAdd (Obj "b"));
            (2, CallAdd (Obj "c")); (3, Settle 1 (Fulfilled true));
            (4, CallFlush)]).
  - reflexivity.
  - reflexivity.
  - vm_compute. left. reflexivity.
Defined.

(** C3, as stated, fails: after an explicit flush in the middle of the
    stream the next automatic flush submits a batch smaller than
    [bufferSize]. *)
Lemma automatic_batch_short :
  constructor (Some (Client "p"))
    (Some (Options.mk (Some 2) (Some 10) (Some false)))
  = Normal (fresh (Client "p") 2 10 false)
  /\ automatic_batches
       (trace [(0, CallAdd (Obj "a")); (1, CallFlush);
               (2, Settle 1 (Fulfilled true)); (3, CallAdd (Obj "b"))]
          (boot (fresh (Client "p") 2 10 false)))
     = [[Obj "b"]]
  /\ bufferSize (fresh (Client "p") 2 10 false) = 2.
Proof. repeat split. Qed.

(** ** Failure of the Datastore call *)

(** C1: the code at a failing input.  A writer with one slot flushes one
    record and the Datastore call is rejected.  The promise of [flush] is
    rejected with the cause, but the turn emits nothing (no 'stats') and the
    slot is not released: the count stays at 1 and the writer stays busy with
    no request in flight. *)
Theorem sink_failure_keeps_slot :
  let sched := [(0, CallAdd (Obj "a")); (1, CallFlush);
                (9, Settle 1 (Rejected (SinkFailure "ALREADY_EXISTS")))] in
  let s0 := boot (fresh (Client "p") 2 1 false) in
  trace sched s0 =
    [(CallAdd (Obj "a"), AddReturned, []);
     (CallFlush, FlushPending 1, [Emit Busy; Insert [Obj "a"]]);
     (Settle 1 (Rejected (SinkFailure "ALREADY_EXISTS")),
      FlushRejected (SinkFailure "ALREADY_EXISTS"), [])]
  /\ inFlight (final sched s0) = []
  /\ concurrentRequests (writer (final sched s0)) = 1
  /\ isBusy (writer (final sched s0)) = true
  /\ isTicking (writer (final sched s0)) = true.
Proof. repeat split. Qed.

(** ** The 'stats' notification *)

Lemma completed_flush_stats now readable w r w' out :
  isTicking w = true ->
  flush_resume now (Fulfilled readable) w = (r, w', out) ->
  stats_of out = [Stats.mk (t0 w) now (requestCount w) (now - t0 w)]
  /\ elapsed w' = elapsed w + (now - t0 w).
Proof.
  intros Ht. rewrite flush_resume_fulfilled by assumption. cbv zeta.
  destruct readable; [destruct (idle_edge w)|];
    intros H; inversion H; subst; clear H; simpl; split; try reflexivity.
  induction (idleOnce w); simpl; auto.
Qed.

(** C4: the code at a failing input.  Two flushes complete, taking 5 and 7
    nanoseconds.  Each emits one 'stats' event with [start], [end],
    [request_count] and [elapsed = end - start]; the payload has no field for
    the running sum, which after the second flush is 12 and is kept only in
    the writer's [elapsed]. *)
Theorem stats_payload_without_sum :
  let sched := [(10, CallAdd (Obj "a")); (15, Settle 1 (Fulfilled true));
                (20, CallAdd (Obj "b")); (27, Settle 2 (Fulfilled true))] in
  let s0 := boot (fresh (Client "p") 1 10 false) in
  map (fun t : Turn => stats_of (snd t)) (trace sched s0) =
    [[]; [Stats.mk 10 15 1 5]; []; [Stats.mk 20 27 2 7]]
  /\ elapsed (writer (final sched s0)) = 12.
Proof. repeat split. Qed.

(** ** Construction *)

(** C5, as amended.  A configuration with a missing Datastore client, a
    negative [buffer_size] or a negative [max_concurrent_requests] is
    rejected by the constructor. *)
Theorem constructor_rejects ds opts :
  ds = None
  \/ (exists o, opts = Some o
                /\ (negative (Options.buffer_size o) = true
                    \/ negative (Options.max_concurrent_requests o) = true)) ->
  rejects ds opts.
Proof.
  unfold rejects, constructor.
  intros [Hds|(o & Ho & Hneg)].
  - subst ds. eauto.
  - subst opts. destruct ds as [d|]; [|eauto].
    destruct o as [bs mc ups].
    unfold negative in Hneg. simpl in Hneg.
    destruct bs as [b|], mc as [m|]; simpl;
      destruct Hneg as [Hn|Hn]; try discriminate; apply Z.ltb_lt in Hn.
    + destruct (b =? 0) eqn:E0; [apply Z.eqb_eq in E0; lia|]. simpl.
      rewrite E0.
      destruct (m =? 0) eqn:M0; simpl.
      * destruct (b <=? 0) eqn:E1; [eauto|apply Z.leb_gt in E1; lia].
      * rewrite M0.
        destruct (b <=? 0) eqn:E1; [eauto|apply Z.leb_gt in E1; lia].
    + destruct (m =? 0) eqn:M0; [apply Z.eqb_eq in M0; lia|]. simpl.
      destruct (b =? 0) eqn:E0; simpl; rewrite M0;
        destruct (m <=? 0) eqn:M1; try (apply Z.leb_gt in M1; lia).
      * eauto.
      * rewrite E0. destruct (b <=? 0); eauto.
    + destruct (b =? 0) eqn:E0; [apply Z.eqb_eq in E0; lia|]. simpl.
      rewrite E0.
      destruct (b <=? 0) eqn:E1; [eauto|apply Z.leb_gt in E1; lia].
    + destruct (m =? 0) eqn:M0; [apply Z.eqb_eq in M0; lia|]. simpl.
      rewrite M0.
      destruct (m <=? 0) eqn:M1; [eauto|apply Z.leb_gt in M1; lia].
Qed.

Lemma constructor_rejects_witness :
  rejects (Some (Client "p"))
    (Some (Options.mk (Some (-5)) (Some 10) (Some true))).
Proof.
  apply constructor_rejects. right. eexists. split; [reflexivity|].
  left. reflexivity.
Defined.

(** C5, as stated, fails: a [buffer_size] of 0 is not rejected; the
    constructor takes it for a missing value and uses the default 500. *)
Lemma constructor_accepts_zero :
  ~ rejects (Some (Client "p"))
      (Some (Options.mk (Some 0) (Some 10) (Some false)))
  /\ constructor (Some (Client "p"))
       (Some (Options.mk (Some 0) (Some 10) (Some false)))
     = Normal (fresh (Client "p") 500 10 false).
Proof.
  split; [|reflexivity]. intros [e H]. discriminate H.
Qed.

(** ** Flushing an empty buffer *)

(** C6.  A call of [flush] on an empty buffer leaves the writer and the
    requests in flight as they were and has no effect: no call to the
    Datastore client, no event, no counter changed, no change of [isBusy];
    the returned promise is fulfilled. *)
Theorem flush_empty_noop now s :
  entities (writer s) = [] ->
  step now CallFlush s = (s, FlushFulfilled, []).
Proof.
  intros H. simpl. rewrite flush_empty by assumption.
  destruct s; reflexivity.
Qed.

Lemma flush_empty_noop_witness :
  step 7 CallFlush
    (final [(0, CallAdd (Obj "a")); (3, Settle 1 (Fulfilled true))]
       (boot (fresh (Client "p") 1 1 false)))
  = (final [(0, CallAdd (Obj "a")); (3, Settle 1 (Fulfilled true))]
       (boot (fresh (Client "p") 1 1 false)),
     FlushFulfilled, []).
Proof. apply flush_empty_noop. reflexivity. Defined.

(** ** ready *)

Lemma quiet_spec out :
  quiet out = true ->
  ~ In (Emit Idle) out /\ forall p, ~ In (Resolve p) out.
Proof.
  unfold quiet. rewrite forallb_forall. intros H.
  split; [|intros p]; intros Hin; apply H in Hin; discriminate.
Qed.

Lemma flush_quiet now w r w' out :
  flush now w = (r, w', out) ->
  quiet out = true /\ idleOnce w' = idleOnce w /\ promises w' = promises w.
Proof.
  destruct (flush_cases now w)
    as [(_ & E)|[(_ & _ & E)|[(_ & _ & _ & E)|(_ & _ & _ & E)]]];
    rewrite E; intros H; injection H as _ Hw Ho; rewrite <- Hw, <- Ho;
    clear E Hw Ho;
    (split; [|split; reflexivity]);
    unfold sink_call; destruct (busy_edge w); try destruct (upsert w);
    reflexivity.
Qed.

Lemma add_quiet now entity w r w' out :
  add now entity w = (r, w', out) ->
  quiet out = true /\ idleOnce w' = idleOnce w /\ promises w' = promises w.
Proof.
  destruct entity as [|key].
  - rewrite add_falsy. intros H; inversion H; subst. auto.
  - destruct (Z.eq_dec (Z.rem (bufferCount w + 1) (bufferSize w)) 0) as [E|E].
    + rewrite add_at_threshold by assumption.
      destruct (flush now (pushed (Obj key) w)) as [[c w1] o1] eqn:Ef.
      apply flush_quiet in Ef. destruct Ef as (Hq & Hi & Hp).
      simpl in Hi, Hp.
      destruct c; intros H; inversion H; subst; clear H; auto.
      split; [|auto]. unfold quiet in *. rewrite forallb_app, Hq. reflexivity.
    + rewrite add_below_threshold by assumption.
      intros H; inversion H; subst. auto.
Qed.

Lemma flush_resume_waiters now result w r w' out :
  flush_resume now result w = (r, w', out) ->
  promises w' = promises w
  /\ ((quiet out = true /\ idleOnce w' = idleOnce w)
      \/ (r = Normal tt /\ idleOnce w' = []
          /\ exists pre, quiet pre = true
                /\ out = pre ++ Emit Idle :: map Resolve (idleOnce w))).
Proof.
  destruct result as [readable|cause].
  - destruct (isTicking w) eqn:Ht.
    + rewrite flush_resume_fulfilled by assumption. cbv zeta.
      destruct readable; [destruct (idle_edge w)|];
        intros H; injection H as Hr Hw Ho; rewrite <- Hw, <- Ho;
        (split; [reflexivity|]); auto.
      right. split; [now rewrite Hr|]. split; [reflexivity|].
      exists [Emit (StatsEvent (Stats.mk (t0 w) now (requestCount w)
                                  (now - t0 w)))].
      split; reflexivity.
    + rewrite flush_resume_not_ticking by assumption.
      intros H; injection H as Hr Hw Ho; rewrite <- Hw, <- Ho. auto.
  - rewrite flush_resume_rejected.
    intros H; injection H as Hr Hw Ho; rewrite <- Hw, <- Ho. auto.
Qed.

Lemma step_touches now op s :
  touches (writer s) (writer (fst (fst (step now op s)))) (snd (step now op s)).
Proof.
  destruct op as [entity| | |n result]; simpl.
  - destruct (add now entity (writer s)) as [[c w] out] eqn:E.
    apply add_quiet in E. destruct E as (Hq & Hi & Hp).
    destruct c; simpl; now apply touches_nothing.
  - destruct (flush now (writer s)) as [[c w] out] eqn:E.
    apply flush_quiet in E. destruct E as (Hq & Hi & Hp).
    destruct c as [[|k foo]|e]; simpl; now apply touches_nothing.
  - rewrite ready_eq. destruct (isBusy (writer s)) eqn:Hb; simpl.
    + now apply touches_register.
    + now apply touches_immediate.
  - destruct (take_request n (inFlight s)) as [[r rest]|];
      [|now apply touches_nothing].
    destruct (origin r).
    + rewrite add_settled_eq.
      destruct (flush_resume now result (writer s)) as [[c w] out] eqn:E.
      apply flush_resume_waiters in E.
      destruct E as (Hp & [(Hq & Hi)|(Hc & Hi & pre & Hq & Ho)]).
      * destruct c; simpl; apply touches_nothing; auto.
        unfold quiet in *. rewrite forallb_app, Hq. reflexivity.
      * subst c. simpl.
        apply (touches_idle _ _ _ pre []); auto.
        now rewrite app_nil_r.
    + destruct (flush_resume now result (writer s)) as [[c w] out] eqn:E.
      apply flush_resume_waiters in E.
      destruct E as (Hp & [(Hq & Hi)|(Hc & Hi & pre & Hq & Ho)]).
      * destruct c; simpl; now apply touches_nothing.
      * subst c. simpl.
        apply (touches_idle _ _ _ pre []); auto.
        now rewrite app_nil_r.
Qed.

Lemma touches_waiting w w' out :
  touches w w' out -> waiting_inv w -> waiting_inv w'.
Proof.
  unfold waiting_inv.
  intros [Hq Hi Hp|Hb Ho Hi Hp|Hb Ho Hi Hp|pre post Hq1 Hq2 Ho Hi Hp]
    (Hnd & Hlt); rewrite Hi, Hp.
  - auto.
  - split.
    + apply NoDup_app; [assumption|repeat constructor; intros []|].
      intros q Hq [Hin|[]]. subst q.
      rewrite Forall_forall in Hlt. apply Hlt in Hq. lia.
    + apply Forall_app. split.
      * eapply Forall_impl; [|exact Hlt]. simpl. intros; lia.
      * repeat constructor.
  - split; [assumption|].
    eapply Forall_impl; [|exact Hlt]. simpl. intros; lia.
  - split; constructor.
Qed.

Lemma run_waiting sched s :
  waiting_inv (writer s) -> waiting_inv (writer (final sched s)).
Proof.
  revert s. induction sched as [|[now op] rest IH]; intros s H.
  - exact H.
  - rewrite final_cons. apply IH.
    eapply touches_waiting; [apply step_touches|exact H].
Qed.

Lemma in_resolve_map p l : In (Resolve p) (map Resolve l) <-> In p l.
Proof.
  rewrite in_map_iff. split.
  - intros (q & E & H). inversion E; subst. exact H.
  - intros H. eauto.
Qed.

(** What a turn does to the promises that wait for 'idle'. *)
Lemma touches_resolution w w' out :
  touches w w' out -> waiting_inv w ->
  (In (Emit Idle) out ->
   forall p, In p (idleOnce w) -> In (Resolve p) out)
  /\ (~ In (Emit Idle) out ->
      forall p, In p (idleOnce w) ->
                ~ In (Resolve p) out /\ In p (idleOnce w')).
Proof.
  intros [Hq Hi Hp|Hb Ho Hi Hp|Hb Ho Hi Hp|pre post Hq1 Hq2 Ho Hi Hp]
    (Hnd & Hlt).
  - apply quiet_spec in Hq. destruct Hq as (Hq1 & Hq2).
    split; [contradiction|]. intros _ p Hin. rewrite Hi. auto.
  - subst out. split; [intros []|]. intros _ p Hin. rewrite Hi.
    split; [intros []|]. apply in_or_app. now left.
  - subst out. split; [intros [H|[]]; discriminate|].
    intros _ p Hin. rewrite Hi. split; [|assumption].
    intros [E|[]]. inversion E; subst.
    rewrite Forall_forall in Hlt. apply Hlt in Hin. lia.
  - subst out. split.
    + intros _ p Hin. apply in_or_app. right. right.
      apply in_or_app. left. now apply in_resolve_map.
    + intros H. exfalso. apply H. apply in_or_app. right. now left.
Qed.

Lemma ready_burst clock s :
  isBusy (writer s) = true ->
  idleOnce (writer (final (map (fun t => (t, CallReady)) clock) s))
  = idleOnce (writer s) ++ seq (promises (writer s)) (List.length clock)
  /\ promises (writer (final (map (fun t => (t, CallReady)) clock) s))
     = (promises (writer s) + List.length clock)%nat
  /\ isBusy (writer (final (map (fun t => (t, CallReady)) clock) s)) = true.
Proof.
  revert s. induction clock as [|t clock IH]; intros s Hb.
  - simpl. rewrite app_nil_r, Nat.add_0_r. auto.
  - cbn [map]. rewrite final_cons. simpl step. rewrite ready_eq, Hb. simpl fst.
    destruct (IH (mkSystem
                    (set_idleOnce (idleOnce (writer s) ++ [promises (writer s)])
                       (set_promises (S (promises (writer s))) (writer s)))
                    (inFlight s)) Hb) as (H1 & H2 & H3).
    rewrite H1, H2, H3. simpl. rewrite <- app_assoc. simpl.
    repeat split. lia.
Qed.

(** ** Failed flushes *)

Lemma batches_of_app o1 o2 :
  batches_of (o1 ++ o2) = batches_of o1 ++ batches_of o2.
Proof. unfold batches_of. apply flat_map_app. Qed.

Lemma batches_of_resolve l : batches_of (map Resolve l) = [].
Proof. induction l; simpl; auto. Qed.

Lemma flush_batches now w r w' out :
  flush now w = (r, w', out) ->
  entities w' = []
  /\ batches_of out = match r with
                      | Normal (Await _ _) => [entities w]
                      | _ => []
                      end.
Proof.
  destruct (flush_cases now w)
    as [(He & E)|[(_ & _ & E)|[(_ & _ & _ & E)|(_ & _ & _ & E)]]];
    rewrite E; intros H; injection H as Hr Hw Ho;
    rewrite <- Hr, <- Hw, <- Ho; clear E Hr Hw Ho.
  - auto.
  - auto.
  - split; [reflexivity|]. destruct (busy_edge w); reflexivity.
  - split; [reflexivity|]. unfold sink_call.
    destruct (busy_edge w), (upsert w); reflexivity.
Qed.

Lemma flush_resume_batches now result w r w' out :
  flush_resume now result w = (r, w', out) -> batches_of out = [].
Proof.
  destruct result as [readable|cause].
  - destruct (isTicking w) eqn:Ht.
    + rewrite flush_resume_fulfilled by assumption. cbv zeta.
      destruct readable; [destruct (idle_edge w)|];
        intros H; injection H as _ _ Ho; rewrite <- Ho; try reflexivity.
      simpl. apply batches_of_resolve.
    + rewrite flush_resume_not_ticking by assumption.
      intros H; injection H as _ _ Ho; now rewrite <- Ho.
  - rewrite flush_resume_rejected.
    intros H; injection H as _ _ Ho; now rewrite <- Ho.
Qed.

(** Where the records of a turn come from: a record submitted during the
    turn, or left in the buffer after it, was in the buffer before the turn
    or is the record added by the turn. *)
Lemma step_sources now op s x :
  (forall b, In b (batches_of (snd (step now op s))) -> In x b ->
             In x (entities (writer s)) \/ op = CallAdd x)
  /\ (In x (entities (writer (fst (fst (step now op s))))) ->
      In x (entities (writer s)) \/ op = CallAdd x).
Proof.
  destruct op as [entity| | |n result]; simpl.
  - destruct entity as [|key].
    + rewrite add_falsy. simpl. split; [contradiction|auto].
    + destruct (Z.eq_dec (Z.rem (bufferCount (writer s) + 1)
                                  (bufferSize (writer s))) 0) as [E|E].
      * rewrite add_at_threshold by assumption.
        destruct (flush now (pushed (Obj key) (writer s)))
          as [[c w] out] eqn:Ef.
        apply flush_batches in Ef. destruct Ef as (He & Hb).
        assert (Hsrc : forall b, In b (batches_of out) -> In x b ->
                       In x (entities (writer s)) \/ CallAdd (Obj key) = CallAdd x).
        { rewrite Hb. destruct c as [[|k foo]|e]; try contradiction.
          intros b [<-|[]] Hin. simpl in Hin.
          apply in_app_or in Hin. destruct Hin as [Hin|[<-|[]]]; auto. }
        destruct c; simpl; rewrite ?batches_of_app, ?app_nil_r, He;
          (split; [exact Hsrc|contradiction]).
      * rewrite add_below_threshold by assumption. simpl.
        split; [contradiction|]. intros Hin.
        apply in_app_or in Hin. destruct Hin as [Hin|[<-|[]]]; auto.
  - destruct (flush now (writer s)) as [[c w] out] eqn:Ef.
    apply flush_batches in Ef. destruct Ef as (He & Hb).
    destruct c as [[|k foo]|e]; simpl; rewrite He, Hb;
      (split; [|contradiction]); try contradiction.
    intros b [<-|[]] Hin. auto.
  - rewrite ready_eq. destruct (isBusy (writer s)); simpl;
      (split; [contradiction|auto]).
  - destruct (take_request n (inFlight s)) as [[r rest]|];
      [|simpl; split; [contradiction|auto]].
    destruct (origin r).
    + rewrite add_settled_eq.
      destruct (flush_resume now result (writer s)) as [[c w] out] eqn:Ef.
      pose proof (flush_resume_batches _ _ _ _ _ _ Ef) as Hb.
      apply flush_resume_buffer in Ef. destruct Ef as (He & _).
      destruct c; simpl; rewrite ?batches_of_app, Hb, He;
        (split; [contradiction|auto]).
    + destruct (flush_resume now result (writer s)) as [[c w] out] eqn:Ef.
      pose proof (flush_resume_batches _ _ _ _ _ _ Ef) as Hb.
      apply flush_resume_buffer in Ef. destruct Ef as (He & _).
      destruct c; simpl; rewrite Hb, He; (split; [contradiction|auto]).
Qed.

Lemma run_sources sched s b x :
  In b (all_batches (trace sched s)) -> In x b ->
  In x (entities (writer s)) \/ exists t, In (t, CallAdd x) sched.
Proof.
  revert s. induction sched as [|[now op] rest IH]; intros s Hb Hx.
  - contradiction.
  - rewrite trace_cons in Hb. unfold all_batches in Hb. simpl in Hb.
    destruct (step_sources now op s x) as (Hout & Hbuf).
    apply in_app_or in Hb. destruct Hb as [Hb|Hb].
    + destruct (Hout b Hb Hx) as [H|H]; [now left|].
      right. exists now. left. now rewrite H.
    + destruct (IH _ Hb Hx) as [H|(t & H)].
      * destruct (Hbuf H) as [H'|H']; [now left|].
        right. exists now. left. now rewrite H'.
      * right. exists t. now right.
Qed.

(** C9.  [flush] empties the buffer before anything else.  When the call is
    rejected before the Datastore request is made (limit exceeded), nothing
    is submitted by it.  When the Datastore request is rejected, the writer
    is left as it is: nothing is put back and nothing is submitted.  In both
    cases every batch submitted after the call of [flush] holds only records
    that were added after it: the records taken by the failed flush are
    gone. *)
Theorem failed_flush_discards now s :
  (forall t w r w' out,
     flush t w = (r, w', out) ->
     entities w' = [] /\ forall e, r = Throw e -> batches_of out = [])
  /\ entities (writer (fst (fst (step now CallFlush s)))) = []
  /\ (forall e, snd (fst (step now CallFlush s)) = FlushRejected e ->
                batches_of (snd (step now CallFlush s)) = [])
  /\ (entities (writer s) <> [] ->
      maxConcurrentRequests (writer s) < concurrentRequests (writer s) + 1 ->
      snd (fst (step now CallFlush s)) = FlushRejected ExceededMaxConcurrent)
  /\ (forall t n cause s1,
        writer (fst (fst (step t (Settle n (Rejected cause)) s1))) = writer s1
        /\ batches_of (snd (step t (Settle n (Rejected cause)) s1)) = [])
  /\ (forall sched b x,
        In b (all_batches (trace sched (fst (fst (step now CallFlush s))))) ->
        In x b -> exists t, In (t, CallAdd x) sched).
Proof.
  assert (Hclear : entities (writer (fst (fst (step now CallFlush s)))) = []).
  { simpl. destruct (flush now (writer s)) as [[c w] out] eqn:Ef.
    apply flush_clears_buffer in Ef. destruct c as [[|k foo]|e]; exact Ef. }
  split; [|split; [exact Hclear|split; [|split; [|split]]]].
  - intros t w r w' out Ef. apply flush_batches in Ef.
    destruct Ef as (He & Hb). split; [exact He|].
    intros e Hr. subst r. exact Hb.
  - simpl. destruct (flush now (writer s)) as [[c w] out] eqn:Ef.
    apply flush_batches in Ef. destruct Ef as (_ & Hb).
    destruct c as [[|k foo]|e]; simpl; intros e' He; try discriminate.
    exact Hb.
  - intros Hne Hlt. simpl. rewrite flush_exceeded by assumption. reflexivity.
  - intros t n cause s1. simpl.
    destruct (take_request n (inFlight s1)) as [[r rest]|]; [|auto].
    destruct (origin r); auto.
  - intros sched b x Hb Hx.
    destruct (run_sources _ _ _ _ Hb Hx) as [H|H]; [|exact H].
    rewrite Hclear in H. contradiction.
Qed.

Lemma failed_flush_discards_witness :
  let s := final [(0, CallAdd (Obj "a")); (1, CallFlush); (2, CallAdd (Obj "b"))]
             (boot (fresh (Client "p") 5 1 false)) in
  entities (writer s) = [Obj "b"]
  /\ snd (fst (step 3 CallFlush s)) = FlushRejected ExceededMaxConcurrent
  /\ batches_of (snd (step 3 CallFlush s)) = []
  /\ entities (writer (fst (fst (step 3 CallFlush s)))) = [].
Proof.
  intros s.
  destruct (failed_flush_discards 3 s) as (_ & H1 & H2 & H3 & _).
  assert (H : snd (fst (step 3 CallFlush s))
              = FlushRejected ExceededMaxConcurrent).
  { apply H3; [discriminate|]. vm_compute. reflexivity. }
  split; [reflexivity|]. split; [exact H|]. split; [exact (H2 _ H)|exact H1].
Defined.

(** ** The loader *)

Lemma loader_constructor_normal filePath ds conv opts l :
  BulkLoader.constructor filePath ds conv opts = Normal l ->
  exists d cv bs mc limit ups,
    ds = Some d /\ conv = Some cv /\ 0 < bs /\ 0 < mc
    /\ limit = BulkLoader.Options.num_lines
                 (if BulkLoader.Options.isEmpty opts
                  then BulkLoader.Options.default_options
                  else match opts with
                       | Some o => o
                       | None => BulkLoader.Options.default_options
                       end)
    /\ l = loader filePath d cv bs mc limit ups.
Proof.
  unfold BulkLoader.constructor.
  destruct (String.eqb filePath EmptyString); [discriminate|].
  destruct conv as [cv|]; [|discriminate].
  destruct ds as [d|]; [|discriminate].
  set (o := if BulkLoader.Options.isEmpty opts then _ else _).
  set (bs := if Options.falsy (BulkLoader.Options.batch_size o) then _ else _).
  set (mc := if Options.falsy (BulkLoader.Options.num_concurrent o) then _ else _).
  destruct (0 <? bs) eqn:Eb; [|discriminate].
  destruct (0 <? mc) eqn:Em; [|discriminate].
  apply Z.ltb_lt in Eb, Em. cbn [negb].
  rewrite constructor_fresh by assumption.
  intros H. inversion H; subst; clear H.
  exists d, cv, bs, mc. do 2 eexists. repeat split; assumption.
Qed.

(** Five lines through a loader with a batch of two and one slot: the
    reader is paused while the writer is busy, the waiting record is added
    when the request completes, and the batches are 2, 2 and 1. *)
Example loader_batches_2_2_1 :
  let l := BulkLoader.load ["a"; "b"; "c"; "d"; "e"]%string
             (loader "rows.csv" (Client "p") (fun line => Normal (Obj line))
                2 1 None false) in
  let sched :=
    [(0, BulkLoader.LineEvent); (1, BulkLoader.LineEvent);
     (2, BulkLoader.LineEvent); (3, BulkLoader.LineEvent);
     (4, BulkLoader.Settled 1 (Fulfilled true));
     (5, BulkLoader.LineEvent); (6, BulkLoader.LineEvent);
     (7, BulkLoader.Settled 2 (Fulfilled true));
     (8, BulkLoader.LineEvent); (9, BulkLoader.EndEvent);
     (10, BulkLoader.Settled 3 (Fulfilled true))] in
  run_batches (snd (BulkLoader.play sched l))
  = [[Obj "a"; Obj "b"]; [Obj "c"; Obj "d"]; [Obj "e"]]
  /\ last (snd (BulkLoader.play sched l)) []
     = [BulkLoader.OfWriter (Emit (StatsEvent (Stats.mk 9 10 3 1)));
        BulkLoader.OfWriter (Emit Idle);
        BulkLoader.LogAverage (Quotient 6 3); BulkLoader.ResolveLoad]
  /\ BulkLoader.lr (fst (BulkLoader.play (firstn 4 sched) l))
     = LineByLineReader.mk ["d"; "e"]%string true false false.
Proof. repeat split. Qed.

(** C10.  Loading a source without records: no 'line' event is due; the
    'end' event runs a flush that does nothing, then computes the mean
    latency from [requestCount = 0], which gives [NaN] and does not throw,
    and resolves the promise of [load].  Nothing is submitted and the
    promise is not rejected. *)
Theorem empty_source_resolves filePath ds conv opts l now :
  BulkLoader.constructor filePath ds conv opts = Normal l ->
  let l0 := BulkLoader.load [] l in
  BulkLoader.deliver now BulkLoader.LineEvent l0 = (l0, [])
  /\ flush now (BulkLoader.writer l0) = (Normal Done, BulkLoader.writer l0, [])
  /\ requestCount (BulkLoader.writer l0) = 0
  /\ mean_latency (elapsed (BulkLoader.writer l0))
       (requestCount (BulkLoader.writer l0)) = NaN
  /\ snd (BulkLoader.deliver now BulkLoader.EndEvent l0)
     = [BulkLoader.LogAverage NaN; BulkLoader.ResolveLoad]
  /\ BulkLoader.writer (fst (BulkLoader.deliver now BulkLoader.EndEvent l0))
     = BulkLoader.writer l0.
Proof.
  intros Hc. apply loader_constructor_normal in Hc.
  destruct Hc as (d & cv & bs & mc & limit & ups & _ & _ & _ & _ & _ & Hl).
  subst l. repeat split.
Qed.

Lemma empty_source_resolves_witness :
  snd (BulkLoader.deliver 0 BulkLoader.EndEvent
         (BulkLoader.load []
            (loader "data.csv" (Client "p") (fun line => Normal (Obj line))
               500 10 None false)))
  = [BulkLoader.LogAverage NaN; BulkLoader.ResolveLoad].
Proof.
  apply (empty_source_resolves "data.csv" (Some (Client "p"))
           (Some (fun line => Normal (Obj line))) None).
  reflexivity.
Defined.

(** *** The cursor *)

Lemma keeps_ret {A} (a : A) : keeps (ret a).
Proof. intros l r l' sig H. inversion H; subst. auto. Qed.

Lemma keeps_throw {A} e : keeps (@throw _ _ A e).
Proof. intros l r l' sig H. inversion H; subst. auto. Qed.

Lemma keeps_get {A} (f : BulkLoader.Loader -> A) : keeps (get f).
Proof. intros l r l' sig H. inversion H; subst. auto. Qed.

Lemma keeps_perform o : keeps (perform o).
Proof. intros l r l' sig H. inversion H; subst. auto. Qed.

Lemma keeps_modify f :
  (forall l, BulkLoader.count (f l) = BulkLoader.count l
             /\ BulkLoader.nLines (f l) = BulkLoader.nLines l) ->
  keeps (modify f).
Proof. intros Hf l r l' sig H. inversion H; subst. apply Hf. Qed.

Lemma keeps_bind {A B} (m : BulkLoader.L A) (k : A -> BulkLoader.L B) :
  keeps m -> (forall a, keeps (k a)) -> keeps (bind m k).
Proof.
  intros Hm Hk l r l' sig. unfold bind.
  destruct (m l) as [[c l1] o1] eqn:Em. apply Hm in Em.
  destruct c as [a|e].
  - destruct (k a l1) as [[c2 l2] o2] eqn:Ek. apply Hk in Ek.
    intros H; inversion H; subst. destruct Em, Ek. split; congruence.
  - intros H; inversion H; subst. exact Em.
Qed.

Lemma keeps_attempt {A} (m : BulkLoader.L A) : keeps m -> keeps (attempt m).
Proof.
  intros Hm l r l' sig. unfold attempt.
  destruct (m l) as [[c l1] o1] eqn:Em. apply Hm in Em.
  intros H; inversion H; subst. exact Em.
Qed.

Lemma keeps_assert b : keeps (assert_ok b).
Proof. destruct b; [apply keeps_ret|apply keeps_throw]. Qed.

Lemma keeps_handleErrorEvent err : keeps (BulkLoader.handleErrorEvent err).
Proof. apply keeps_perform. Qed.

Lemma keeps_listeners out : keeps (BulkLoader.listeners out).
Proof.
  induction out as [|e out IH]; simpl.
  - apply keeps_ret.
  - apply keeps_bind; [|intros; exact IH].
    unfold BulkLoader.listener. apply keeps_bind; [apply keeps_perform|intros].
    destruct e as [[| |p|err]|b|b|p]; try apply keeps_ret.
    + apply keeps_modify. intros; split; reflexivity.
    + apply keeps_handleErrorEvent.
Qed.

Lemma keeps_call_writer {A} (m : M A) : keeps (BulkLoader.call_writer m).
Proof.
  intros l r l' sig. unfold BulkLoader.call_writer.
  destruct (m (BulkLoader.writer l)) as [[c w] out].
  destruct (BulkLoader.listeners out (BulkLoader.set_writer w l))
    as [[c' l1] sig1] eqn:E.
  apply keeps_listeners in E. intros H; inversion H; subst. exact E.
Qed.

Ltac keeps_auto :=
  repeat first
    [ apply keeps_ret | apply keeps_throw | apply keeps_get
    | apply keeps_perform | apply keeps_assert
    | apply keeps_handleErrorEvent | apply keeps_call_writer
    | apply keeps_modify; intros; split; reflexivity
    | apply keeps_attempt
    | apply keeps_bind; [|intros] ].

Lemma keeps_suspend o s : keeps (BulkLoader.suspend o s).
Proof. unfold BulkLoader.suspend. keeps_auto. Qed.

Lemma keeps_complete : keeps BulkLoader.complete.
Proof. unfold BulkLoader.complete. keeps_auto. Qed.

Lemma keeps_waitForWriter entity : keeps (BulkLoader.waitForWriter entity).
Proof. unfold BulkLoader.waitForWriter. keeps_auto. Qed.

Lemma keeps_resumed now entity : keeps (BulkLoader.resumed now entity).
Proof.
  unfold BulkLoader.resumed, BulkLoader.suspend. keeps_auto.
  match goal with a : Completion _ |- _ => destruct a end; keeps_auto.
Qed.

Lemma keeps_continue now ps : keeps (BulkLoader.continue now ps).
Proof.
  induction ps as [|p ps IH]; simpl.
  - apply keeps_ret.
  - apply keeps_bind; [apply keeps_get|intros ws].
    apply keeps_bind; [|intros; exact IH].
    destruct (BulkLoader.take_waiter p ws) as [[entity ws']|].
    + apply keeps_bind; [keeps_auto|intros; apply keeps_resumed].
    + apply keeps_ret.
Qed.

Lemma keeps_settle now n result : keeps (BulkLoader.settle now n result).
Proof.
  unfold BulkLoader.settle.
  apply keeps_bind; [apply keeps_get|intros reqs].
  destruct (take_request n reqs) as [[r rest]|]; [|apply keeps_ret].
  destruct (origin r); keeps_auto.
Qed.

Lemma keeps_handleEndEvent now : keeps (BulkLoader.handleEndEvent now).
Proof.
  unfold BulkLoader.handleEndEvent.
  apply keeps_bind; [keeps_auto|].
  intros [[|n foo]|err].
  - apply keeps_complete.
  - apply keeps_suspend.
  - apply keeps_handleErrorEvent.
Qed.

Lemma bind_get {S O A B} (f : S -> A) (k : A -> @Method S O B) s :
  bind (get f) k s = k (f s) s.
Proof. unfold bind, get. destruct (k (f s) s) as [[r s'] o]. reflexivity. Qed.

Lemma bind_modify {S O B} (f : S -> S) (k : unit -> @Method S O B) s :
  bind (modify f) k s = k tt (f s).
Proof. unfold bind, modify. destruct (k tt (f s)) as [[r s'] o]. reflexivity. Qed.

Lemma bind_ret {S O A B} (a : A) (k : A -> @Method S O B) s :
  bind (ret a) k s = k a s.
Proof. unfold bind, ret. destruct (k a s) as [[r s'] o]. reflexivity. Qed.

Lemma handleLineEvent_cursor now line l r l' sig :
  BulkLoader.handleLineEvent now line l = (r, l', sig) ->
  BulkLoader.nLines l' = BulkLoader.nLines l
  /\ BulkLoader.count l' =
       if BulkLoader.limit_reached (BulkLoader.nLines l) (BulkLoader.count l)
       then BulkLoader.count l
       else BulkLoader.count l + 1.
Proof.
  unfold BulkLoader.handleLineEvent.
  match goal with
  | |- bind (attempt ?body) ?h l = _ -> _ =>
      set (b := body); set (hd := h);
      assert (Hh : forall c, keeps (hd c))
        by (intros [u|err]; subst hd; keeps_auto);
      assert (Hb : forall c l1 o1, b l = (c, l1, o1) ->
                BulkLoader.nLines l1 = BulkLoader.nLines l
                /\ BulkLoader.count l1 =
                     if BulkLoader.limit_reached (BulkLoader.nLines l)
                          (BulkLoader.count l)
                     then BulkLoader.count l
                     else BulkLoader.count l + 1)
  end.
  { subst b. intros c l1 o1. rewrite !bind_get.
    destruct (BulkLoader.limit_reached (BulkLoader.nLines l)
                (BulkLoader.count l)).
    - intros H; inversion H; subst. auto.
    - rewrite bind_modify.
      match goal with
      | |- ?rest ?st = _ -> _ =>
          assert (Hk : keeps rest)
      end.
      { apply keeps_bind; [apply keeps_get|intros cv].
        apply keeps_bind.
        - intros l0 r0 l0' sig0 H0. inversion H0; subst. auto.
        - intros entity. apply keeps_bind; [apply keeps_get|intros busy].
          destruct busy.
          + unfold BulkLoader.waitForWriter. keeps_auto.
          + unfold BulkLoader.suspend. keeps_auto. }
      intros H. apply Hk in H. destruct H as (H1 & H2). simpl in H1, H2.
      split; assumption. }
  unfold bind, attempt.
  destruct (b l) as [[c l1] o1]. pose proof (Hb _ _ _ eq_refl) as Eb.
  destruct (hd c l1) as [[c2 l2] o2] eqn:Eh. apply Hh in Eh.
  intros H; inversion H; subst. destruct Eb as (E1 & E2), Eh as (E3 & E4).
  split; congruence.
Qed.

Lemma deliver_within n now tick l :
  0 < n -> within n l -> within n (fst (BulkLoader.deliver now tick l)).
Proof.
  intros Hn (Hlim & Hc). unfold BulkLoader.deliver.
  destruct (BulkLoader.turn now tick l) as [[c l'] sig] eqn:Et. simpl.
  destruct tick as [| |cause|k result]; simpl in Et.
  - rewrite bind_get in Et.
    destruct (LineByLineReader.next_line (BulkLoader.lr l)) as [[line r']|].
    + rewrite bind_modify in Et. apply handleLineEvent_cursor in Et.
      simpl in Et. destruct Et as (E1 & E2). rewrite Hlim in *.
      split; [assumption|]. rewrite E2. unfold BulkLoader.limit_reached.
      destruct (0 <? n) eqn:E0; [|apply Z.ltb_ge in E0; lia]. simpl.
      destruct (BulkLoader.count l =? n) eqn:En; [lia|].
      apply Z.eqb_neq in En. lia.
    + inversion Et; subst. split; assumption.
  - rewrite bind_get in Et.
    destruct (LineByLineReader.next_end (BulkLoader.lr l)) as [r'|].
    + rewrite bind_modify in Et. apply keeps_handleEndEvent in Et.
      simpl in Et. destruct Et as (E1 & E2). split; congruence.
    + inversion Et; subst. split; assumption.
  - inversion Et; subst. split; assumption.
  - destruct (BulkLoader.settle now k result l) as [[c1 l1] sig1] eqn:E1.
    apply keeps_settle in E1.
    destruct (BulkLoader.continue now (BulkLoader.resolved_in sig1) l1)
      as [[c2 l2] sig2] eqn:E2.
    apply keeps_continue in E2.
    assert (E3 : BulkLoader.count l' = BulkLoader.count l2
                 /\ BulkLoader.nLines l' = BulkLoader.nLines l2).
    { destruct c1 as [[[u|err]|]|err].
      - destruct (BulkLoader.complete l2) as [[c3 l3] sig3] eqn:E3.
        apply keeps_complete in E3. inversion Et; subst. exact E3.
      - inversion Et; subst. auto.
      - inversion Et; subst. auto.
      - inversion Et; subst. auto. }
    destruct E1, E2, E3. split; congruence.
Qed.

Lemma play_within n sched l :
  0 < n -> within n l -> within n (fst (BulkLoader.play sched l)).
Proof.
  intros Hn. revert l. induction sched as [|[now tick] rest IH]; intros l H.
  - exact H.
  - simpl. pose proof (deliver_within n now tick l Hn H) as H1.
    destruct (BulkLoader.deliver now tick l) as [l1 sig].
    specialize (IH l1 H1).
    destruct (BulkLoader.play rest l1) as [l2 sigs]. exact IH.
Qed.

Lemma handleLineEvent_closes now line l :
  BulkLoader.limit_reached (BulkLoader.nLines l) (BulkLoader.count l) = true ->
  BulkLoader.handleLineEvent now line l
  = (Normal tt,
     BulkLoader.set_lr (LineByLineReader.close (BulkLoader.lr l)) l, []).
Proof.
  intros H. unfold BulkLoader.handleLineEvent.
  unfold bind at 1. unfold attempt. rewrite !bind_get, H. reflexivity.
Qed.

Lemma deliver_line_at_limit now l n line r' :
  BulkLoader.nLines l = Some n -> 0 < n -> BulkLoader.count l = n ->
  LineByLineReader.next_line (BulkLoader.lr l) = Some (line, r') ->
  BulkLoader.deliver now BulkLoader.LineEvent l
  = (BulkLoader.set_lr (LineByLineReader.close r') l, []).
Proof.
  intros Hl Hn Hc Hnext. unfold BulkLoader.deliver, BulkLoader.turn.
  rewrite bind_get, Hnext, bind_modify.
  rewrite handleLineEvent_closes; [reflexivity|]. simpl.
  rewrite Hl, Hc. unfold BulkLoader.limit_reached.
  rewrite Z.eqb_refl. destruct (0 <? n) eqn:E; [reflexivity|].
  apply Z.ltb_ge in E. lia.
Qed.

Lemma deliver_line_below_limit now l n line r' :
  BulkLoader.nLines l = Some n -> BulkLoader.count l < n ->
  LineByLineReader.next_line (BulkLoader.lr l) = Some (line, r') ->
  BulkLoader.count (fst (BulkLoader.deliver now BulkLoader.LineEvent l))
  = BulkLoader.count l + 1.
Proof.
  intros Hl Hc Hnext. unfold BulkLoader.deliver, BulkLoader.turn.
  rewrite bind_get, Hnext, bind_modify.
  destruct (BulkLoader.handleLineEvent now line (BulkLoader.set_lr r' l))
    as [[c l'] sig] eqn:E.
  apply handleLineEvent_cursor in E. destruct E as (_ & E).
  simpl in *. rewrite E, Hl. unfold BulkLoader.limit_reached.
  replace (BulkLoader.count l =? n) with false
    by (symmetry; apply Z.eqb_neq; lia).
  now rewrite andb_false_r.
Qed.

Lemma deliver_line_none now l :
  LineByLineReader.next_line (BulkLoader.lr l) = None ->
  BulkLoader.deliver now BulkLoader.LineEvent l = (l, []).
Proof.
  intros H. unfold BulkLoader.deliver, BulkLoader.turn.
  rewrite bind_get, H. reflexivity.
Qed.

(** *** The listeners *)

Lemma listener_eq e l :
  BulkLoader.listener e l
  = (Normal tt,
     BulkLoader.set_requestCount
       (BulkLoader.requestCount l + Z.of_nat (List.length (stats_of [e]))) l,
     BulkLoader.OfWriter e
       :: match e with
          | Emit (ErrorEvent err) => [BulkLoader.RejectLoad err]
          | _ => []
          end).
Proof.
  destruct l. unfold BulkLoader.listener.
  destruct e as [[| |p|err]|b|b|p]; cbn; rewrite ?Z.add_0_r; reflexivity.
Qed.

Lemma listeners_spec out l :
  exists sig,
    BulkLoader.listeners out l
    = (Normal tt,
       BulkLoader.set_requestCount
         (BulkLoader.requestCount l + Z.of_nat (List.length (stats_of out))) l,
       sig)
    /\ signal_batches sig = batches_of out.
Proof.
  revert l. induction out as [|e out IH]; intros l.
  - exists []. simpl. rewrite Z.add_0_r. destruct l; auto.
  - cbn [BulkLoader.listeners]. unfold bind. rewrite listener_eq.
    match goal with
    | |- context [BulkLoader.listeners out ?st] =>
        destruct (IH st) as (sig & E & Hb); rewrite E
    end.
    eexists. split.
    + f_equal. f_equal. destruct l. unfold BulkLoader.set_requestCount.
      cbn [BulkLoader.writer BulkLoader.path BulkLoader.batch BulkLoader.count
           BulkLoader.numConcurrent BulkLoader.nLines BulkLoader.converter
           BulkLoader.lr BulkLoader.isPaused BulkLoader.requestCount
           BulkLoader.pending BulkLoader.waiters].
      f_equal.
      destruct e as [[| |p|err]|b|b|p]; unfold stats_of;
        cbn [flat_map app List.length]; lia.
    + unfold signal_batches, batches_of in *.
      destruct e as [[| |p|err]|b|b|p]; cbn [flat_map app]; rewrite Hb;
        reflexivity.
Qed.

Lemma call_writer_spec {A} (m : M A) l r w out :
  m (BulkLoader.writer l) = (r, w, out) ->
  exists sig,
    BulkLoader.call_writer m l
    = (r,
       BulkLoader.set_requestCount
         (BulkLoader.requestCount l + Z.of_nat (List.length (stats_of out)))
         (BulkLoader.set_writer w l),
       sig)
    /\ signal_batches sig = batches_of out.
Proof.
  intros Hm. unfold BulkLoader.call_writer. rewrite Hm.
  destruct (listeners_spec out (BulkLoader.set_writer w l)) as (sig & E & Hb).
  exists sig. rewrite E. auto.
Qed.

Lemma signal_batches_app s1 s2 :
  signal_batches (s1 ++ s2) = signal_batches s1 ++ signal_batches s2.
Proof. unfold signal_batches. apply flat_map_app. Qed.

Lemma handleEndEvent_spec now l c w out :
  flush now (BulkLoader.writer l) = (c, w, out) ->
  exists l' sig,
    BulkLoader.handleEndEvent now l = (Normal tt, l', sig)
    /\ BulkLoader.writer l' = w
    /\ signal_batches sig = batches_of out.
Proof.
  intros Ef. unfold BulkLoader.handleEndEvent. unfold bind, attempt.
  destruct (call_writer_spec (flush now) l c w out Ef) as (sig & E & Hb).
  rewrite E.
  destruct c as [[|n foo]|err]; cbn; do 2 eexists;
    (split; [reflexivity|split; [reflexivity|]]);
    rewrite signal_batches_app, Hb; cbn; apply app_nil_r.
Qed.

(** Finalization: the 'end' event runs [flush] on the writer. *)
Lemma deliver_end now l r' :
  LineByLineReader.next_end (BulkLoader.lr l) = Some r' ->
  BulkLoader.writer (fst (BulkLoader.deliver now BulkLoader.EndEvent l))
  = snd (fst (flush now (BulkLoader.writer l)))
  /\ signal_batches (snd (BulkLoader.deliver now BulkLoader.EndEvent l))
     = batches_of (snd (flush now (BulkLoader.writer l))).
Proof.
  intros Hnext.
  destruct (flush now (BulkLoader.writer l)) as [[c w] out] eqn:Ef.
  destruct (handleEndEvent_spec now (BulkLoader.set_lr r' l) c w out Ef)
    as (l' & sig & E & Hw & Hb).
  assert (Hd : BulkLoader.deliver now BulkLoader.EndEvent l = (l', sig)).
  { unfold BulkLoader.deliver, BulkLoader.turn.
    rewrite bind_get, Hnext, bind_modify, E. reflexivity. }
  rewrite Hd. simpl. auto.
Qed.

(** *** A limit below the size of the buffer *)

Lemma bind_run {S O A B} (a : A) (k : A -> @Method S O B) s :
  bind (fun s0 => (Normal a, s0, [])) k s = k a s.
Proof. apply (bind_ret a k s). Qed.

Ltac loader_simpl :=
  cbn [BulkLoader.writer BulkLoader.path BulkLoader.batch BulkLoader.count
       BulkLoader.numConcurrent BulkLoader.nLines BulkLoader.converter
       BulkLoader.lr BulkLoader.isPaused BulkLoader.requestCount
       BulkLoader.pending BulkLoader.waiters
       BulkLoader.set_writer BulkLoader.set_count BulkLoader.set_lr
       BulkLoader.set_isPaused BulkLoader.set_requestCount
       BulkLoader.set_pending BulkLoader.set_waiters
       BulkLoader.limit_reached
       LineByLineReader.next_line LineByLineReader.next_end
       LineByLineReader.paused LineByLineReader.closed LineByLineReader.ended
       LineByLineReader.remaining LineByLineReader.close
       entities datastore isBusy bufferSize bufferCount t0 t1 isTicking
       maxConcurrentRequests concurrentRequests elapsed requestCount upsert
       idleOnce promises orb].

Section LimitBelowBuffer.
Variables (filePath : string) (d : Datastore).
Variable conv : BulkLoader.IEntityConverter.
Variables (bs mc n : Z) (ups : bool).
Hypothesis limit_positive : 0 < n.
Hypothesis limit_below_buffer : n < bs.
Hypothesis slots : 0 < mc.

Lemma reading_line now ents k line rest key :
  0 <= k < n -> conv line = Normal (Obj key) ->
  BulkLoader.deliver now BulkLoader.LineEvent
    (reading filePath d conv bs mc n ups ents k
       (LineByLineReader.mk (line :: rest) false false false))
  = (reading filePath d conv bs mc n ups (ents ++ [Obj key]) (k + 1)
       (LineByLineReader.mk rest false false false), []).
Proof.
  intros Hk Hconv. unfold reading, BulkLoader.deliver, BulkLoader.turn.
  rewrite bind_get. loader_simpl.
  rewrite bind_modify. unfold BulkLoader.handleLineEvent.
  unfold bind at 1. unfold attempt. rewrite !bind_get. loader_simpl.
  replace (k =? n) with false by (symmetry; apply Z.eqb_neq; lia).
  rewrite andb_false_r. rewrite bind_modify, bind_get. loader_simpl.
  rewrite Hconv, bind_run, bind_get. loader_simpl.
  unfold bind at 1. unfold BulkLoader.call_writer. loader_simpl.
  rewrite add_below_threshold.
  - reflexivity.
  - loader_simpl. rewrite Z.rem_small by lia. lia.
Qed.

Lemma converted_eq line key :
  conv line = Normal (Obj key) -> converted conv line = Obj key.
Proof. intros H. unfold converted. now rewrite H. Qed.

(** The first lines, up to the limit, go to the buffer and nothing else
    happens. *)
Lemma reading_lines taken :
  forall clock rest ents k,
    List.length clock = List.length taken ->
    0 <= k -> k + Z.of_nat (List.length taken) <= n ->
    (forall line, In line taken -> exists key, conv line = Normal (Obj key)) ->
    BulkLoader.play (map (fun t => (t, BulkLoader.LineEvent)) clock)
      (reading filePath d conv bs mc n ups ents k
         (LineByLineReader.mk (taken ++ rest) false false false))
    = (reading filePath d conv bs mc n ups (ents ++ map (converted conv) taken)
         (k + Z.of_nat (List.length taken))
         (LineByLineReader.mk rest false false false),
       repeat [] (List.length clock)).
Proof.
  induction taken as [|line taken IH]; intros clock rest ents k Hlen Hk Hle Hc.
  - destruct clock; [|discriminate]. simpl.
    rewrite app_nil_r, Z.add_0_r. reflexivity.
  - destruct clock as [|t clock]; [discriminate|].
    destruct (Hc line (or_introl eq_refl)) as (key & Hkey).
    cbn [map BulkLoader.play app List.length] in *.
    rewrite (reading_line t ents k line (taken ++ rest) key) by (try lia; auto).
    rewrite IH; try lia; [|intros; apply Hc; now right].
    rewrite (converted_eq line key Hkey), <- app_assoc. cbn [app repeat].
    replace (k + 1 + Z.of_nat (List.length taken))
      with (k + Z.of_nat (S (List.length taken))) by lia.
    reflexivity.
Qed.

Lemma play_idle clock l :
  LineByLineReader.next_line (BulkLoader.lr l) = None ->
  BulkLoader.play (map (fun t => (t, BulkLoader.LineEvent)) clock) l
  = (l, repeat [] (List.length clock)).
Proof.
  intros H. induction clock as [|t clock IH]; [reflexivity|].
  cbn [map BulkLoader.play]. rewrite deliver_line_none, IH by assumption.
  reflexivity.
Qed.

(** At the limit, further 'line' events close the reader, or find the
    source exhausted; in both cases 'end' is due next. *)
Lemma reading_drain t clock rest ents :
  exists r,
    BulkLoader.play (map (fun t => (t, BulkLoader.LineEvent)) (t :: clock))
      (reading filePath d conv bs mc n ups ents n (LineByLineReader.mk rest false false false))
    = (reading filePath d conv bs mc n ups ents n r, repeat [] (S (List.length clock)))
    /\ LineByLineReader.next_end r
       = Some (LineByLineReader.mk [] false (LineByLineReader.closed r) true).
Proof.
  destruct rest as [|line rest].
  - exists (LineByLineReader.mk [] false false false).
    rewrite play_idle by reflexivity. auto.
  - exists (LineByLineReader.mk [] false true false).
    cbn [map BulkLoader.play].
    rewrite (deliver_line_at_limit t _ n line
               (LineByLineReader.mk rest false false false))
      by (auto; reflexivity).
    unfold reading. loader_simpl.
    rewrite play_idle by reflexivity. auto.
Qed.

Lemma reading_end now ents r r' :
  ents <> [] -> LineByLineReader.next_end r = Some r' ->
  signal_batches
    (snd (BulkLoader.deliver now BulkLoader.EndEvent
            (reading filePath d conv bs mc n ups ents n r)))
  = [ents].
Proof.
  intros Hne Hend.
  destruct (deliver_end now (reading filePath d conv bs mc n ups ents n r) r' Hend) as (_ & Hb).
  rewrite Hb. unfold reading. loader_simpl.
  rewrite flush_submits; loader_simpl; try assumption; try lia; try reflexivity.
  cbn [snd]. rewrite batches_of_app. unfold sink_call.
  destruct (busy_edge _), ups; reflexivity.
Qed.
End LimitBelowBuffer.

Lemma play_app s1 s2 l :
  BulkLoader.play (s1 ++ s2) l
  = (fst (BulkLoader.play s2 (fst (BulkLoader.play s1 l))),
     snd (BulkLoader.play s1 l)
       ++ snd (BulkLoader.play s2 (fst (BulkLoader.play s1 l)))).
Proof.
  revert l. induction s1 as [|[now tick] s1 IH]; intros l.
  - simpl. destruct (BulkLoader.play s2 l); reflexivity.
  - cbn [app BulkLoader.play].
    destruct (BulkLoader.deliver now tick l) as [l1 sig].
    rewrite IH. destruct (BulkLoader.play s1 l1) as [l2 sigs]. reflexivity.
Qed.

Lemma split_at {A} (N : nat) (l : list A) :
  (N <= List.length l)%nat ->
  exists l1 l2, l = l1 ++ l2 /\ List.length l1 = N /\ firstn N l = l1.
Proof.
  intros H. exists (firstn N l), (skipn N l).
  rewrite firstn_skipn, length_firstn. repeat split. lia.
Qed.

Lemma single_final_batch filePath d conv bs mc n ups file clock tend :
  0 < n -> n < bs -> 0 < mc ->
  (Z.to_nat n <= List.length file)%nat ->
  (Z.to_nat n < List.length clock)%nat ->
  (forall line, In line (firstn (Z.to_nat n) file) ->
                exists key, conv line = Normal (Obj key)) ->
  exists sig,
    snd (BulkLoader.play (lines_then_end clock tend)
           (BulkLoader.load file (loader filePath d conv bs mc (Some n) ups)))
    = repeat [] (List.length clock) ++ [sig]
    /\ signal_batches sig = [map (converted conv) (firstn (Z.to_nat n) file)].
Proof.
  intros Hn Hbs Hmc Hfile Hclock Hconv.
  change (BulkLoader.load file (loader filePath d conv bs mc (Some n) ups))
    with (reading filePath d conv bs mc n ups [] 0
            (LineByLineReader.mk file false false false)).
  set (N := Z.to_nat n) in *.
  assert (HN : Z.of_nat N = n) by (unfold N; lia).
  destruct (split_at N file Hfile) as (f1 & f2 & Hf & Hf1 & Hfirst).
  rewrite Hfirst in *. clear Hfirst. subst file.
  destruct (split_at N clock ltac:(lia)) as (c1 & c2 & Hc & Hc1 & _).
  subst clock. destruct c2 as [|t c2].
  { rewrite app_nil_r in Hclock. lia. }
  unfold lines_then_end. rewrite map_app, <- app_assoc.
  rewrite play_app.
  rewrite (reading_lines filePath d conv bs mc n ups Hbs f1 c1 f2 [] 0);
    [|lia|lia|lia|exact Hconv].
  cbn [fst snd app]. rewrite Hf1, Z.add_0_l, HN.
  rewrite play_app.
  destruct (reading_drain filePath d conv bs mc n ups Hn t c2 f2
              (map (converted conv) f1))
    as (r & Hplay & Hend).
  rewrite Hplay. cbn [fst snd BulkLoader.play].
  destruct (BulkLoader.deliver tend BulkLoader.EndEvent
              (reading filePath d conv bs mc n ups
                 (map (converted conv) f1) n r))
    as [l' sig] eqn:Ed.
  exists sig. split.
  - cbn [fst snd]. rewrite app_assoc, <- repeat_app. do 2 f_equal.
    rewrite length_app. reflexivity.
  - change sig with (snd (l', sig)). rewrite <- Ed.
    eapply reading_end; [exact Hmc| |exact Hend].
    intros E. apply (f_equal (@List.length Entity)) in E.
    rewrite length_map, Hf1 in E. simpl in E. lia.
Qed.

Lemma flush_result_buffer now w :
  entities (snd (fst (flush now w))) = [].
Proof.
  destruct (flush now w) as [[c w'] out] eqn:E.
  apply flush_clears_buffer in E. exact E.
Qed.

(** What holds of a record limit [n]: the count of records consumed
    never exceeds [n]; below [n] each 'line' event consumes one record; with
    [n] records consumed, the next 'line' event
    consumes nothing, closes the reader (which ends the source early) and
    leaves the writer as it is; the 'end' event runs [flush] on the writer,
    which takes the whole buffer; and when [n] is below the size of the
    buffer, a source of at least [n] lines ends with one call to the
    Datastore client, made in the turn of the 'end' event, with the [n]
    converted records in one batch (250 records for a limit of 250 and a
    buffer of 500). *)
Theorem limit_stops_and_flushes filePath ds conv opts l file n :
  BulkLoader.constructor filePath ds conv opts = Normal l ->
  BulkLoader.nLines l = Some n -> 0 < n ->
  (forall sched,
     0 <= BulkLoader.count
            (fst (BulkLoader.play sched (BulkLoader.load file l))) <= n)
  /\ (forall sched now line r',
        let l1 := fst (BulkLoader.play sched (BulkLoader.load file l)) in
        BulkLoader.count l1 < n ->
        LineByLineReader.next_line (BulkLoader.lr l1) = Some (line, r') ->
        BulkLoader.count (fst (BulkLoader.deliver now BulkLoader.LineEvent l1))
        = BulkLoader.count l1 + 1)
  /\ (forall sched now line r',
        let l1 := fst (BulkLoader.play sched (BulkLoader.load file l)) in
        BulkLoader.count l1 = n ->
        LineByLineReader.next_line (BulkLoader.lr l1) = Some (line, r') ->
        BulkLoader.deliver now BulkLoader.LineEvent l1
        = (BulkLoader.set_lr (LineByLineReader.close r') l1, []))
  /\ (forall sched now r',
        let l1 := fst (BulkLoader.play sched (BulkLoader.load file l)) in
        LineByLineReader.next_end (BulkLoader.lr l1) = Some r' ->
        let l2 := fst (BulkLoader.deliver now BulkLoader.EndEvent l1) in
        BulkLoader.writer l2 = snd (fst (flush now (BulkLoader.writer l1)))
        /\ entities (BulkLoader.writer l2) = []
        /\ signal_batches (snd (BulkLoader.deliver now BulkLoader.EndEvent l1))
           = batches_of (snd (flush now (BulkLoader.writer l1))))
  /\ (n < BulkLoader.batch l ->
      forall clock tend,
        (Z.to_nat n <= List.length file)%nat ->
        (Z.to_nat n < List.length clock)%nat ->
        (forall line, In line (firstn (Z.to_nat n) file) ->
                      exists key, BulkLoader.converter l line = Normal (Obj key)) ->
        exists sig,
          snd (BulkLoader.play (lines_then_end clock tend)
                 (BulkLoader.load file l))
          = repeat [] (List.length clock) ++ [sig]
          /\ signal_batches sig
             = [map (converted (BulkLoader.converter l))
                  (firstn (Z.to_nat n) file)]
          /\ List.length (map (converted (BulkLoader.converter l))
                            (firstn (Z.to_nat n) file)) = Z.to_nat n).
Proof.
  intros Hc Hlim Hn.
  assert (Hw : forall sched,
             within n (fst (BulkLoader.play sched (BulkLoader.load file l)))).
  { intros sched. apply play_within; [assumption|].
    split; [exact Hlim|]. simpl. lia. }
  split; [intros sched; apply Hw|]. split; [|split; [|split]].
  - intros sched now line r' l1 Hcount Hnext.
    destruct (Hw sched) as (Hl1 & _).
    now apply (deliver_line_below_limit now l1 n line r').
  - intros sched now line r' l1 Hcount Hnext.
    destruct (Hw sched) as (Hl1 & _).
    now apply (deliver_line_at_limit now l1 n line r').
  - intros sched now r' l1 Hend l2.
    destruct (deliver_end now l1 r' Hend) as (H1 & H2).
    split; [exact H1|]. split; [|exact H2].
    unfold l2. rewrite H1. apply flush_result_buffer.
  - intros Hbs clock tend Hfile Hclock Hconv.
    apply loader_constructor_normal in Hc.
    destruct Hc as (d & cv & bs & mc & limit & ups & _ & _ & _ & Hmc & _ & Hl).
    subst l. simpl in Hlim, Hbs, Hconv. subst limit.
    destruct (single_final_batch filePath d cv bs mc n ups file clock tend
                Hn Hbs Hmc Hfile Hclock Hconv) as (sig & H1 & H2).
    exists sig. split; [exact H1|]. split; [exact H2|].
    simpl. rewrite length_map, length_firstn. lia.
Qed.

Lemma limit_stops_and_flushes_witness :
  let l := loader "rows.csv" (Client "p") (fun line => Normal (Obj line))
             500 10 (Some 250) false in
  let file := repeat "row"%string 300 in
  exists sig,
    snd (BulkLoader.play (lines_then_end (map Z.of_nat (seq 0 260)) 1000)
           (BulkLoader.load file l))
    = repeat [] 260 ++ [sig]
    /\ signal_batches sig = [repeat (Obj "row") 250]
    /\ List.length (repeat (Obj "row") 250) = 250%nat.
Proof.
  intros l file.
  destruct (limit_stops_and_flushes "rows.csv" (Some (Client "p"))
              (Some (fun line => Normal (Obj line)))
              (Some (BulkLoader.Options.mk None (Some 250) (Some 500) None))
              l file 250 eq_refl eq_refl eq_refl) as (_ & _ & _ & _ & D).
  apply (D eq_refl (map Z.of_nat (seq 0 260)) 1000).
  - apply Nat.leb_le. reflexivity.
  - apply Nat.ltb_lt. reflexivity.
  - intros line _. exists line. reflexivity.
Defined.

(** C8: the code at a failing input.  A limit of 3 records, a buffer of 2
    and 10 slots; the request for the first batch is still in flight when
    the reader ends.  The loader stops after 3 records and closes the
    reader, but the [flush] of the 'end' event takes the buffered record
    [c] and then fails the assertion of [#startTimer], whose timer is
    running for the request in flight: the promise of [load] is rejected
    and [c] is never handed to the Datastore client, not even after the
    first request has completed. *)
Theorem limit_remainder_dropped :
  let l := loader "rows.csv" (Client "p") (fun line => Normal (Obj line))
             2 10 (Some 3) false in
  let sched := [(0, BulkLoader.LineEvent); (1, BulkLoader.LineEvent);
                (2, BulkLoader.LineEvent); (3, BulkLoader.LineEvent);
                (4, BulkLoader.EndEvent);
                (9, BulkLoader.Settled 1 (Fulfilled true))] in
  let r := BulkLoader.play sched
             (BulkLoader.load ["a"; "b"; "c"; "d"; "e"]%string l) in
  BulkLoader.count (fst r) = 3
  /\ LineByLineReader.closed (BulkLoader.lr (fst r)) = true
  /\ snd r
     = [[]; [BulkLoader.OfWriter (Insert [Obj "a"; Obj "b"])]; []; [];
        [BulkLoader.RejectLoad AssertionError];
        [BulkLoader.OfWriter (Emit (StatsEvent (Stats.mk 1 9 2 8)))]]
  /\ run_batches (snd r) = [[Obj "a"; Obj "b"]]
  /\ entities (BulkLoader.writer (fst r)) = []
  /\ BulkLoader.pending (fst r) = []
  /\ BulkLoader.waiters (fst r) = [].
Proof. repeat split. Qed.

(** * Further properties *)

(** ** Runs *)

Lemma final_app s1 s2 s :
  final (s1 ++ s2) s = final s2 (final s1 s).
Proof.
  revert s. induction s1 as [|[now op] s1 IH]; intros s; [reflexivity|].
  cbn [app]. rewrite !final_cons. apply IH.
Qed.

Lemma trace_app s1 s2 s :
  trace (s1 ++ s2) s = trace s1 s ++ trace s2 (final s1 s).
Proof.
  revert s. induction s1 as [|[now op] s1 IH]; intros s; [reflexivity|].
  cbn [app]. rewrite !trace_cons, final_cons, IH. reflexivity.
Qed.

Lemma effects_cons now op rest s :
  effects (trace ((now, op) :: rest) s)
  = snd (step now op s) ++ effects (trace rest (fst (fst (step now op s)))).
Proof. rewrite trace_cons. reflexivity. Qed.

(** A property of the state kept by every turn holds after every run. *)
Lemma run_invariant (P : System -> Prop) :
  (forall now op s, P s -> P (fst (fst (step now op s)))) ->
  forall sched s, P s -> P (final sched s).
Proof.
  intros Hstep sched. induction sched as [|[now op] rest IH]; intros s H.
  - exact H.
  - rewrite final_cons. apply IH, Hstep, H.
Qed.

(** ** 'busy' and 'idle' alternate *)

Lemma alternate_app b l1 l2 :
  alternate b (l1 ++ l2) =
    match alternate b l1 with
    | Some b' => alternate b' l2
    | None => None
    end.
Proof.
  revert b. induction l1 as [|e l1 IH]; intros b; [reflexivity|].
  destruct e, b; simpl; auto.
Qed.

Lemma edges_app o1 o2 : edges (o1 ++ o2) = edges o1 ++ edges o2.
Proof. unfold edges. apply flat_map_app. Qed.

Lemma edges_resolve l : edges (map Resolve l) = [].
Proof. induction l; simpl; auto. Qed.

Lemma flush_edges now w r w' out :
  flush now w = (r, w', out) ->
  alternate (isBusy w) (edges out) = Some (isBusy w').
Proof.
  destruct (flush_cases now w)
    as [(_ & E)|[(_ & _ & E)|[(_ & _ & _ & E)|(_ & _ & _ & E)]]];
    rewrite E; intros H; injection H as _ Hw Ho; rewrite <- Hw, <- Ho;
    clear E Hw Ho; try reflexivity;
    unfold busy_edge, sink_call; simpl;
    destruct (isBusy w); simpl; try destruct (upsert w); try reflexivity;
    destruct (concurrentRequests w + 1 =? maxConcurrentRequests w);
    try destruct (upsert w); reflexivity.
Qed.

Lemma add_edges now entity w r w' out :
  add now entity w = (r, w', out) ->
  alternate (isBusy w) (edges out) = Some (isBusy w').
Proof.
  destruct entity as [|key].
  - rewrite add_falsy. intros H; inversion H; subst. reflexivity.
  - destruct (Z.eq_dec (Z.rem (bufferCount w + 1) (bufferSize w)) 0) as [E|E].
    + rewrite add_at_threshold by assumption.
      destruct (flush now (pushed (Obj key) w)) as [[c w1] o1] eqn:Ef.
      apply flush_edges in Ef. simpl in Ef.
      destruct c; intros H; inversion H; subst; clear H; [exact Ef|].
      rewrite edges_app, alternate_app, Ef. reflexivity.
    + rewrite add_below_threshold by assumption.
      intros H; inversion H; subst. reflexivity.
Qed.

Lemma flush_resume_edges now result w r w' out :
  flush_resume now result w = (r, w', out) ->
  alternate (isBusy w) (edges out) = Some (isBusy w').
Proof.
  destruct result as [readable|cause].
  - destruct (isTicking w) eqn:Ht.
    + rewrite flush_resume_fulfilled by assumption. cbv zeta.
      destruct readable; [destruct (idle_edge w) eqn:Hi|];
        intros H; injection H as _ Hw Ho; rewrite <- Hw, <- Ho;
        try reflexivity.
      unfold idle_edge in Hi. apply andb_true_iff in Hi. destruct Hi as [Hb _].
      simpl. rewrite Hb, edges_resolve. reflexivity.
    + rewrite flush_resume_not_ticking by assumption.
      intros H; injection H as _ Hw Ho; rewrite <- Hw, <- Ho. reflexivity.
  - rewrite flush_resume_rejected.
    intros H; injection H as _ Hw Ho; rewrite <- Hw, <- Ho. reflexivity.
Qed.

Lemma step_edges now op s :
  alternate (isBusy (writer s)) (edges (snd (step now op s)))
  = Some (isBusy (writer (fst (fst (step now op s))))).
Proof.
  destruct op as [entity| | |n result]; simpl.
  - destruct (add now entity (writer s)) as [[c w] out] eqn:E.
    apply add_edges in E. destruct c; exact E.
  - destruct (flush now (writer s)) as [[c w] out] eqn:E.
    apply flush_edges in E. destruct c as [[|k foo]|e]; exact E.
  - rewrite ready_eq. destruct (isBusy (writer s)) eqn:Hb; simpl;
      rewrite Hb; reflexivity.
  - destruct (take_request n (inFlight s)) as [[r rest]|]; [|reflexivity].
    destruct (origin r).
    + rewrite add_settled_eq.
      destruct (flush_resume now result (writer s)) as [[c w] out] eqn:E.
      apply flush_resume_edges in E. destruct c; simpl; [exact E|].
      rewrite edges_app, alternate_app, E. reflexivity.
    + destruct (flush_resume now result (writer s)) as [[c w] out] eqn:E.
      apply flush_resume_edges in E. destruct c; exact E.
Qed.

(** X1.  In every run of a writer the 'busy' and 'idle' events alternate,
    starting with 'busy', and [isBusy] is true exactly when the last of them
    was 'busy': no event is emitted twice in a row. *)
Theorem busy_idle_alternate ds opts w sched :
  constructor ds opts = Normal w ->
  alternate false (edges (effects (trace sched (boot w))))
  = Some (isBusy (writer (final sched (boot w)))).
Proof.
  intros Hc.
  assert (H0 : isBusy (writer (boot w)) = false).
  { apply constructor_normal in Hc.
    destruct Hc as (d & ups & _ & Hw & _). rewrite Hw. reflexivity. }
  rewrite <- H0. clear H0 Hc. generalize (boot w) as s.
  induction sched as [|[now op] rest IH]; intros s; [reflexivity|].
  rewrite effects_cons, final_cons, edges_app, alternate_app, step_edges.
  apply IH.
Qed.

Lemma busy_idle_alternate_witness :
  alternate false
    (edges (effects
              (trace [(0, CallAdd (Obj "a")); (3, Settle 1 (Fulfilled true));
                      (4, CallAdd (Obj "b"))]
                 (boot (fresh (Client "p") 1 1 false)))))
  = Some true.
Proof.
  apply (busy_idle_alternate (Some (Client "p"))
           (Some (Options.mk (Some 1) (Some 1) (Some false)))).
  reflexivity.
Defined.

(** ** One request at a time *)

Lemma flush_flight now w r w' out :
  flush now w = (r, w', out) ->
  match r with
  | Normal (Await _ _) => isTicking w = false /\ isTicking w' = true
  | _ => isTicking w' = isTicking w /\ batches_of out = []
  end.
Proof.
  destruct (flush_cases now w)
    as [(_ & E)|[(_ & _ & E)|[(_ & _ & Ht & E)|(_ & _ & Ht & E)]]];
    rewrite E; intros H; injection H as Hr Hw Ho;
    rewrite <- Hr, <- Hw; rewrite <- ?Ho; clear E Hr Hw Ho; simpl; auto.
  split; [reflexivity|]. destruct (busy_edge w); reflexivity.
Qed.

Lemma add_flight now entity w r w' out :
  add now entity w = (r, w', out) ->
  match r with
  | Normal (Await _ _) => isTicking w = false /\ isTicking w' = true
  | _ => isTicking w' = isTicking w /\ batches_of out = []
  end.
Proof.
  destruct entity as [|key].
  - rewrite add_falsy. intros H; inversion H; subst. auto.
  - destruct (Z.eq_dec (Z.rem (bufferCount w + 1) (bufferSize w)) 0) as [E|E].
    + rewrite add_at_threshold by assumption.
      destruct (flush now (pushed (Obj key) w)) as [[c w1] o1] eqn:Ef.
      apply flush_flight in Ef. simpl in Ef.
      destruct c as [[|n foo]|err]; intros H; inversion H; subst; clear H;
        try exact Ef.
      destruct Ef as (Ht & Hb). split; [exact Ht|].
      rewrite batches_of_app, Hb. reflexivity.
    + rewrite add_below_threshold by assumption.
      intros H; inversion H; subst. auto.
Qed.

Lemma take_request_single n l r rest :
  (List.length l <= 1)%nat -> take_request n l = Some (r, rest) -> rest = [].
Proof.
  intros Hl Ht. apply take_request_length in Ht.
  destruct rest; [reflexivity|]. simpl in Ht. lia.
Qed.

Lemma step_single_flight now op s :
  single_flight s -> single_flight (fst (fst (step now op s))).
Proof.
  intros (Hlen & Htick). destruct op as [entity| | |n result]; simpl.
  - destruct (add now entity (writer s)) as [[c w] out] eqn:E.
    apply add_flight in E.
    destruct c as [[|k foo]|err]; simpl; unfold single_flight; simpl.
    + destruct E as (E & _). rewrite E. auto.
    + destruct E as (E0 & E1).
      destruct (inFlight s) as [|x l]; [simpl; auto|].
      rewrite Htick in E0 by discriminate. discriminate.
    + destruct E as (E & _). rewrite E. auto.
  - destruct (flush now (writer s)) as [[c w] out] eqn:E.
    apply flush_flight in E.
    destruct c as [[|k foo]|err]; simpl; unfold single_flight; simpl.
    + destruct E as (E & _). rewrite E. auto.
    + destruct E as (E0 & E1).
      destruct (inFlight s) as [|x l]; [simpl; auto|].
      rewrite Htick in E0 by discriminate. discriminate.
    + destruct E as (E & _). rewrite E. auto.
  - rewrite ready_eq. unfold single_flight.
    destruct (isBusy (writer s)); simpl; auto.
  - destruct (take_request n (inFlight s)) as [[r rest]|] eqn:Et;
      [|split; assumption].
    apply (take_request_single _ _ _ _ Hlen) in Et. subst rest.
    destruct (origin r).
    + destruct (add_settled now result (writer s)) as [[c w] out].
      split; simpl; [lia|congruence].
    + destruct (flush_resume now result (writer s)) as [[c w] out].
      destruct c; split; simpl; try lia; congruence.
Qed.

(** X2.  Whatever [max_concurrent_requests] is, at most one Datastore
    request is in flight at any point of any run: the timer of the writer is
    shared, and a flush started while a request is in flight fails the
    assertion of [#startTimer] before it calls the Datastore client. *)
Theorem one_request_in_flight ds opts w sched :
  constructor ds opts = Normal w ->
  (List.length (inFlight (final sched (boot w))) <= 1)%nat.
Proof.
  intros _.
  apply (run_invariant single_flight step_single_flight sched (boot w)).
  split; simpl; [lia|congruence].
Qed.

Lemma one_request_in_flight_witness :
  let s := final [(0, CallAdd (Obj "a")); (1, CallAdd (Obj "b"));
                  (2, CallAdd (Obj "c"))]
             (boot (fresh (Client "p") 1 10 false)) in
  (List.length (inFlight s) <= 1)%nat.
Proof.
  apply (one_request_in_flight (Some (Client "p"))
           (Some (Options.mk (Some 1) (Some 10) (Some false)))).
  reflexivity.
Defined.

(** ** [ready] and the 'idle' transition *)

Lemma resolved_of_app o1 o2 :
  resolved_of (o1 ++ o2) = resolved_of o1 ++ resolved_of o2.
Proof. unfold resolved_of. apply flat_map_app. Qed.

Lemma resolved_of_map l : resolved_of (map Resolve l) = l.
Proof.
  induction l as [|p l IH]; [reflexivity|].
  change (resolved_of (map Resolve (p :: l)))
    with (p :: resolved_of (map Resolve l)).
  now rewrite IH.
Qed.

Lemma quiet_resolved out : quiet out = true -> resolved_of out = [].
Proof.
  induction out as [|e out IH]; [reflexivity|].
  intros H. change (e :: out) with ([e] ++ out).
  unfold quiet in H. cbn [forallb] in H.
  apply andb_true_iff in H. destruct H as (He & Ho).
  rewrite resolved_of_app, (IH Ho), app_nil_r.
  destruct e as [[| | |]| | |]; try reflexivity; discriminate He.
Qed.

Lemma flush_stays_busy now w r w' out :
  flush now w = (r, w', out) -> isBusy w = true -> isBusy w' = true.
Proof.
  destruct (flush_cases now w)
    as [(_ & E)|[(_ & _ & E)|[(_ & _ & _ & E)|(_ & _ & _ & E)]]];
    rewrite E; intros H; injection H as _ Hw _; rewrite <- Hw; cbn;
    intros ->; reflexivity.
Qed.

Lemma add_stays_busy now entity w r w' out :
  add now entity w = (r, w', out) -> isBusy w = true -> isBusy w' = true.
Proof.
  destruct entity as [|key].
  - rewrite add_falsy. intros H; injection H as _ Hw _. now rewrite <- Hw.
  - destruct (Z.eq_dec (Z.rem (bufferCount w + 1) (bufferSize w)) 0) as [E|E].
    + rewrite add_at_threshold by assumption.
      destruct (flush now (pushed (Obj key) w)) as [[c w1] o1] eqn:Ef.
      pose proof (flush_stays_busy _ _ _ _ _ Ef) as Hb. cbn in Hb.
      destruct c; intros H; injection H as _ Hw _; rewrite <- Hw; exact Hb.
    + rewrite add_below_threshold by assumption.
      intros H; injection H as _ Hw _. now rewrite <- Hw.
Qed.

(** A settlement either makes the 'idle' transition, which emits 'idle' and
    resolves the waiting promises, or leaves [isBusy] as it is and resolves
    nothing. *)
Lemma flush_resume_idle now result w r w' out :
  flush_resume now result w = (r, w', out) ->
  (isBusy w = true /\ isBusy w' = false /\ r = Normal tt /\ idleOnce w' = []
   /\ exists pre, quiet pre = true
                  /\ out = pre ++ Emit Idle :: map Resolve (idleOnce w))
  \/ (quiet out = true /\ isBusy w' = isBusy w).
Proof.
  destruct result as [readable|cause].
  - destruct (isTicking w) eqn:Ht.
    + rewrite flush_resume_fulfilled by assumption. cbv zeta.
      destruct readable; [destruct (idle_edge w) eqn:Hi|];
        intros H; injection H as Hr Hw Ho; rewrite <- Hw, <- Ho, <- ?Hr;
        [left|right; auto|right; auto].
      unfold idle_edge in Hi. apply andb_true_iff in Hi.
      destruct Hi as (Hb & _).
      repeat split; auto.
      exists [Emit (StatsEvent (Stats.mk (t0 w) now (requestCount w)
                                  (now - t0 w)))].
      split; reflexivity.
    + rewrite flush_resume_not_ticking by assumption.
      intros H; injection H as _ Hw Ho; rewrite <- Hw, <- Ho. right. auto.
  - rewrite flush_resume_rejected.
    intros H; injection H as _ Hw Ho; rewrite <- Hw, <- Ho. right. auto.
Qed.

Lemma step_idle now op s :
  let w := writer s in
  let w' := writer (fst (fst (step now op s))) in
  let out := snd (step now op s) in
  (isBusy w = true /\ isBusy w' = false /\ idleOnce w' = []
   /\ exists pre, quiet pre = true
                  /\ out = pre ++ Emit Idle :: map Resolve (idleOnce w))
  \/ (~ In (Emit Idle) out /\ (isBusy w = true -> isBusy w' = true)).
Proof.
  destruct op as [entity| | |n result]; cbn [step]; cbv zeta.
  - right. destruct (add now entity (writer s)) as [[c w] out] eqn:E.
    pose proof (add_stays_busy _ _ _ _ _ _ E) as Hb.
    apply add_quiet in E. destruct E as (Hq & _).
    apply quiet_spec in Hq. destruct c; cbn; tauto.
  - right. destruct (flush now (writer s)) as [[c w] out] eqn:E.
    pose proof (flush_stays_busy _ _ _ _ _ E) as Hb.
    apply flush_quiet in E. destruct E as (Hq & _).
    apply quiet_spec in Hq. destruct c as [[|k foo]|e]; cbn; tauto.
  - right. rewrite ready_eq. destruct (isBusy (writer s)) eqn:Hb; cbn.
    + rewrite Hb. tauto.
    + split; [|intros Hx; discriminate Hx]. intros [Hx|[]]. discriminate Hx.
  - destruct (take_request n (inFlight s)) as [[r rest]|].
    2: { right. cbn. tauto. }
    destruct (origin r).
    + rewrite add_settled_eq.
      destruct (flush_resume now result (writer s)) as [[c w] out] eqn:E.
      apply flush_resume_idle in E.
      destruct E as [(H1 & H2 & Hc & H3 & H4)|(Hq & Hb)].
      * left. subst c. cbn. auto.
      * right. destruct c; cbn.
        -- apply quiet_spec in Hq. rewrite Hb. tauto.
        -- rewrite Hb. split; [|tauto]. intros Hin. apply in_app_or in Hin.
           apply quiet_spec in Hq.
           destruct Hin as [Hin|[Hin|[]]]; [tauto|discriminate Hin].
    + destruct (flush_resume now result (writer s)) as [[c w] out] eqn:E.
      apply flush_resume_idle in E.
      destruct E as [(H1 & H2 & Hc & H3 & H4)|(Hq & Hb)].
      * left. subst c. cbn. auto.
      * right. apply quiet_spec in Hq. destruct c; cbn; rewrite Hb; tauto.
Qed.

(** With a request in flight the timer runs, so a fulfilled request of a
    busy writer whose count is within the limit makes the transition. *)
Lemma fulfilled_makes_idle now n r rest s :
  single_flight s ->
  take_request n (inFlight s) = Some (r, rest) ->
  isBusy (writer s) = true ->
  concurrentRequests (writer s) <= maxConcurrentRequests (writer s) ->
  In (Emit Idle) (snd (step now (Settle n (Fulfilled true)) s)).
Proof.
  intros (_ & Htick) Ht Hb Hle.
  assert (Hne : inFlight s <> []).
  { intros E. rewrite E in Ht. discriminate Ht. }
  specialize (Htick Hne).
  assert (Hi : idle_edge (writer s) = true).
  { unfold idle_edge. rewrite Hb. cbn. apply Z.ltb_lt. lia. }
  cbn [step]. rewrite Ht.
  destruct (origin r).
  - rewrite add_settled_eq, flush_resume_fulfilled by assumption.
    cbv zeta. rewrite Hi. cbn. auto.
  - rewrite flush_resume_fulfilled by assumption.
    cbv zeta. rewrite Hi. cbn. auto.
Qed.

(** A promise that waits keeps waiting, unresolved, through any turns that
    do not emit 'idle'. *)
Lemma waits_until_idle later :
  forall s,
    waiting_inv (writer s) ->
    ~ In (Emit Idle) (effects (trace later s)) ->
    forall q, In q (idleOnce (writer s)) ->
              ~ In (Resolve q) (effects (trace later s))
              /\ In q (idleOnce (writer (final later s))).
Proof.
  induction later as [|[now op] rest IH]; intros s Hinv Hno q Hq.
  - split; [intros []|exact Hq].
  - rewrite effects_cons in *. rewrite final_cons.
    pose proof (step_touches now op s) as Ht.
    destruct (touches_resolution _ _ _ Ht Hinv) as (_ & Hquiet).
    assert (H1 : ~ In (Emit Idle) (snd (step now op s))).
    { intros Hin. apply Hno. apply in_or_app. now left. }
    assert (H2 : ~ In (Emit Idle)
                   (effects (trace rest (fst (fst (step now op s)))))).
    { intros Hin. apply Hno. apply in_or_app. now right. }
    destruct (Hquiet H1 q Hq) as (Hnr & Hq').
    destruct (IH _ (touches_waiting _ _ _ Ht Hinv) H2 q Hq') as (G1 & G2).
    split; [|exact G2].
    intros Hin. apply in_app_or in Hin. tauto.
Qed.

(** C7.  In any state the writer reaches: [ready] called when the writer is
    not busy resolves its promise at once; called when busy it resolves
    nothing and registers a new promise, distinct from those already waiting;
    any number of calls made while busy register that many distinct promises.
    A turn emits 'idle' exactly when it takes the writer from busy to not
    busy; such a turn resolves the waiting promises, all of them, each once,
    and leaves none waiting; any other turn, and any sequence of turns that
    does not emit 'idle', resolves none of them and keeps them waiting.  The
    transition does come: when a request of a busy writer is fulfilled and
    the count is within the limit, the turn emits 'idle'. *)
Theorem ready_resolves_on_idle ds opts w0 sched now op :
  constructor ds opts = Normal w0 ->
  let s := final sched (boot w0) in
  let w := writer s in
  let p := promises w in
  let out := snd (step now op s) in
  let w' := writer (fst (fst (step now op s))) in
  (isBusy w = false ->
   ready w = (Normal p, set_promises (S p) w, [Resolve p]))
  /\ (isBusy w = true ->
      ready w = (Normal p,
                 set_idleOnce (idleOnce w ++ [p]) (set_promises (S p) w), [])
      /\ forall clock,
           idleOnce (writer (final (map (fun t => (t, CallReady)) clock) s))
           = idleOnce w ++ seq p (List.length clock))
  /\ ~ In p (idleOnce w)
  /\ NoDup (idleOnce w)
  /\ (In (Emit Idle) out <-> isBusy w = true /\ isBusy w' = false)
  /\ (In (Emit Idle) out ->
      resolved_of out = idleOnce w
      /\ idleOnce w' = []
      /\ forall q, In q (idleOnce w) -> In (Resolve q) out)
  /\ (~ In (Emit Idle) out ->
      forall q, In q (idleOnce w) ->
                ~ In (Resolve q) out /\ In q (idleOnce w'))
  /\ (forall later,
        ~ In (Emit Idle) (effects (trace later s)) ->
        forall q, In q (idleOnce w) ->
                  ~ In (Resolve q) (effects (trace later s))
                  /\ In q (idleOnce (writer (final later s))))
  /\ (forall n r rest,
        op = Settle n (Fulfilled true) ->
        take_request n (inFlight s) = Some (r, rest) ->
        isBusy w = true ->
        concurrentRequests w <= maxConcurrentRequests w ->
        In (Emit Idle) out).
Proof.
  intros Hc s w p out w'.
  assert (Hinv : waiting_inv w).
  { apply run_waiting. apply constructor_normal in Hc.
    destruct Hc as (d & ups & _ & Hw & _). rewrite Hw.
    split; constructor. }
  assert (Hfl : single_flight s).
  { apply (run_invariant single_flight step_single_flight sched (boot w0)).
    split; cbn; [lia|congruence]. }
  pose proof (touches_resolution w w' out (step_touches now op s) Hinv)
    as (Hidle & Hquiet).
  pose proof (step_idle now op s) as Hedge. cbv zeta in Hedge.
  fold w w' out in Hedge.
  pose proof (fun later => waits_until_idle later s Hinv) as Hlater.
  destruct Hinv as (Hnd & Hlt).
  split; [|split; [|split; [|split; [|split; [|split; [|split; [|split]]]]]]];
    try assumption.
  - intros Hb. rewrite ready_eq, Hb. reflexivity.
  - intros Hb. split.
    + rewrite ready_eq, Hb. reflexivity.
    + intros clock. now apply ready_burst.
  - intros Hin. rewrite Forall_forall in Hlt. apply Hlt in Hin.
    unfold p in Hin. lia.
  - destruct Hedge as [(H1 & H2 & H3 & pre & Hq & Ho)|(Hno & Hb)].
    + split; [auto|]. intros _. rewrite Ho. apply in_or_app. right. now left.
    + split; [contradiction|]. intros (H1 & H2).
      rewrite (Hb H1) in H2. discriminate H2.
  - intros Hin.
    destruct Hedge as [(H1 & H2 & H3 & pre & Hq & Ho)|(Hno & Hb)];
      [|contradiction].
    split; [|split; [exact H3|exact (Hidle Hin)]].
    rewrite Ho, resolved_of_app, (quiet_resolved _ Hq). cbn.
    apply resolved_of_map.
  - intros n r rest Hop Ht Hb Hle. unfold out. rewrite Hop.
    exact (fulfilled_makes_idle now n r rest s Hfl Ht Hb Hle).
Qed.

Lemma ready_resolves_on_idle_witness :
  let s := final [(0, CallAdd (Obj "a")); (1, CallReady); (2, CallReady)]
             (boot (fresh (Client "p") 1 1 false)) in
  let out := snd (step 5 (Settle 1 (Fulfilled true)) s) in
  idleOnce (writer s) = [0%nat; 1%nat]
  /\ isBusy (writer s) = true
  /\ In (Emit Idle) out
  /\ resolved_of out = [0%nat; 1%nat]
  /\ idleOnce (writer (fst (fst (step 5 (Settle 1 (Fulfilled true)) s)))) = [].
Proof.
  intros s out.
  destruct (ready_resolves_on_idle (Some (Client "p"))
              (Some (Options.mk (Some 1) (Some 1) (Some false)))
              (fresh (Client "p") 1 1 false)
              [(0, CallAdd (Obj "a")); (1, CallReady); (2, CallReady)]
              5 (Settle 1 (Fulfilled true)) eq_refl)
    as (_ & _ & _ & _ & _ & Hall & _ & _ & Hcome).
  assert (Hidle : In (Emit Idle) out).
  { apply (Hcome 1 (mkRequest 1 Automatic [Obj "a"]) []).
    - reflexivity.
    - reflexivity.
    - reflexivity.
    - cbn. lia. }
  destruct (Hall Hidle) as (H1 & H2 & _).
  split; [reflexivity|]. split; [reflexivity|]. split; [exact Hidle|].
  split; [exact H1|exact H2].
Defined.

(** ** After a rejected request *)

Lemma step_wedged now op s :
  wedged s ->
  wedged (fst (fst (step now op s))) /\ batches_of (snd (step now op s)) = [].
Proof.
  intros (Ht & Hfl). unfold wedged. destruct op as [entity| | |n result]; simpl.
  - destruct (add now entity (writer s)) as [[c w] out] eqn:E.
    apply add_flight in E.
    destruct c as [[|k foo]|err]; simpl.
    + destruct E as (E & Hb). rewrite E. auto.
    + destruct E as (E & _). congruence.
    + destruct E as (E & Hb). rewrite E. auto.
  - destruct (flush now (writer s)) as [[c w] out] eqn:E.
    apply flush_flight in E.
    destruct c as [[|k foo]|err]; simpl.
    + destruct E as (E & Hb). rewrite E. auto.
    + destruct E as (E & _). congruence.
    + destruct E as (E & Hb). rewrite E. auto.
  - rewrite ready_eq. destruct (isBusy (writer s)); simpl; auto.
  - rewrite Hfl. simpl. auto.
Qed.

Lemma wedged_forever sched s :
  wedged s -> all_batches (trace sched s) = [].
Proof.
  revert s. induction sched as [|[now op] rest IH]; intros s H; [reflexivity|].
  rewrite trace_cons. unfold all_batches. simpl.
  destruct (step_wedged now op s H) as (H1 & H2).
  rewrite H2. simpl. apply IH, H1.
Qed.

(** X3.  Once a Datastore request of the writer has been rejected, the
    writer never submits a batch again, whatever is called afterwards: the
    rejection leaves the timer running with nothing in flight, so that every
    later flush fails before the call. *)
Theorem no_batch_after_rejection ds opts w sched now n cause later :
  constructor ds opts = Normal w ->
  let s := final sched (boot w) in
  snd (fst (step now (Settle n (Rejected cause)) s)) <> NotInFlight ->
  all_batches
    (trace later (fst (fst (step now (Settle n (Rejected cause)) s)))) = [].
Proof.
  intros _ s Hoc. apply wedged_forever.
  assert (Hs : single_flight s).
  { apply (run_invariant single_flight step_single_flight sched (boot w)).
    split; simpl; [lia|congruence]. }
  destruct Hs as (Hlen & Htick). simpl in *.
  destruct (take_request n (inFlight s)) as [[r rest]|] eqn:Et;
    [|simpl in Hoc; congruence].
  assert (Hne : inFlight s <> []).
  { intros E. rewrite E in Et. discriminate. }
  apply (take_request_single _ _ _ _ Hlen) in Et. subst rest.
  destruct (origin r); simpl; split; auto.
Qed.

Lemma no_batch_after_rejection_witness :
  all_batches
    (trace [(5, CallAdd (Obj "b")); (6, CallFlush); (7, CallAdd (Obj "c"))]
       (fst (fst (step 4 (Settle 1 (Rejected (SinkFailure "UNAVAILABLE")))
                    (final [(0, CallAdd (Obj "a"))]
                       (boot (fresh (Client "p") 1 10 false)))))))
  = [].
Proof.
  apply (no_batch_after_rejection (Some (Client "p"))
           (Some (Options.mk (Some 1) (Some 10) (Some false)))
           (fresh (Client "p") 1 10 false)
           [(0, CallAdd (Obj "a"))] 4 1 (SinkFailure "UNAVAILABLE")).
  - reflexivity.
  - vm_compute. discriminate.
Defined.

(** ** The cumulative time *)

Lemma stats_of_app o1 o2 : stats_of (o1 ++ o2) = stats_of o1 ++ stats_of o2.
Proof. unfold stats_of. apply flat_map_app. Qed.

Lemma stats_of_resolve l : stats_of (map Resolve l) = [].
Proof. induction l; simpl; auto. Qed.

Lemma total_elapsed_app p1 p2 :
  total_elapsed (p1 ++ p2) = total_elapsed p1 + total_elapsed p2.
Proof.
  induction p1 as [|p p1 IH]; simpl; [reflexivity|]. rewrite IH. lia.
Qed.

Lemma flush_timer now w r w' out :
  flush now w = (r, w', out) ->
  stats_of out = [] /\ elapsed w' = elapsed w
  /\ (isTicking w' = true ->
      (isTicking w = true /\ t0 w' = t0 w) \/ t0 w' = now).
Proof.
  destruct (flush_cases now w)
    as [(_ & E)|[(_ & _ & E)|[(_ & _ & Ht & E)|(_ & _ & Ht & E)]]];
    rewrite E; intros H; injection H as _ Hw Ho; rewrite <- Hw, <- Ho;
    clear E Hw Ho; simpl; auto.
  - destruct (busy_edge w); auto.
  - unfold sink_call. destruct (busy_edge w), (upsert w); auto.
Qed.

Lemma add_timer now entity w r w' out :
  add now entity w = (r, w', out) ->
  stats_of out = [] /\ elapsed w' = elapsed w
  /\ (isTicking w' = true ->
      (isTicking w = true /\ t0 w' = t0 w) \/ t0 w' = now).
Proof.
  destruct entity as [|key].
  - rewrite add_falsy. intros H; inversion H; subst. auto.
  - destruct (Z.eq_dec (Z.rem (bufferCount w + 1) (bufferSize w)) 0) as [E|E].
    + rewrite add_at_threshold by assumption.
      destruct (flush now (pushed (Obj key) w)) as [[c w1] o1] eqn:Ef.
      apply flush_timer in Ef. simpl in Ef. destruct Ef as (Hs & He & Ht).
      destruct c; intros H; inversion H; subst; clear H; auto.
      rewrite stats_of_app, Hs. auto.
    + rewrite add_below_threshold by assumption.
      intros H; inversion H; subst. auto.
Qed.

Lemma flush_resume_timer now result w r w' out :
  flush_resume now result w = (r, w', out) ->
  elapsed w' = elapsed w + total_elapsed (stats_of out)
  /\ (forall p, In p (stats_of out) ->
                Stats.start p = t0 w /\ Stats.end_ p = now
                /\ Stats.elapsed p = Stats.end_ p - Stats.start p
                /\ isTicking w = true)
  /\ (isTicking w' = true -> isTicking w = true /\ t0 w' = t0 w).
Proof.
  destruct result as [readable|cause].
  - destruct (isTicking w) eqn:Ht.
    + rewrite flush_resume_fulfilled by assumption. cbv zeta.
      destruct readable; [destruct (idle_edge w)|];
        intros H; injection H as _ Hw Ho; rewrite <- Hw, <- Ho;
        simpl; rewrite ?stats_of_resolve; simpl;
        (split; [lia|split; [|intros Hx; discriminate Hx]]);
        intros p [<-|[]]; simpl; auto.
    + rewrite flush_resume_not_ticking by assumption.
      intros H; injection H as _ Hw Ho; rewrite <- Hw, <- Ho. simpl.
      split; [lia|split; [contradiction|intros Hx; congruence]].
  - rewrite flush_resume_rejected.
    intros H; injection H as _ Hw Ho; rewrite <- Hw, <- Ho. simpl.
    split; [lia|split; [contradiction|auto]].
Qed.

(** What one turn does to the timer and to the cumulative time. *)
Lemma step_timer now op s :
  let w := writer s in
  let w' := writer (fst (fst (step now op s))) in
  let ps := stats_of (snd (step now op s)) in
  elapsed w' = elapsed w + total_elapsed ps
  /\ (forall p, In p ps ->
                Stats.start p = t0 w /\ Stats.end_ p = now
                /\ Stats.elapsed p = Stats.end_ p - Stats.start p
                /\ isTicking w = true)
  /\ (isTicking w' = true ->
      (isTicking w = true /\ t0 w' = t0 w) \/ t0 w' = now).
Proof.
  destruct op as [entity| | |n result]; simpl.
  - destruct (add now entity (writer s)) as [[c w1] out] eqn:E.
    apply add_timer in E. destruct E as (Hs & He & Ht).
    destruct c; simpl; rewrite Hs, He; simpl;
      (split; [lia|split; [contradiction|exact Ht]]).
  - destruct (flush now (writer s)) as [[c w1] out] eqn:E.
    apply flush_timer in E. destruct E as (Hs & He & Ht).
    destruct c as [[|k foo]|e]; simpl; rewrite Hs, He; simpl;
      (split; [lia|split; [contradiction|exact Ht]]).
  - rewrite ready_eq. destruct (isBusy (writer s)); simpl;
      (split; [lia|split; [contradiction|auto]]).
  - destruct (take_request n (inFlight s)) as [[r rest]|];
      [|simpl; split; [lia|split; [contradiction|auto]]].
    destruct (origin r).
    + rewrite add_settled_eq.
      destruct (flush_resume now result (writer s)) as [[c w1] out] eqn:E.
      apply flush_resume_timer in E. destruct E as (He & Hp & Ht).
      destruct c; simpl; rewrite ?stats_of_app; simpl; rewrite ?app_nil_r;
        (split; [exact He|split; [exact Hp|]]); intros H; left; auto.
    + destruct (flush_resume now result (writer s)) as [[c w1] out] eqn:E.
      apply flush_resume_timer in E. destruct E as (He & Hp & Ht).
      destruct c; simpl;
        (split; [exact He|split; [exact Hp|]]); intros H; left; auto.
Qed.

Lemma run_elapsed sched :
  forall s,
    elapsed (writer (final sched s))
    = elapsed (writer s) + total_elapsed (stats_of (effects (trace sched s)))
    /\ Forall (fun p => Stats.elapsed p = Stats.end_ p - Stats.start p)
         (stats_of (effects (trace sched s))).
Proof.
  induction sched as [|[now op] rest IH]; intros s.
  - cbv [final trace run fst snd effects flat_map stats_of total_elapsed
         fold_right].
    split; [lia|constructor].
  - rewrite effects_cons, final_cons, stats_of_app, total_elapsed_app.
    destruct (step_timer now op s) as (He & Hp & _).
    destruct (IH (fst (fst (step now op s)))) as (IH1 & IH2).
    split; [lia|]. apply Forall_app. split; [|exact IH2].
    apply Forall_forall. intros p Hin. apply Hp in Hin. tauto.
Qed.

(** X4.  In every run the public [elapsed] of the writer is the sum of the
    durations carried by the 'stats' events emitted so far, and each of these
    durations is [end - start] of its event. *)
Theorem elapsed_is_sum_of_stats ds opts w sched :
  constructor ds opts = Normal w ->
  elapsed (writer (final sched (boot w)))
  = total_elapsed (stats_of (effects (trace sched (boot w))))
  /\ Forall (fun p => Stats.elapsed p = Stats.end_ p - Stats.start p)
       (stats_of (effects (trace sched (boot w)))).
Proof.
  intros Hc.
  assert (H0 : elapsed (writer (boot w)) = 0).
  { apply constructor_normal in Hc.
    destruct Hc as (d & ups & _ & Hw & _). rewrite Hw. reflexivity. }
  destruct (run_elapsed sched (boot w)) as (H1 & H2). split; [lia|exact H2].
Qed.

Lemma elapsed_is_sum_of_stats_witness :
  elapsed
    (writer
       (final [(10, CallAdd (Obj "a")); (15, Settle 1 (Fulfilled true));
               (20, CallAdd (Obj "b")); (27, Settle 2 (Fulfilled false))]
          (boot (fresh (Client "p") 1 10 false))))
  = 5 + (7 + 0).
Proof.
  apply (elapsed_is_sum_of_stats (Some (Client "p"))
           (Some (Options.mk (Some 1) (Some 10) (Some false)))).
  reflexivity.
Defined.

Lemma run_monotone sched :
  forall last s,
    monotone last sched = true ->
    (isTicking (writer s) = true -> t0 (writer s) <= last) ->
    Forall (fun p => Stats.start p <= Stats.end_ p /\ 0 <= Stats.elapsed p)
      (stats_of (effects (trace sched s)))
    /\ elapsed (writer s) <= elapsed (writer (final sched s)).
Proof.
  induction sched as [|[now op] rest IH]; intros last s Hm Ht.
  - cbv [final trace run fst snd effects flat_map stats_of].
    split; [constructor|lia].
  - simpl in Hm. apply andb_true_iff in Hm. destruct Hm as [Hle Hm].
    apply Z.leb_le in Hle.
    rewrite effects_cons, final_cons, stats_of_app.
    destruct (step_timer now op s) as (He & Hp & Ht').
    assert (Hps : Forall (fun p => Stats.start p <= Stats.end_ p
                                   /\ 0 <= Stats.elapsed p)
                    (stats_of (snd (step now op s)))).
    { apply Forall_forall. intros p Hin.
      destruct (Hp p Hin) as (H1 & H2 & H3 & H4). specialize (Ht H4). lia. }
    destruct (IH now (fst (fst (step now op s))) Hm) as (IH1 & IH2).
    { intros H. destruct (Ht' H) as [(H1 & H2)|H1]; [|lia].
      specialize (Ht H1). lia. }
    split; [apply Forall_app; split; assumption|].
    assert (0 <= total_elapsed (stats_of (snd (step now op s)))).
    { clear -Hps. induction Hps as [|p ps Hp _ IHps]; simpl; lia. }
    lia.
Qed.

Lemma effects_app t1 t2 : effects (t1 ++ t2) = effects t1 ++ effects t2.
Proof. unfold effects. apply flat_map_app. Qed.

(** X5.  When the readings of the clock never go back, every 'stats' event
    has [start <= end], its duration is not negative, and the cumulative
    [elapsed] of the writer never decreases along the run. *)
Theorem elapsed_never_decreases ds opts w t sched k :
  constructor ds opts = Normal w ->
  monotone t sched = true ->
  Forall (fun p => Stats.start p <= Stats.end_ p /\ 0 <= Stats.elapsed p)
    (stats_of (effects (trace sched (boot w))))
  /\ elapsed (writer (final (firstn k sched) (boot w)))
     <= elapsed (writer (final sched (boot w))).
Proof.
  intros Hc Hm.
  assert (H0 : isTicking (writer (boot w)) = false).
  { apply constructor_normal in Hc.
    destruct Hc as (d & ups & _ & Hw & _). rewrite Hw. reflexivity. }
  assert (Hall : Forall (fun p => Stats.start p <= Stats.end_ p
                                  /\ 0 <= Stats.elapsed p)
                   (stats_of (effects (trace sched (boot w))))).
  { apply (run_monotone sched t (boot w) Hm). rewrite H0. discriminate. }
  split; [exact Hall|].
  rewrite <- (firstn_skipn k sched) in Hall.
  rewrite trace_app, effects_app, stats_of_app in Hall.
  apply Forall_app in Hall. destruct Hall as (_ & Hsuf).
  rewrite <- (firstn_skipn k sched) at 2. rewrite final_app.
  destruct (run_elapsed (skipn k sched) (final (firstn k sched) (boot w)))
    as (He & _).
  rewrite He.
  assert (0 <= total_elapsed
                 (stats_of (effects (trace (skipn k sched)
                                       (final (firstn k sched) (boot w)))))).
  { clear -Hsuf. induction Hsuf as [|p ps Hp _ IHps]; simpl; lia. }
  lia.
Qed.

Lemma elapsed_never_decreases_witness :
  let sched := [(10, CallAdd (Obj "a")); (15, Settle 1 (Fulfilled true));
                (20, CallAdd (Obj "b")); (27, Settle 2 (Fulfilled true))] in
  let s0 := boot (fresh (Client "p") 1 10 false) in
  elapsed (writer (final (firstn 2 sched) s0))
  <= elapsed (writer (final sched s0)).
Proof.
  intros sched s0.
  apply (elapsed_never_decreases (Some (Client "p"))
           (Some (Options.mk (Some 1) (Some 10) (Some false)))
           (fresh (Client "p") 1 10 false) 0 sched 2).
  - reflexivity.
  - reflexivity.
Defined.

(** ** Errors of the automatic flush *)

Lemma errors_of_app o1 o2 : errors_of (o1 ++ o2) = errors_of o1 ++ errors_of o2.
Proof. unfold errors_of. apply flat_map_app. Qed.

Lemma flush_outcomes now w (Hne : entities w <> []) :
  (exists err w',
      flush now w = (Throw err, w', if busy_edge w && negb (maxConcurrentRequests w <? concurrentRequests w + 1)
                                   then [Emit Busy] else [])
      /\ entities w' = []
      /\ (err = ExceededMaxConcurrent \/ err = AssertionError))
  \/ (exists n w' out,
         flush now w = (Normal (Await n (entities w)), w', out)
         /\ entities w' = [] /\ errors_of out = []
         /\ batches_of out = [entities w]).
Proof.
  destruct (flush_cases now w)
    as [(He & _)|[(_ & Hlt & E)|[(_ & Hle & _ & E)|(_ & Hle & _ & E)]]].
  - contradiction.
  - left. do 2 eexists. rewrite E.
    replace (maxConcurrentRequests w <? concurrentRequests w + 1) with true
      by (symmetry; apply Z.ltb_lt; lia).
    rewrite andb_false_r. auto.
  - left. do 2 eexists. rewrite E.
    replace (maxConcurrentRequests w <? concurrentRequests w + 1) with false
      by (symmetry; apply Z.ltb_ge; lia).
    rewrite andb_true_r. auto.
  - right. do 3 eexists. rewrite E. split; [reflexivity|].
    unfold sink_call. destruct (busy_edge w), (upsert w); auto.
Qed.

(** X6.  [add] of a non-null entity never throws.  Below the threshold it
    only appends.  At the threshold it either submits the whole buffer, the
    new record last, and emits no 'error'; or the flush fails, with
    "exceeded maximum number of concurrent requests" or with the assertion of
    the timer, and then [add] still returns, exactly one 'error' event
    carries the failure, nothing is submitted and the buffer is empty: the
    batch is dropped. *)
Theorem add_reports_by_event now entity w :
  truthy entity = true ->
  exists susp w' out,
    add now entity w = (Normal susp, w', out)
    /\ bufferCount w' = bufferCount w + 1
    /\ match errors_of out with
       | [] =>
           (susp = Done /\ entities w' = entities w ++ [entity]
            /\ batches_of out = [])
           \/ (exists n, susp = Await n (entities w ++ [entity])
                         /\ entities w' = []
                         /\ batches_of out = [entities w ++ [entity]])
       | [err] =>
           susp = Done /\ entities w' = [] /\ batches_of out = []
           /\ (err = ExceededMaxConcurrent \/ err = AssertionError)
       | _ => False
       end.
Proof.
  intros Ht. destruct entity as [|key]; [discriminate|].
  destruct (Z.eq_dec (Z.rem (bufferCount w + 1) (bufferSize w)) 0) as [E|E].
  - rewrite add_at_threshold by assumption.
    assert (Hne : entities (pushed (Obj key) w) <> []).
    { simpl. destruct (entities w); discriminate. }
    destruct (flush_outcomes now (pushed (Obj key) w) Hne)
      as [(err & w' & Ef & He & Herr)|(n & w' & out & Ef & He & Hno & Hb)];
      rewrite Ef; do 3 eexists; (split; [reflexivity|]).
    + pose proof (flush_batches _ _ _ _ _ Ef) as (_ & Hb).
      assert (Hbc : bufferCount w' = bufferCount w + 1).
      { destruct (flush_cases now (pushed (Obj key) w))
          as [(_ & E1)|[(_ & _ & E1)|[(_ & _ & _ & E1)|(_ & _ & _ & E1)]]];
          rewrite E1 in Ef; inversion Ef; subst; reflexivity. }
      split; [exact Hbc|].
      rewrite errors_of_app, batches_of_app, Hb.
      match goal with
      | |- context [errors_of (if ?c then _ else _)] => destruct c
      end; simpl; auto.
    + assert (Hbc : bufferCount w' = bufferCount w + 1).
      { destruct (flush_cases now (pushed (Obj key) w))
          as [(_ & E1)|[(_ & _ & E1)|[(_ & _ & _ & E1)|(_ & _ & _ & E1)]]];
          rewrite E1 in Ef; inversion Ef; subst; reflexivity. }
      split; [exact Hbc|]. rewrite Hno. right. exists n. auto.
  - rewrite add_below_threshold by assumption.
    do 3 eexists. split; [reflexivity|]. simpl. auto.
Qed.

Lemma add_reports_by_event_witness :
  exists susp w' out,
    add 1 (Obj "b")
      (writer (final [(0, CallAdd (Obj "a"))]
                 (boot (fresh (Client "p") 1 1 false))))
    = (Normal susp, w', out)
    /\ errors_of out = [ExceededMaxConcurrent]
    /\ entities w' = [] /\ batches_of out = [].
Proof.
  destruct (add_reports_by_event 1 (Obj "b")
              (writer (final [(0, CallAdd (Obj "a"))]
                         (boot (fresh (Client "p") 1 1 false))))
              eq_refl) as (susp & w' & out & E & _ & _).
  exists susp, w', out. split; [exact E|].
  vm_compute in E. inversion E; subst. repeat split.
Defined.

(** ** Nothing is lost with one slot *)

Lemma flush_one_slot now w r w' out :
  maxConcurrentRequests w = 1 -> concurrentRequests w = 0 ->
  isBusy w = false -> isTicking w = false ->
  flush now w = (r, w', out) ->
  maxConcurrentRequests w' = 1
  /\ (isBusy w' = false -> isTicking w' = false)
  /\ List.concat (batches_of out) ++ entities w' = entities w
  /\ errors_of out = [] /\ (forall e, r <> Throw e).
Proof.
  intros Hmc Hcr Hb Ht.
  destruct (entities w) as [|e es] eqn:He.
  - rewrite flush_empty by assumption. intros H; inversion H; subst.
    rewrite He. repeat split; auto; try (intros e Hx; discriminate Hx).
  - rewrite flush_submits; [|rewrite He; discriminate|lia|exact Ht].
    intros H; inversion H; subst; clear H. simpl.
    unfold busy_edge, sink_call. rewrite Hb, Hcr, Hmc, He. simpl.
    destruct (upsert w); simpl;
      repeat split; auto; try (intros e0 Hx; discriminate Hx);
      try (now rewrite !app_nil_r).
Qed.

Lemma add_one_slot now entity w r w' out :
  maxConcurrentRequests w = 1 -> concurrentRequests w = 0 ->
  isBusy w = false -> isTicking w = false ->
  add now entity w = (r, w', out) ->
  maxConcurrentRequests w' = 1
  /\ (isBusy w' = false -> isTicking w' = false)
  /\ List.concat (batches_of out) ++ entities w'
     = entities w ++ (if truthy entity then [entity] else []).
Proof.
  intros Hmc Hcr Hb Ht. destruct entity as [|key].
  - rewrite add_falsy. intros H; inversion H; subst. simpl.
    rewrite app_nil_r. rewrite Ht. auto.
  - destruct (Z.eq_dec (Z.rem (bufferCount w + 1) (bufferSize w)) 0) as [E|E].
    + rewrite add_at_threshold by assumption.
      destruct (flush now (pushed (Obj key) w)) as [[c w1] o1] eqn:Ef.
      apply flush_one_slot in Ef; try assumption.
      destruct Ef as (H1 & H2 & H3 & _ & H5). simpl in H3.
      destruct c as [susp|e]; [|destruct (H5 e eq_refl)].
      intros H; inversion H; subst. auto.
    + rewrite add_below_threshold by assumption.
      intros H; inversion H; subst. simpl. rewrite Ht. auto.
Qed.

Lemma flush_resume_one_slot now result w r w' out :
  maxConcurrentRequests w = 1 ->
  (isBusy w = false -> isTicking w = false) ->
  flush_resume now result w = (r, w', out) ->
  maxConcurrentRequests w' = 1
  /\ (isBusy w' = false -> isTicking w' = false)
  /\ batches_of out = [] /\ entities w' = entities w.
Proof.
  intros Hmc Hidle E.
  pose proof (flush_resume_batches _ _ _ _ _ _ E) as Hb.
  pose proof (flush_resume_buffer _ _ _ _ _ _ E) as (He & _).
  assert (maxConcurrentRequests w' = 1
          /\ (isBusy w' = false -> isTicking w' = false)); [|tauto].
  destruct result as [readable|cause].
  - destruct (isTicking w) eqn:Ht.
    + rewrite flush_resume_fulfilled in E by assumption. cbv zeta in E.
      destruct readable; [destruct (idle_edge w)|];
        inversion E; subst; simpl; auto.
    + rewrite flush_resume_not_ticking in E by assumption.
      inversion E; subst; simpl. auto.
  - rewrite flush_resume_rejected in E. inversion E; subst. auto.
Qed.

Lemma step_conserves now op s :
  one_slot_inv s -> allowed op s = true ->
  one_slot_inv (fst (fst (step now op s)))
  /\ List.concat (batches_of (snd (step now op s)))
       ++ entities (writer (fst (fst (step now op s))))
     = entities (writer s) ++ added [(now, op)].
Proof.
  intros (Hmc & Hg & Hidle) Hal.
  pose proof (step_gate now op s Hg Hal) as Hg'.
  destruct Hg as (Hfl & Hle & Hroom).
  unfold one_slot_inv, added. cbn [flat_map snd]. rewrite app_nil_r.
  destruct op as [entity| | |n result]; simpl in Hal, Hg' |- *.
  - apply negb_true_iff in Hal. specialize (Hidle Hal). specialize (Hroom Hal).
    destruct (add now entity (writer s)) as [[c w] out] eqn:E.
    apply add_one_slot in E; try assumption; [|lia].
    destruct E as (H1 & H2 & H3). destruct c; simpl in *; auto.
  - apply negb_true_iff in Hal. specialize (Hidle Hal). specialize (Hroom Hal).
    destruct (flush now (writer s)) as [[c w] out] eqn:E.
    apply flush_one_slot in E; try assumption; [|lia].
    destruct E as (H1 & H2 & H3 & _). rewrite app_nil_r.
    destruct c as [[|k foo]|e]; simpl in *; auto.
  - rewrite ready_eq in *. rewrite app_nil_r.
    destruct (isBusy (writer s)) eqn:Hb; simpl in *; rewrite ?Hb; auto.
  - rewrite app_nil_r.
    destruct (take_request n (inFlight s)) as [[r rest]|] eqn:Et.
    2:{ simpl. split; [|reflexivity]. unfold gate_inv. auto. }
    destruct (origin r).
    + rewrite add_settled_eq in *.
      destruct (flush_resume now result (writer s)) as [[c w] out] eqn:E.
      apply flush_resume_one_slot in E; try assumption.
      destruct E as (H1 & H2 & H3 & H4).
      destruct c; simpl in *; rewrite ?batches_of_app, H3, H4; auto.
    + destruct (flush_resume now result (writer s)) as [[c w] out] eqn:E.
      apply flush_resume_one_slot in E; try assumption.
      destruct E as (H1 & H2 & H3 & H4).
      destruct c; simpl in *; rewrite H3, H4; auto.
Qed.

Lemma concat_all_batches_cons now op rest s :
  List.concat (all_batches (trace ((now, op) :: rest) s))
  = List.concat (batches_of (snd (step now op s)))
      ++ List.concat (all_batches (trace rest (fst (fst (step now op s))))).
Proof.
  rewrite trace_cons. unfold all_batches. cbn [flat_map snd].
  apply concat_app.
Qed.

Lemma run_conserves sched :
  forall s,
    one_slot_inv s -> awaits_ready sched s = true ->
    List.concat (all_batches (trace sched s)) ++ entities (writer (final sched s))
    = entities (writer s) ++ added sched.
Proof.
  induction sched as [|[now op] rest IH]; intros s Hinv Hal.
  - cbv [trace final run fst snd all_batches flat_map added]. simpl.
    now rewrite app_nil_r.
  - simpl in Hal. apply andb_true_iff in Hal. destruct Hal as [H1 H2].
    destruct (step_conserves now op s Hinv H1) as (Hinv' & Hstep).
    rewrite concat_all_batches_cons, final_cons, <- app_assoc.
    rewrite (IH _ Hinv' H2), app_assoc, Hstep, <- app_assoc.
    f_equal. unfold added. cbn [flat_map]. now rewrite app_nil_r.
Qed.

(** X7.  With [max_concurrent_requests = 1] and a caller that calls [add]
    and [flush] only while the writer is not busy, no record is lost,
    repeated or reordered: the batches submitted so far, in order, followed
    by the buffer, are exactly the non-null records added so far. *)
Theorem one_slot_conserves ds opts w sched :
  constructor ds opts = Normal w ->
  maxConcurrentRequests w = 1 ->
  awaits_ready sched (boot w) = true ->
  List.concat (all_batches (trace sched (boot w)))
    ++ entities (writer (final sched (boot w)))
  = added sched.
Proof.
  intros Hc Hmc Hal.
  assert (Hinv : one_slot_inv (boot w)).
  { split; [exact Hmc|]. split; [eapply constructor_gate; eassumption|].
    apply constructor_normal in Hc.
    destruct Hc as (d & ups & _ & Hw & _). rewrite Hw. reflexivity. }
  rewrite (run_conserves sched (boot w) Hinv Hal).
  apply constructor_normal in Hc.
  destruct Hc as (d & ups & _ & Hw & _). rewrite Hw. reflexivity.
Qed.

Lemma one_slot_conserves_witness :
  let sched := [(0, CallAdd (Obj "a")); (1, CallAdd (Obj "b"));
                (2, CallReady); (5, Settle 1 (Fulfilled true));
                (6, CallAdd (Obj "c")); (7, CallFlush)] in
  let s0 := boot (fresh (Client "p") 2 1 false) in
  List.concat (all_batches (trace sched s0)) ++ entities (writer (final sched s0))
  = [Obj "a"; Obj "b"; Obj "c"].
Proof.
  intros sched s0.
  apply (one_slot_conserves (Some (Client "p"))
           (Some (Options.mk (Some 2) (Some 1) (Some false)))
           (fresh (Client "p") 2 1 false) sched);
    reflexivity.
Defined.

(** ** Defaults of the constructors *)

Lemma falsy_or_default dflt n :
  0 < dflt -> negative n = false ->
  (if Options.falsy n then Some dflt else n) = Some (or_default dflt n)
  /\ 0 < or_default dflt n.
Proof.
  intros Hd Hn. destruct n as [v|]; simpl in *; [|auto].
  apply Z.ltb_ge in Hn. destruct (v =? 0) eqn:E; [auto|].
  apply Z.eqb_neq in E. split; [reflexivity|lia].
Qed.

(** X8.  With a Datastore client and no negative threshold the constructor
    of the writer succeeds, and the writer starts empty and idle with
    [buffer_size] and [max_concurrent_requests] as given, or 500 and 10
    where they are absent or 0, and [upsert] false when absent. *)
Theorem constructor_defaults d opts :
  negative (Options.buffer_size (given opts)) = false ->
  negative (Options.max_concurrent_requests (given opts)) = false ->
  constructor (Some d) opts
  = Normal (fresh d
              (or_default 500 (Options.buffer_size (given opts)))
              (or_default 10 (Options.max_concurrent_requests (given opts)))
              (or_false (Options.upsert (given opts)))).
Proof.
  intros Hb Hm. unfold constructor.
  set (o := if Options.isEmpty opts then _ else _).
  assert (Ho : (Options.buffer_size o = Some 500
                /\ Options.max_concurrent_requests o = Some 10
                /\ Options.upsert o = Some false
                /\ given opts = Options.mk None None None)
               \/ o = given opts).
  { unfold o. destruct opts as [[[b|] [m|] [u|]]|]; simpl; auto. }
  assert (Hbs : (if Options.falsy (Options.buffer_size o) then Some 500
                 else Options.buffer_size o)
                = Some (or_default 500 (Options.buffer_size (given opts)))
                /\ 0 < or_default 500 (Options.buffer_size (given opts))).
  { destruct Ho as [(H1 & _ & _ & He)|Ho].
    - rewrite H1, He. simpl. split; [reflexivity|lia].
    - rewrite Ho. apply falsy_or_default; [lia|assumption]. }
  assert (Hmc : (if Options.falsy (Options.max_concurrent_requests o)
                 then Some 10 else Options.max_concurrent_requests o)
                = Some (or_default 10
                          (Options.max_concurrent_requests (given opts)))
                /\ 0 < or_default 10
                         (Options.max_concurrent_requests (given opts))).
  { destruct Ho as [(_ & H1 & _ & He)|Ho].
    - rewrite H1, He. simpl. split; [reflexivity|lia].
    - rewrite Ho. apply falsy_or_default; [lia|assumption]. }
  assert (Hup : match Options.upsert o with Some b => b | None => false end
                = or_false (Options.upsert (given opts))).
  { destruct Ho as [(_ & _ & H1 & He)|Ho].
    - rewrite H1, He. reflexivity.
    - rewrite Ho. reflexivity. }
  destruct Hbs as (Hbs & Hbpos), Hmc as (Hmc & Hmpos).
  rewrite Hbs, Hmc, Hup. clearbody o. clear Ho Hbs Hmc Hup.
  set (bs := or_default 500 _) in *. set (mc := or_default 10 _) in *.
  simpl.
  destruct (bs =? 0) eqn:E1; [apply Z.eqb_eq in E1; lia|].
  destruct (mc =? 0) eqn:E2; [apply Z.eqb_eq in E2; lia|].
  destruct (bs <=? 0) eqn:E3; [apply Z.leb_le in E3; lia|].
  destruct (mc <=? 0) eqn:E4; [apply Z.leb_le in E4; lia|].
  reflexivity.
Qed.

Lemma constructor_defaults_witness :
  constructor (Some (Client "p")) (Some (Options.mk (Some 0) None (Some true)))
  = Normal (fresh (Client "p") 500 10 true).
Proof.
  apply (constructor_defaults (Client "p")
           (Some (Options.mk (Some 0) None (Some true)))); reflexivity.
Defined.

Lemma loader_effective opts :
  let o := if BulkLoader.Options.isEmpty opts
           then BulkLoader.Options.default_options
           else match opts with
                | Some o => o
                | None => BulkLoader.Options.default_options
                end in
  (if Options.falsy (BulkLoader.Options.batch_size o) then 500
   else match BulkLoader.Options.batch_size o with Some v => v | None => 500 end)
  = or_default 500 (BulkLoader.Options.batch_size (loader_given opts))
  /\ (if Options.falsy (BulkLoader.Options.num_concurrent o) then 10
      else match BulkLoader.Options.num_concurrent o with
           | Some v => v
           | None => 10
           end)
     = or_default 10 (BulkLoader.Options.num_concurrent (loader_given opts))
  /\ match BulkLoader.Options.upsert o with Some b => b | None => false end
     = or_false (BulkLoader.Options.upsert (loader_given opts))
  /\ BulkLoader.Options.num_lines o
     = BulkLoader.Options.num_lines (loader_given opts).
Proof.
  assert (H : forall n dflt,
             (if Options.falsy n then dflt
              else match n with Some v => v | None => dflt end)
             = or_default dflt n).
  { intros [v|] dflt; simpl; [|reflexivity]. destruct (v =? 0); reflexivity. }
  destruct opts as [[[c|] [n|] [b|] [u|]]|]; cbv zeta;
    cbn [BulkLoader.Options.isEmpty loader_given]; rewrite !H; auto.
Qed.

(** X9.  A loader that the constructor returns was given a non-empty file
    path, a converter and a Datastore client, and has a fresh writer whose
    buffer size and limit are [batch_size] and [num_concurrent] as given,
    or 500 and 10 where they are absent or 0; [upsert] is false when
    absent, and the record limit is [num_lines] as given. *)
Theorem loader_constructor_defaults filePath ds conv opts l :
  BulkLoader.constructor filePath ds conv opts = Normal l ->
  exists d cv,
    ds = Some d /\ conv = Some cv /\ filePath <> EmptyString
    /\ l = loader filePath d cv
             (or_default 500 (BulkLoader.Options.batch_size (loader_given opts)))
             (or_default 10
                (BulkLoader.Options.num_concurrent (loader_given opts)))
             (BulkLoader.Options.num_lines (loader_given opts))
             (or_false (BulkLoader.Options.upsert (loader_given opts))).
Proof.
  unfold BulkLoader.constructor.
  destruct (String.eqb_spec filePath EmptyString) as [E|Hp]; [discriminate|].
  destruct conv as [cv|]; [|discriminate].
  destruct ds as [d|]; [|discriminate].
  destruct (loader_effective opts) as (H1 & H2 & H3 & H4).
  cbv zeta in *. rewrite H1, H2, H3, H4.
  set (bs := or_default 500 _). set (mc := or_default 10 _).
  destruct (0 <? bs) eqn:Hbs; [|discriminate].
  destruct (0 <? mc) eqn:Hmc; [|discriminate].
  apply Z.ltb_lt in Hbs, Hmc. cbn [negb].
  rewrite constructor_fresh by assumption.
  intros H. injection H as <-. exists d, cv. auto.
Qed.

Lemma loader_constructor_defaults_witness :
  exists d cv,
    Some (Client "p") = Some d
    /\ Some (fun line => Normal (Obj line)) = Some cv
    /\ "rows.csv"%string <> EmptyString
    /\ loader "rows.csv" (Client "p") (fun line => Normal (Obj line))
         500 10 (Some 250) false
       = loader "rows.csv" d cv
           (or_default 500 None) (or_default 10 (Some 0)) (Some 250)
           (or_false None).
Proof.
  apply (loader_constructor_defaults "rows.csv" (Some (Client "p"))
           (Some (fun line => Normal (Obj line)))
           (Some (BulkLoader.Options.mk (Some 0) (Some 250) None None))).
  reflexivity.
Defined.

(** X10.  The constructor of the loader throws when the file path is empty,
    the converter or the Datastore client is missing, or [batch_size] or
    [num_concurrent] is negative. *)
Theorem loader_constructor_rejects filePath ds conv opts :
  filePath = EmptyString \/ ds = None \/ conv = None
  \/ negative (BulkLoader.Options.batch_size (loader_given opts)) = true
  \/ negative (BulkLoader.Options.num_concurrent (loader_given opts)) = true ->
  exists msg,
    BulkLoader.constructor filePath ds conv opts = Throw (LoaderArgument msg).
Proof.
  intros H. unfold BulkLoader.constructor.
  destruct (String.eqb_spec filePath EmptyString) as [E|Hp]; [eauto|].
  destruct conv as [cv|]; [|eauto].
  destruct ds as [d|]; [|eauto].
  destruct H as [H|[H|[H|H]]]; try congruence.
  destruct (loader_effective opts) as (H1 & H2 & _).
  cbv zeta in *. rewrite H1, H2.
  unfold negative, or_default in *.
  destruct H as [H|H].
  - destruct (BulkLoader.Options.batch_size (loader_given opts)) as [v|];
      [|discriminate].
    apply Z.ltb_lt in H. destruct (v =? 0) eqn:E;
      [apply Z.eqb_eq in E; lia|].
    replace (0 <? v) with false by (symmetry; apply Z.ltb_ge; lia).
    simpl. eauto.
  - destruct (BulkLoader.Options.num_concurrent (loader_given opts)) as [v|];
      [|discriminate].
    apply Z.ltb_lt in H. destruct (v =? 0) eqn:E;
      [apply Z.eqb_eq in E; lia|].
    replace (0 <? v) with false by (symmetry; apply Z.ltb_ge; lia).
    destruct (negb (0 <? _)); simpl; eauto.
Qed.

Lemma loader_constructor_rejects_witness :
  exists msg,
    BulkLoader.constructor "rows.csv" (Some (Client "p"))
      (Some (fun line => Normal (Obj line)))
      (Some (BulkLoader.Options.mk (Some (-1)) None None None))
    = Throw (LoaderArgument msg).
Proof.
  apply loader_constructor_rejects. do 4 right. reflexivity.
Defined.

(** ** The loader and its writer *)

Lemma listeners_exact out l :
  BulkLoader.listeners out l
  = (Normal tt,
     BulkLoader.set_requestCount
       (BulkLoader.requestCount l + Z.of_nat (List.length (stats_of out))) l,
     signals_of out).
Proof.
  revert l. induction out as [|e out IH]; intros l.
  - simpl. rewrite Z.add_0_r. destruct l; reflexivity.
  - cbn [BulkLoader.listeners]. unfold bind. rewrite listener_eq, IH.
    apply f_equal2; [apply f_equal|].
    + destruct l. unfold BulkLoader.set_requestCount.
      cbn [BulkLoader.writer BulkLoader.path BulkLoader.batch BulkLoader.count
           BulkLoader.numConcurrent BulkLoader.nLines BulkLoader.converter
           BulkLoader.lr BulkLoader.isPaused BulkLoader.requestCount
           BulkLoader.pending BulkLoader.waiters].
      f_equal.
      destruct e as [[| |p|err]|b|b|p]; unfold stats_of;
        cbn [flat_map app List.length]; lia.
    + destruct e as [[| |p|err]|b|b|p]; reflexivity.
Qed.

Lemma call_writer_exact {A} (m : M A) l r w out :
  m (BulkLoader.writer l) = (r, w, out) ->
  BulkLoader.call_writer m l
  = (r,
     BulkLoader.set_requestCount
       (BulkLoader.requestCount l + Z.of_nat (List.length (stats_of out)))
       (BulkLoader.set_writer w l),
     signals_of out).
Proof.
  intros Hm. unfold BulkLoader.call_writer.
  rewrite Hm, listeners_exact. reflexivity.
Qed.

Lemma writer_effects_app s1 s2 :
  writer_effects (s1 ++ s2) = writer_effects s1 ++ writer_effects s2.
Proof. unfold writer_effects. apply flat_map_app. Qed.

Lemma writer_effects_signals out : writer_effects (signals_of out) = out.
Proof.
  induction out as [|e out IH]; [reflexivity|].
  change (signals_of (e :: out))
    with ((BulkLoader.OfWriter e
             :: match e with
                | Emit (ErrorEvent err) => [BulkLoader.RejectLoad err]
                | _ => []
                end) ++ signals_of out).
  rewrite writer_effects_app, IH.
  destruct e as [[| |p|err]|b|b|p]; reflexivity.
Qed.

Lemma resolved_in_signals out :
  BulkLoader.resolved_in (signals_of out) = resolved_of out.
Proof.
  induction out as [|e out IH]; [reflexivity|].
  change (signals_of (e :: out))
    with ((BulkLoader.OfWriter e
             :: match e with
                | Emit (ErrorEvent err) => [BulkLoader.RejectLoad err]
                | _ => []
                end) ++ signals_of out).
  unfold BulkLoader.resolved_in in *. rewrite flat_map_app, IH.
  destruct e as [[| |q|err]|b|b|q]; reflexivity.
Qed.

Lemma in_resolved_of p out : In p (resolved_of out) <-> In (Resolve p) out.
Proof.
  induction out as [|e out IH]; [simpl; tauto|].
  change (resolved_of (e :: out))
    with (match e with Resolve q => [q] | _ => [] end ++ resolved_of out).
  rewrite in_app_iff, IH. simpl.
  destruct e as [[| |q|err]|b|b|q]; simpl;
    try (split; [intros [[]|H]; now right|intros [H|H]; [discriminate|now right]]).
  split.
  - intros [[H|[]]|H]; [left; now subst|now right].
  - intros [H|H]; [left; left; now inversion H|now right].
Qed.

Lemma resolutions_app s1 s2 :
  resolutions (s1 ++ s2) = (resolutions s1 + resolutions s2)%nat.
Proof. unfold resolutions. now rewrite filter_app, length_app. Qed.

Lemma resolutions_signals out : resolutions (signals_of out) = 0%nat.
Proof.
  induction out as [|e out IH]; [reflexivity|].
  change (signals_of (e :: out))
    with ((BulkLoader.OfWriter e
             :: match e with
                | Emit (ErrorEvent err) => [BulkLoader.RejectLoad err]
                | _ => []
                end) ++ signals_of out).
  rewrite resolutions_app, IH.
  destruct e as [[| |p|err]|b|b|p]; reflexivity.
Qed.

(** *** The callbacks, case by case *)

Lemma bind_attempt {S O A B} (m : @Method S O A)
  (k : Completion A -> @Method S O B) s :
  bind (attempt m) k s
  = match m s with
    | (r, s1, o1) =>
        match k r s1 with
        | (r2, s2, o2) => (r2, s2, o1 ++ o2)
        end
    end.
Proof.
  unfold bind, attempt. destruct (m s) as [[r s1] o1]. reflexivity.
Qed.

Lemma bind_throw {S O A B} (e : Error) (k : A -> @Method S O B) s :
  bind (throw e) k s = (Throw e, s, []).
Proof. reflexivity. Qed.

Lemma bind_call_writer {A B} (m : M A) (k : A -> BulkLoader.L B) l r w out :
  m (BulkLoader.writer l) = (r, w, out) ->
  bind (BulkLoader.call_writer m) k l
  = match r with
    | Normal a =>
        match k a (BulkLoader.set_requestCount
                     (BulkLoader.requestCount l
                      + Z.of_nat (List.length (stats_of out)))
                     (BulkLoader.set_writer w l)) with
        | (r2, l2, o2) => (r2, l2, signals_of out ++ o2)
        end
    | Throw e =>
        (Throw e,
         BulkLoader.set_requestCount
           (BulkLoader.requestCount l + Z.of_nat (List.length (stats_of out)))
           (BulkLoader.set_writer w l),
         signals_of out)
    end.
Proof.
  intros Hm. unfold bind. rewrite (call_writer_exact m l r w out Hm).
  destruct r; reflexivity.
Qed.

Lemma handleLineEvent_throw now line l err :
  BulkLoader.limit_reached (BulkLoader.nLines l) (BulkLoader.count l) = false ->
  BulkLoader.converter l line = Throw err ->
  BulkLoader.handleLineEvent now line l
  = (Normal tt, BulkLoader.set_count (BulkLoader.count l + 1) l,
     [BulkLoader.RejectLoad err]).
Proof.
  intros Hlim Hconv. unfold BulkLoader.handleLineEvent.
  rewrite bind_attempt, !bind_get, Hlim, bind_modify, bind_get.
  cbn [BulkLoader.converter BulkLoader.set_count]. rewrite Hconv.
  reflexivity.
Qed.

Lemma handleLineEvent_wait now line l entity :
  BulkLoader.limit_reached (BulkLoader.nLines l) (BulkLoader.count l) = false ->
  BulkLoader.converter l line = Normal entity ->
  isBusy (BulkLoader.writer l) = true ->
  BulkLoader.handleLineEvent now line l
  = (Normal tt,
     BulkLoader.set_waiters
       (BulkLoader.waiters l ++ [(promises (BulkLoader.writer l), entity)])
       (BulkLoader.set_requestCount (BulkLoader.requestCount l + 0)
          (BulkLoader.set_writer
             (set_idleOnce
                (idleOnce (BulkLoader.writer l)
                   ++ [promises (BulkLoader.writer l)])
                (set_promises (S (promises (BulkLoader.writer l)))
                   (BulkLoader.writer l)))
             (BulkLoader.set_isPaused true
                (BulkLoader.set_lr
                   (LineByLineReader.pause (BulkLoader.lr l))
                   (BulkLoader.set_count (BulkLoader.count l + 1) l))))),
     []).
Proof.
  intros Hlim Hconv Hbusy. unfold BulkLoader.handleLineEvent.
  rewrite bind_attempt, !bind_get, Hlim, bind_modify, bind_get.
  cbn [BulkLoader.converter BulkLoader.set_count]. rewrite Hconv.
  rewrite bind_run, bind_get.
  loader_simpl. rewrite Hbusy, !bind_modify.
  unfold BulkLoader.waitForWriter.
  erewrite bind_call_writer by (rewrite ready_eq; reflexivity).
  loader_simpl. rewrite Hbusy. reflexivity.
Qed.

Lemma handleLineEvent_add now line l entity r w out :
  BulkLoader.limit_reached (BulkLoader.nLines l) (BulkLoader.count l) = false ->
  BulkLoader.converter l line = Normal entity ->
  isBusy (BulkLoader.writer l) = false ->
  add now entity (BulkLoader.writer l) = (r, w, out) ->
  BulkLoader.handleLineEvent now line l
  = (Normal tt,
     BulkLoader.set_pending
       (match r with
        | Normal susp => suspended Automatic susp (BulkLoader.pending l)
        | Throw _ => BulkLoader.pending l
        end)
       (BulkLoader.set_requestCount
          (BulkLoader.requestCount l + Z.of_nat (List.length (stats_of out)))
          (BulkLoader.set_writer w
             (BulkLoader.set_count (BulkLoader.count l + 1) l))),
     signals_of out
       ++ match r with
          | Normal _ => []
          | Throw err => [BulkLoader.RejectLoad err]
          end).
Proof.
  intros Hlim Hconv Hbusy Hadd. unfold BulkLoader.handleLineEvent.
  rewrite bind_attempt, !bind_get, Hlim, bind_modify, bind_get.
  cbn [BulkLoader.converter BulkLoader.set_count]. rewrite Hconv.
  rewrite bind_run, bind_get.
  loader_simpl. rewrite Hbusy.
  erewrite bind_call_writer by (loader_simpl; exact Hadd).
  destruct r as [susp|err]; cbn; rewrite ?app_nil_r; reflexivity.
Qed.

Lemma resumed_assert now entity l :
  BulkLoader.isPaused l = false ->
  BulkLoader.resumed now entity l
  = (Normal tt, l, [BulkLoader.RejectLoad AssertionError]).
Proof.
  intros H. unfold BulkLoader.resumed.
  rewrite bind_attempt, bind_get, H. reflexivity.
Qed.

Lemma resumed_add now entity l r w out :
  BulkLoader.isPaused l = true ->
  add now entity (BulkLoader.writer l) = (r, w, out) ->
  BulkLoader.resumed now entity l
  = (Normal tt,
     match r with
     | Normal susp =>
         BulkLoader.set_isPaused false
           (BulkLoader.set_lr (LineByLineReader.resume (BulkLoader.lr l))
              (BulkLoader.set_pending
                 (suspended Automatic susp (BulkLoader.pending l))
                 (called w out l)))
     | Throw _ => called w out l
     end,
     signals_of out ++ caught r).
Proof.
  intros Hp Hadd. unfold BulkLoader.resumed.
  rewrite bind_attempt, bind_get, Hp. cbn [assert_ok]. rewrite bind_ret.
  erewrite bind_call_writer by exact Hadd.
  destruct r as [susp|err]; cbn; rewrite ?app_nil_r; reflexivity.
Qed.

Lemma resumed_waiters now entity l :
  BulkLoader.waiters (snd (fst (BulkLoader.resumed now entity l)))
  = BulkLoader.waiters l
  /\ fst (fst (BulkLoader.resumed now entity l)) = Normal tt.
Proof.
  destruct (BulkLoader.isPaused l) eqn:Hp.
  - destruct (add now entity (BulkLoader.writer l)) as [[r w] out] eqn:E.
    rewrite (resumed_add now entity l r w out Hp E).
    destruct r; auto.
  - rewrite resumed_assert by assumption. auto.
Qed.

Lemma continue_none now ps l :
  BulkLoader.waiters l = [] ->
  BulkLoader.continue now ps l = (Normal tt, l, []).
Proof.
  intros Hw. induction ps as [|p ps IH]; [reflexivity|].
  cbn [BulkLoader.continue]. rewrite bind_get, Hw. cbn [BulkLoader.take_waiter].
  rewrite bind_ret. exact IH.
Qed.

Lemma continue_one now ps l p entity :
  BulkLoader.waiters l = [(p, entity)] ->
  BulkLoader.continue now ps l
  = if existsb (Nat.eqb p) ps
    then (Normal tt,
          snd (fst (BulkLoader.resumed now entity (BulkLoader.set_waiters [] l))),
          snd (BulkLoader.resumed now entity (BulkLoader.set_waiters [] l)))
    else (Normal tt, l, []).
Proof.
  intros Hw. induction ps as [|q ps IH]; [reflexivity|].
  cbn [BulkLoader.continue existsb]. rewrite bind_get, Hw.
  cbn [BulkLoader.take_waiter]. rewrite (Nat.eqb_sym p q).
  destruct (Nat.eqb q p) eqn:E.
  - cbn [orb]. unfold bind at 1. rewrite bind_modify.
    destruct (BulkLoader.resumed now entity (BulkLoader.set_waiters [] l))
      as [[c l1] sig] eqn:Er.
    pose proof (resumed_waiters now entity (BulkLoader.set_waiters [] l)) as Hr.
    rewrite Er in Hr. simpl in Hr. destruct Hr as (Hw1 & Hc). subst c.
    rewrite (continue_none now ps l1 Hw1). simpl. now rewrite app_nil_r.
  - cbn [orb]. rewrite bind_ret. exact IH.
Qed.

Lemma settle_none now n result l :
  take_request n (BulkLoader.pending l) = None ->
  BulkLoader.settle now n result l = (Normal None, l, []).
Proof.
  intros H. unfold BulkLoader.settle. rewrite bind_get, H. reflexivity.
Qed.

Lemma settle_automatic now n result l r rest c w out :
  take_request n (BulkLoader.pending l) = Some (r, rest) ->
  origin r = Automatic ->
  add_settled now result (BulkLoader.writer l) = (c, w, out) ->
  BulkLoader.settle now n result l
  = (Normal None, called w out (BulkLoader.set_pending rest l),
     signals_of out).
Proof.
  intros Ht Ho Ha. unfold BulkLoader.settle.
  rewrite bind_get, Ht, bind_modify, Ho.
  erewrite bind_call_writer by (loader_simpl; exact Ha).
  assert (Hc : exists u, c = Normal u).
  { rewrite add_settled_eq in Ha.
    destruct (flush_resume now result (BulkLoader.writer l)) as [[c0 w0] o0].
    destruct c0; inversion Ha; eauto. }
  destruct Hc as (u & ->). cbn. now rewrite app_nil_r.
Qed.

Lemma settle_explicit now n result l r rest c w out :
  take_request n (BulkLoader.pending l) = Some (r, rest) ->
  origin r = Explicit ->
  flush_resume now result (BulkLoader.writer l) = (c, w, out) ->
  BulkLoader.settle now n result l
  = (Normal (Some c), called w out (BulkLoader.set_pending rest l),
     signals_of out).
Proof.
  intros Ht Ho Ha. unfold BulkLoader.settle.
  rewrite bind_get, Ht, bind_modify, Ho, bind_attempt.
  rewrite (call_writer_exact (flush_resume now result)
             (BulkLoader.set_pending rest l) c w out Ha).
  cbn. now rewrite app_nil_r.
Qed.

Lemma handleEndEvent_exact now l c w out :
  flush now (BulkLoader.writer l) = (c, w, out) ->
  BulkLoader.handleEndEvent now l
  = (Normal tt,
     match c with
     | Normal (Await n foo) =>
         BulkLoader.set_pending
           (BulkLoader.pending l ++ [mkRequest n Explicit foo]) (called w out l)
     | _ => called w out l
     end,
     signals_of out
       ++ match c with
          | Normal Done =>
              [BulkLoader.LogAverage (mean_latency (elapsed w) (requestCount w));
               BulkLoader.ResolveLoad]
          | Normal (Await _ _) => []
          | Throw err => [BulkLoader.RejectLoad err]
          end).
Proof.
  intros Hf. unfold BulkLoader.handleEndEvent.
  rewrite bind_attempt, (call_writer_exact (flush now) l c w out Hf).
  destruct c as [[|n foo]|err]; cbn; rewrite ?app_nil_r; reflexivity.
Qed.

(** *** The writer under the discipline of [ready] *)

Lemma flush_resume_busy now result w r w' out :
  flush_resume now result w = (r, w', out) ->
  (isBusy w' = true -> isBusy w = true)
  /\ (forall p, In (Resolve p) out -> isBusy w' = false).
Proof.
  destruct result as [readable|cause].
  - destruct (isTicking w) eqn:Ht.
    + rewrite flush_resume_fulfilled by assumption. cbv zeta.
      destruct readable; [destruct (idle_edge w) eqn:Hi|];
        intros H; injection H as _ Hw Ho; rewrite <- Hw, <- Ho; simpl;
        (split; [auto; try discriminate|]).
      * intros; reflexivity.
      * intros p [H|[]]. discriminate.
      * intros p [H|[]]. discriminate.
    + rewrite flush_resume_not_ticking by assumption.
      intros H; injection H as _ Hw Ho; rewrite <- Hw, <- Ho. simpl.
      split; [auto|contradiction].
  - rewrite flush_resume_rejected.
    intros H; injection H as _ Hw Ho; rewrite <- Hw, <- Ho.
    split; [auto|contradiction].
Qed.

Lemma add_settled_busy now result w r w' out :
  add_settled now result w = (r, w', out) ->
  (isBusy w' = true -> isBusy w = true)
  /\ (forall p, In (Resolve p) out -> isBusy w' = false).
Proof.
  rewrite add_settled_eq.
  destruct (flush_resume now result w) as [[c w1] o1] eqn:E.
  apply flush_resume_busy in E. destruct E as (H1 & H2).
  destruct c; intros H; inversion H; subst; split; auto.
  intros p Hin. apply in_app_or in Hin.
  destruct Hin as [Hin|[Hin|[]]]; [eauto|discriminate].
Qed.

Lemma step_busy_empty now op s :
  allowed op s = true -> busy_empty s ->
  busy_empty (fst (fst (step now op s))).
Proof.
  unfold busy_empty. intros Hal Hb.
  destruct op as [entity| | |n result]; simpl in *.
  - apply negb_true_iff in Hal.
    destruct entity as [|key].
    + rewrite add_falsy. simpl. exact Hb.
    + destruct (Z.eq_dec (Z.rem (bufferCount (writer s) + 1)
                            (bufferSize (writer s))) 0) as [E|E].
      * rewrite add_at_threshold by assumption.
        destruct (flush now (pushed (Obj key) (writer s)))
          as [[c w] out] eqn:Ef.
        apply flush_clears_buffer in Ef. destruct c; simpl; auto.
      * rewrite add_below_threshold by assumption. simpl. congruence.
  - destruct (flush now (writer s)) as [[c w] out] eqn:Ef.
    apply flush_clears_buffer in Ef. destruct c as [[|k foo]|e]; simpl; auto.
  - rewrite ready_eq. destruct (isBusy (writer s)) eqn:E; simpl; rewrite ?E;
      auto.
  - destruct (take_request n (inFlight s)) as [[r rest]|]; [|exact Hb].
    destruct (origin r).
    + destruct (add_settled now result (writer s)) as [[c w] out] eqn:E.
      pose proof (add_settled_busy _ _ _ _ _ _ E) as (H1 & _).
      rewrite add_settled_eq in E.
      destruct (flush_resume now result (writer s)) as [[c0 w0] o0] eqn:E0.
      apply flush_resume_buffer in E0. destruct E0 as (He & _).
      simpl. intros Hw.
      assert (w = w0) by (destruct c0; inversion E; reflexivity). subst w0.
      rewrite He. auto.
    + destruct (flush_resume now result (writer s)) as [[c w] out] eqn:E.
      pose proof (flush_resume_busy _ _ _ _ _ _ E) as (H1 & _).
      apply flush_resume_buffer in E. destruct E as (He & _).
      destruct c; simpl; intros Hw; rewrite He; auto.
Qed.

Lemma run_disciplined ops :
  forall s,
    gate_inv s -> busy_empty s -> awaits_ready ops s = true ->
    gate_inv (final ops s) /\ busy_empty (final ops s).
Proof.
  induction ops as [|[now op] rest IH]; intros s Hg Hb Hal.
  - auto.
  - simpl in Hal. apply andb_true_iff in Hal. destruct Hal as [H1 H2].
    rewrite final_cons. apply IH; auto using step_gate, step_busy_empty.
Qed.
(** *** A turn of the loader as calls to its writer *)

Lemma run_one now op s :
  final [(now, op)] s = fst (fst (step now op s))
  /\ effects (trace [(now, op)] s) = snd (step now op s)
  /\ awaits_ready [(now, op)] s = allowed op s.
Proof.
  rewrite final_cons, trace_cons. cbn [awaits_ready].
  unfold final, trace, effects. cbn. rewrite app_nil_r, andb_true_r. auto.
Qed.

Lemma next_line_running r line r' :
  LineByLineReader.next_line r = Some (line, r') ->
  LineByLineReader.paused r = false /\ LineByLineReader.paused r' = false.
Proof.
  unfold LineByLineReader.next_line.
  destruct (LineByLineReader.paused r) eqn:Hp; [discriminate|].
  destruct (_ || _); [discriminate|].
  destruct (LineByLineReader.remaining r); [discriminate|].
  intros H; inversion H; subst. simpl. auto.
Qed.

Lemma next_end_running r r' :
  LineByLineReader.next_end r = Some r' ->
  LineByLineReader.paused r = false /\ LineByLineReader.paused r' = false.
Proof.
  unfold LineByLineReader.next_end.
  destruct (LineByLineReader.paused r) eqn:Hp; [discriminate|].
  destruct (_ || _); [discriminate|].
  destruct (LineByLineReader.remaining r); [|discriminate].
  intros H; inversion H; subst. simpl. auto.
Qed.

Lemma one_waiter_running l :
  one_waiter l -> LineByLineReader.paused (BulkLoader.lr l) = false ->
  BulkLoader.waiters l = [].
Proof.
  intros [H|(p & e & _ & H & _)] Hp; [exact H|congruence].
Qed.

Lemma line_simulates now l :
  loader_inv l -> exists ops, simulates now BulkLoader.LineEvent l ops.
Proof.
  intros (Hg & Hb & Hw). unfold simulates.
  destruct (LineByLineReader.next_line (BulkLoader.lr l))
    as [[line r']|] eqn:Hn.
  2: { exists []. rewrite deliver_line_none by assumption.
       cbn [consumed_by]. rewrite Hn. simpl.
       repeat split; auto. now rewrite app_nil_r. }
  destruct (next_line_running _ _ _ Hn) as (Hp & Hp').
  pose proof (one_waiter_running l Hw Hp) as Hws.
  assert (Hd : BulkLoader.deliver now BulkLoader.LineEvent l
               = (snd (fst (BulkLoader.handleLineEvent now line
                              (BulkLoader.set_lr r' l))),
                  snd (BulkLoader.handleLineEvent now line
                         (BulkLoader.set_lr r' l)))).
  { unfold BulkLoader.deliver, BulkLoader.turn.
    rewrite bind_get, Hn, bind_modify.
    destruct (BulkLoader.handleLineEvent now line (BulkLoader.set_lr r' l))
      as [[c l1] sig]. reflexivity. }
  rewrite Hd. unfold consumed_by. rewrite Hn. clear Hd.
  destruct (BulkLoader.limit_reached (BulkLoader.nLines l)
              (BulkLoader.count l)) eqn:Hlim.
  - rewrite handleLineEvent_closes by exact Hlim.
    exists []. cbn [fst snd]. unfold waiting, one_waiter. cbn.
    rewrite Hws. repeat split; auto.
  - destruct (BulkLoader.converter l line) as [entity|err] eqn:Hc.
    + destruct (isBusy (BulkLoader.writer l)) eqn:Hbusy.
      * rewrite (handleLineEvent_wait now line (BulkLoader.set_lr r' l)
                   entity Hlim Hc Hbusy).
        exists [(now, CallReady)].
        destruct (run_one now CallReady (sys l)) as (-> & -> & ->).
        cbn [fst snd step sys writer inFlight allowed].
        rewrite ready_eq. cbn [sys writer]. rewrite Hbusy.
        unfold waiting, one_waiter, converted_records, added.
        cbn. rewrite Hws, Hc. cbn. rewrite !app_nil_r.
        repeat split; auto.
        right. eauto.
      * destruct (add now entity (BulkLoader.writer l)) as [[r w] out] eqn:Ha.
        rewrite (handleLineEvent_add now line (BulkLoader.set_lr r' l)
                   entity r w out Hlim Hc Hbusy Ha).
        exists [(now, CallAdd entity)].
        destruct (run_one now (CallAdd entity) (sys l)) as (-> & -> & ->).
        cbn [fst snd step sys writer inFlight allowed].
        rewrite Ha, Hbusy.
        unfold waiting, one_waiter, converted_records, added.
        rewrite writer_effects_app, writer_effects_signals.
        destruct r as [susp|err]; cbn; rewrite Hws, Hc; cbn;
          rewrite !app_nil_r; repeat split; auto.
    + rewrite (handleLineEvent_throw now line (BulkLoader.set_lr r' l)
                 err Hlim Hc).
      exists []. unfold waiting, one_waiter, converted_records.
      cbn. rewrite Hws, Hc. repeat split; auto.
Qed.

Lemma deliver_end_none now l :
  LineByLineReader.next_end (BulkLoader.lr l) = None ->
  BulkLoader.deliver now BulkLoader.EndEvent l = (l, []).
Proof.
  intros H. unfold BulkLoader.deliver, BulkLoader.turn.
  rewrite bind_get, H. reflexivity.
Qed.

Lemma end_simulates now l :
  loader_inv l -> exists ops, simulates now BulkLoader.EndEvent l ops.
Proof.
  intros (Hg & Hb & Hw). unfold simulates. cbn [consumed_by].
  destruct (LineByLineReader.next_end (BulkLoader.lr l)) as [r'|] eqn:Hn.
  2: { exists []. rewrite deliver_end_none by assumption. simpl.
       repeat split; auto. now rewrite app_nil_r. }
  destruct (next_end_running _ _ Hn) as (Hp & Hp').
  pose proof (one_waiter_running l Hw Hp) as Hws.
  assert (Hd : BulkLoader.deliver now BulkLoader.EndEvent l
               = (snd (fst (BulkLoader.handleEndEvent now
                              (BulkLoader.set_lr r' l))),
                  snd (BulkLoader.handleEndEvent now
                         (BulkLoader.set_lr r' l)))).
  { unfold BulkLoader.deliver, BulkLoader.turn.
    rewrite bind_get, Hn, bind_modify.
    destruct (BulkLoader.handleEndEvent now (BulkLoader.set_lr r' l))
      as [[c l1] sig]. reflexivity. }
  rewrite Hd. clear Hd.
  destruct (isBusy (BulkLoader.writer l)) eqn:Hbusy.
  - rewrite (handleEndEvent_exact now (BulkLoader.set_lr r' l)
               (Normal Done) (BulkLoader.writer l) [])
      by (apply flush_empty; apply Hb; exact Hbusy).
    exists []. unfold waiting, one_waiter, called. cbn. rewrite Hws.
    repeat split; auto.
  - destruct (flush now (BulkLoader.writer l)) as [[c w] out] eqn:Hf.
    rewrite (handleEndEvent_exact now (BulkLoader.set_lr r' l) c w out Hf).
    exists [(now, CallFlush)].
    destruct (run_one now CallFlush (sys l)) as (-> & -> & ->).
    cbn [fst snd step sys writer inFlight allowed].
    rewrite Hf, Hbusy. rewrite writer_effects_app, writer_effects_signals.
    unfold waiting, one_waiter, called, added.
    destruct c as [[|n foo]|err]; cbn; rewrite Hws; cbn;
      rewrite ?app_nil_r; repeat split; auto.
Qed.

Lemma error_simulates now cause l :
  loader_inv l -> exists ops, simulates now (BulkLoader.ReaderError cause) l ops.
Proof.
  intros (Hg & Hb & Hw). exists []. unfold simulates. cbn.
  rewrite !app_nil_r. repeat split; auto.
Qed.

Lemma continue_simulates now out l :
  one_waiter l ->
  (forall p, In (Resolve p) out -> isBusy (BulkLoader.writer l) = false) ->
  exists ops,
    let r := BulkLoader.continue now (resolved_of out) l in
    sys (snd (fst r)) = final ops (sys l)
    /\ awaits_ready ops (sys l) = true
    /\ writer_effects (snd r) = effects (trace ops (sys l))
    /\ one_waiter (snd (fst r))
    /\ added ops ++ waiting (snd (fst r)) = waiting l
    /\ BulkLoader.converter (snd (fst r)) = BulkLoader.converter l.
Proof.
  intros [Hws|(p & entity & Hws & Hp & Hip)] Hidle.
  - exists []. rewrite continue_none by assumption. cbn.
    repeat split; auto. now left.
  - rewrite (continue_one now (resolved_of out) l p entity Hws).
    destruct (existsb (Nat.eqb p) (resolved_of out)) eqn:Hex.
    + apply existsb_exists in Hex. destruct Hex as (q & Hin & Hq).
      apply Nat.eqb_eq in Hq. subst q. apply in_resolved_of in Hin.
      specialize (Hidle p Hin).
      destruct (add now entity (BulkLoader.writer l)) as [[r w] o] eqn:Ha.
      rewrite (resumed_add now entity (BulkLoader.set_waiters [] l) r w o
                 Hip Ha).
      exists [(now, CallAdd entity)].
      destruct (run_one now (CallAdd entity) (sys l)) as (-> & -> & ->).
      cbn [fst snd step sys writer inFlight allowed].
      rewrite Ha, Hidle. rewrite writer_effects_app, writer_effects_signals.
      unfold waiting, one_waiter, called, added.
      destruct r as [susp|err]; cbn; rewrite Hws; cbn;
        rewrite ?app_nil_r; repeat split; auto.
    + exists []. cbn. repeat split; auto. right. eauto.
Qed.

Lemma tail_quiet (c : Completion (option (Completion unit))) l :
  let r := match c with
           | Normal (Some (Normal _)) => BulkLoader.complete l
           | Normal (Some (Throw err)) => BulkLoader.handleErrorEvent err l
           | _ => (Normal tt, l, [])
           end in
  snd (fst r) = l /\ writer_effects (snd r) = [].
Proof.
  destruct c as [[[u|err]|]|err]; cbn; auto.
Qed.

Lemma settled_simulates now n result l :
  loader_inv l ->
  exists ops, simulates now (BulkLoader.Settled n result) l ops.
Proof.
  intros (Hg & Hb & Hw). unfold simulates. cbn [consumed_by].
  unfold converted_records. cbn [flat_map]. rewrite app_nil_r.
  unfold BulkLoader.deliver, BulkLoader.turn.
  destruct (take_request n (BulkLoader.pending l)) as [[r rest]|] eqn:Ht.
  2: { rewrite (settle_none now n result l Ht). cbn [BulkLoader.resolved_in flat_map].
       cbn [BulkLoader.continue ret]. exists []. cbn. repeat split; auto. }
  assert (Hcore : exists c w out,
             BulkLoader.settle now n result l
             = (c, called w out (BulkLoader.set_pending rest l),
                signals_of out)
             /\ fst (fst (step now (Settle n result) (sys l)))
                = mkSystem w rest
             /\ snd (step now (Settle n result) (sys l)) = out
             /\ (forall p, In (Resolve p) out -> isBusy w = false)).
  { destruct (origin r) eqn:Ho.
    - destruct (add_settled now result (BulkLoader.writer l))
        as [[c w] out] eqn:Ha.
      exists (Normal None), w, out.
      split; [exact (settle_automatic now n result l r rest c w out Ht Ho Ha)|].
      split; [|split; [|exact (proj2 (add_settled_busy _ _ _ _ _ _ Ha))]];
        cbn [step sys inFlight writer]; rewrite Ht, Ho, Ha; reflexivity.
    - destruct (flush_resume now result (BulkLoader.writer l))
        as [[c w] out] eqn:Ha.
      exists (Normal (Some c)), w, out.
      split; [exact (settle_explicit now n result l r rest c w out Ht Ho Ha)|].
      split; [|split; [|exact (proj2 (flush_resume_busy _ _ _ _ _ _ Ha))]];
        cbn [step sys inFlight writer]; rewrite Ht, Ho, Ha;
        destruct c; reflexivity. }
  destruct Hcore as (c & w & out & Hs & Hstep & Hout & Hidle).
  rewrite Hs, resolved_in_signals.
  set (l1 := called w out (BulkLoader.set_pending rest l)) in *.
  assert (Hw1 : one_waiter l1).
  { destruct Hw as [Hws|(p & e & Hws & Hp & Hip)]; [now left|].
    right. exists p, e. auto. }
  assert (Hsys : sys l1 = fst (fst (step now (Settle n result) (sys l)))).
  { rewrite Hstep. reflexivity. }
  destruct (continue_simulates now out l1 Hw1 Hidle)
    as (ops & H1 & H2 & H3 & H4 & H5 & H6).
  cbv zeta in H1, H2, H3, H4, H5, H6.
  destruct (BulkLoader.continue now (resolved_of out) l1)
    as [[c2 l2] sig2] eqn:Hc.
  cbn [fst snd] in H1, H2, H3, H4, H5, H6.
  pose proof (tail_quiet c l2) as Hq. cbv zeta in Hq.
  destruct (match c with
            | Normal (Some (Normal _)) => BulkLoader.complete l2
            | Normal (Some (Throw err)) => BulkLoader.handleErrorEvent err l2
            | _ => (Normal tt, l2, [])
            end) as [[c3 l3] sig3].
  cbn [fst snd] in Hq. destruct Hq as (-> & Hq3).
  exists ((now, Settle n result) :: ops). cbn [fst snd].
  rewrite final_cons, effects_cons. cbn [awaits_ready allowed andb].
  rewrite <- Hsys, Hout.
  rewrite !writer_effects_app, writer_effects_signals, Hq3, app_nil_r.
  repeat split; auto.
  - congruence.
Qed.

Lemma deliver_simulates now tick l :
  loader_inv l -> exists ops, simulates now tick l ops.
Proof.
  destruct tick as [| |cause|n result];
    auto using line_simulates, end_simulates, error_simulates,
               settled_simulates.
Qed.

Lemma awaits_ready_app a b s :
  awaits_ready (a ++ b) s = awaits_ready a s && awaits_ready b (final a s).
Proof.
  revert s. induction a as [|[now op] a IH]; intros s; [reflexivity|].
  cbn [app awaits_ready]. rewrite IH, final_cons. apply andb_assoc.
Qed.

Lemma added_app a b : added (a ++ b) = added a ++ added b.
Proof. unfold added. apply flat_map_app. Qed.

Lemma converted_records_app conv a b :
  converted_records conv (a ++ b)
  = converted_records conv a ++ converted_records conv b.
Proof. unfold converted_records. apply flat_map_app. Qed.

Lemma play_cons now tick rest l :
  BulkLoader.play ((now, tick) :: rest) l
  = (fst (BulkLoader.play rest (fst (BulkLoader.deliver now tick l))),
     snd (BulkLoader.deliver now tick l)
       :: snd (BulkLoader.play rest (fst (BulkLoader.deliver now tick l)))).
Proof.
  cbn [BulkLoader.play]. destruct (BulkLoader.deliver now tick l) as [l1 sig].
  cbn [fst snd]. destruct (BulkLoader.play rest l1); reflexivity.
Qed.

Lemma play_simulates sched :
  forall l,
    loader_inv l ->
    exists ops,
      sys (fst (BulkLoader.play sched l)) = final ops (sys l)
      /\ awaits_ready ops (sys l) = true
      /\ writer_effects (List.concat (snd (BulkLoader.play sched l)))
         = effects (trace ops (sys l))
      /\ loader_inv (fst (BulkLoader.play sched l))
      /\ added ops ++ waiting (fst (BulkLoader.play sched l))
         = waiting l
             ++ converted_records (BulkLoader.converter l) (consumed sched l).
Proof.
  induction sched as [|[now tick] rest IH]; intros l Hinv.
  - exists []. cbn. rewrite app_nil_r. auto.
  - destruct (deliver_simulates now tick l Hinv)
      as (ops1 & H1 & H2 & H3 & H4 & H5 & H6).
    cbv zeta in H1, H4, H5, H6.
    assert (Hinv1 : loader_inv (fst (BulkLoader.deliver now tick l))).
    { destruct Hinv as (Hg & Hb & Hw).
      destruct (run_disciplined ops1 (sys l) Hg Hb H2) as (Hg1 & Hb1).
      rewrite <- H1 in Hg1, Hb1. split; [|split]; assumption. }
    destruct (IH _ Hinv1) as (ops2 & G1 & G2 & G3 & G4 & G5).
    exists (ops1 ++ ops2). rewrite play_cons. cbn [fst snd consumed List.concat].
    rewrite final_app, trace_app, effects_app, awaits_ready_app,
      writer_effects_app, added_app, converted_records_app.
    rewrite <- H1, H2, H3, G1, G2, G3.
    split; [reflexivity|]. split; [reflexivity|]. split; [reflexivity|].
    split; [exact G4|].
    rewrite <- app_assoc, G5, H6, !app_assoc. f_equal. exact H5.
Qed.

Lemma signal_batches_effects sig :
  signal_batches sig = batches_of (writer_effects sig).
Proof.
  induction sig as [|s sig IH]; [reflexivity|].
  change (s :: sig) with ([s] ++ sig).
  rewrite writer_effects_app, batches_of_app, <- IH.
  unfold signal_batches. rewrite flat_map_app. f_equal.
  destruct s as [[| | |]| | |]; reflexivity.
Qed.

Lemma run_batches_effects sigs :
  run_batches sigs = batches_of (writer_effects (List.concat sigs)).
Proof.
  induction sigs as [|sig sigs IH]; [reflexivity|].
  cbn [List.concat]. rewrite writer_effects_app, batches_of_app, <- IH.
  unfold run_batches. cbn [flat_map]. now rewrite signal_batches_effects.
Qed.

Lemma all_batches_effects tr : all_batches tr = batches_of (effects tr).
Proof.
  induction tr as [|t tr IH]; [reflexivity|].
  change (t :: tr) with ([t] ++ tr).
  rewrite effects_app, batches_of_app, <- IH.
  unfold all_batches. rewrite flat_map_app. f_equal.
  unfold effects. cbn. now rewrite !app_nil_r.
Qed.

(** *** The limit is fixed at construction *)

Lemma flush_limit now w r w' out :
  flush now w = (r, w', out) ->
  maxConcurrentRequests w' = maxConcurrentRequests w.
Proof.
  destruct (flush_cases now w)
    as [(_ & E)|[(_ & _ & E)|[(_ & _ & _ & E)|(_ & _ & _ & E)]]];
    rewrite E; intros H; injection H as _ Hw _; rewrite <- Hw; reflexivity.
Qed.

Lemma add_limit now entity w r w' out :
  add now entity w = (r, w', out) ->
  maxConcurrentRequests w' = maxConcurrentRequests w.
Proof.
  destruct entity as [|key].
  - rewrite add_falsy. intros H; injection H as _ Hw _. now rewrite <- Hw.
  - destruct (Z.eq_dec (Z.rem (bufferCount w + 1) (bufferSize w)) 0) as [E|E].
    + rewrite add_at_threshold by assumption.
      destruct (flush now (pushed (Obj key) w)) as [[c w1] o1] eqn:Ef.
      apply flush_limit in Ef.
      destruct c; intros H; injection H as _ Hw _; rewrite <- Hw; exact Ef.
    + rewrite add_below_threshold by assumption.
      intros H; injection H as _ Hw _. now rewrite <- Hw.
Qed.

Lemma flush_resume_limit now result w r w' out :
  flush_resume now result w = (r, w', out) ->
  maxConcurrentRequests w' = maxConcurrentRequests w.
Proof.
  destruct result as [readable|cause].
  - destruct (isTicking w) eqn:Ht.
    + rewrite flush_resume_fulfilled by assumption. cbv zeta.
      destruct readable; [destruct (idle_edge w)|];
        intros H; injection H as _ Hw _; rewrite <- Hw; reflexivity.
    + rewrite flush_resume_not_ticking by assumption.
      intros H; injection H as _ Hw _. now rewrite <- Hw.
  - rewrite flush_resume_rejected.
    intros H; injection H as _ Hw _. now rewrite <- Hw.
Qed.

Lemma step_limit now op s :
  maxConcurrentRequests (writer (fst (fst (step now op s))))
  = maxConcurrentRequests (writer s).
Proof.
  destruct op as [entity| | |n result]; cbn [step].
  - destruct (add now entity (writer s)) as [[c w] out] eqn:E.
    apply add_limit in E. destruct c; exact E.
  - destruct (flush now (writer s)) as [[c w] out] eqn:E.
    apply flush_limit in E. destruct c as [[|k foo]|e]; exact E.
  - rewrite ready_eq. destruct (isBusy (writer s)); reflexivity.
  - destruct (take_request n (inFlight s)) as [[r rest]|]; [|reflexivity].
    destruct (origin r).
    + destruct (add_settled now result (writer s)) as [[c w] out] eqn:E.
      rewrite add_settled_eq in E.
      destruct (flush_resume now result (writer s)) as [[c0 w0] o0] eqn:E0.
      apply flush_resume_limit in E0.
      destruct c0; injection E as _ Hw _; rewrite <- Hw; exact E0.
    + destruct (flush_resume now result (writer s)) as [[c w] out] eqn:E.
      apply flush_resume_limit in E. destruct c; exact E.
Qed.

Lemma run_limit ops :
  forall s,
    maxConcurrentRequests (writer (final ops s))
    = maxConcurrentRequests (writer s).
Proof.
  induction ops as [|[now op] rest IH]; intros s; [reflexivity|].
  rewrite final_cons, IH. apply step_limit.
Qed.

Lemma constructed_inv filePath ds conv opts l file :
  BulkLoader.constructor filePath ds conv opts = Normal l ->
  loader_inv (BulkLoader.load file l)
  /\ maxConcurrentRequests (BulkLoader.writer l) = BulkLoader.numConcurrent l
  /\ isTicking (BulkLoader.writer l) = false
  /\ isBusy (BulkLoader.writer l) = false
  /\ entities (BulkLoader.writer l) = []
  /\ BulkLoader.waiters l = [].
Proof.
  intros H. apply loader_constructor_normal in H.
  destruct H as (d & cv & bs & mc & limit & ups & _ & _ & Hbs & Hmc & _ & ->).
  repeat split; try reflexivity.
  - cbn. lia.
  - cbn. intros _. exact Hmc.
  - now left.
Qed.

(** X11.  A loader never drives its writer past the limit, whatever the
    reader and the Datastore do: at every point of every run the writer's
    count of concurrent requests is at most [num_concurrent], and at least
    the number of requests in flight. *)
Theorem loader_respects_gate filePath ds conv opts l file sched :
  BulkLoader.constructor filePath ds conv opts = Normal l ->
  let l' := fst (BulkLoader.play sched (BulkLoader.load file l)) in
  Z.of_nat (List.length (BulkLoader.pending l'))
    <= concurrentRequests (BulkLoader.writer l')
  /\ concurrentRequests (BulkLoader.writer l') <= BulkLoader.numConcurrent l.
Proof.
  intros Hc l'.
  destruct (constructed_inv _ _ _ _ _ file Hc) as (Hinv & Hmax & _).
  destruct (play_simulates sched _ Hinv) as (ops & H1 & _ & _ & Hinv' & _).
  fold l' in H1, Hinv'. destruct Hinv' as ((G1 & G2 & _) & _).
  split; [exact G1|].
  rewrite <- Hmax.
  change (BulkLoader.writer l) with (writer (sys (BulkLoader.load file l))).
  rewrite <- (run_limit ops), <- H1. exact G2.
Qed.

Lemma loader_respects_gate_witness :
  let l := loader "f" (Client "p") (fun line => Normal (Obj line)) 1 2 None false in
  let l' := fst (BulkLoader.play
                   [(0, BulkLoader.LineEvent); (1, BulkLoader.LineEvent);
                    (2, BulkLoader.LineEvent)]
                   (BulkLoader.load ["a"; "b"; "c"]%string l)) in
  Z.of_nat (List.length (BulkLoader.pending l'))
    <= concurrentRequests (BulkLoader.writer l')
  /\ concurrentRequests (BulkLoader.writer l') <= BulkLoader.numConcurrent l.
Proof.
  apply (loader_respects_gate "f" (Some (Client "p"))
           (Some (fun line => Normal (Obj line)))
           (Some (BulkLoader.Options.mk (Some 2) None (Some 1) (Some false)))).
  reflexivity.
Defined.

(** X12.  With [num_concurrent] 1 the loader loses and repeats nothing,
    whatever the reader and the Datastore do: at every point of a run, the
    batches handed to the Datastore client, then the buffer of the writer,
    then the record that waits for the writer are, in order, the records
    that the converter gave for the lines consumed so far (those that are
    not null). *)
Theorem loader_one_slot_conserves filePath ds conv opts l file sched :
  BulkLoader.constructor filePath ds conv opts = Normal l ->
  BulkLoader.numConcurrent l = 1 ->
  let r := BulkLoader.play sched (BulkLoader.load file l) in
  List.concat (run_batches (snd r))
    ++ entities (BulkLoader.writer (fst r)) ++ waiting (fst r)
  = converted_records (BulkLoader.converter l)
      (consumed sched (BulkLoader.load file l)).
Proof.
  intros Hc Hone r.
  destruct (constructed_inv _ _ _ _ _ file Hc)
    as (Hinv & Hmax & Htick & Hbusy & Hents & Hws).
  destruct (play_simulates sched _ Hinv) as (ops & H1 & H2 & H3 & _ & H5).
  fold r in H1, H3, H5.
  assert (Hslot : one_slot_inv (sys (BulkLoader.load file l))).
  { destruct Hinv as (Hg & _). split; [|split]; [|exact Hg|].
    - cbn. congruence.
    - intros _. exact Htick. }
  pose proof (run_conserves ops _ Hslot H2) as Hrun.
  rewrite all_batches_effects, <- H3, <- run_batches_effects, <- H1 in Hrun.
  cbn [sys writer BulkLoader.load BulkLoader.set_count BulkLoader.set_lr
       BulkLoader.writer] in Hrun.
  rewrite Hents in Hrun. cbn [app] in Hrun.
  rewrite app_assoc, Hrun, H5.
  unfold waiting at 1. cbn [BulkLoader.load BulkLoader.set_count
                             BulkLoader.set_lr BulkLoader.waiters].
  rewrite Hws. reflexivity.
Qed.

Lemma loader_one_slot_conserves_witness :
  let l := loader "f" (Client "p") (fun line => Normal (Obj line)) 2 1 None false in
  let r := BulkLoader.play
             [(0, BulkLoader.LineEvent); (1, BulkLoader.LineEvent);
              (2, BulkLoader.LineEvent);
              (5, BulkLoader.Settled 1 (Fulfilled true));
              (6, BulkLoader.LineEvent)]
             (BulkLoader.load ["a"; "b"; "c"; "d"; "e"]%string l) in
  List.concat (run_batches (snd r))
    ++ entities (BulkLoader.writer (fst r)) ++ waiting (fst r)
  = converted_records (BulkLoader.converter l)
      (consumed
         [(0, BulkLoader.LineEvent); (1, BulkLoader.LineEvent);
          (2, BulkLoader.LineEvent);
          (5, BulkLoader.Settled 1 (Fulfilled true));
          (6, BulkLoader.LineEvent)]
         (BulkLoader.load ["a"; "b"; "c"; "d"; "e"]%string l)).
Proof.
  apply (loader_one_slot_conserves "f" (Some (Client "p"))
           (Some (fun line => Normal (Obj line)))
           (Some (BulkLoader.Options.mk (Some 1) None (Some 2) (Some false)))).
  - reflexivity.
  - reflexivity.
Defined.

(** *** Awaiting [ready] keeps the limit from being exceeded *)

Lemma flush_room now w r w' out :
  concurrentRequests w < maxConcurrentRequests w ->
  flush now w = (r, w', out) ->
  r <> Throw ExceededMaxConcurrent /\ errors_of out = [].
Proof.
  intros Hroom.
  destruct (flush_cases now w)
    as [(_ & E)|[(_ & Hx & E)|[(_ & _ & _ & E)|(_ & _ & _ & E)]]];
    [| lia | |]; rewrite E; intros H; injection H as Hr _ Ho;
    rewrite <- Hr, <- Ho; (split; [discriminate|]).
  - reflexivity.
  - destruct (busy_edge w); reflexivity.
  - rewrite errors_of_app. unfold sink_call.
    destruct (busy_edge w), (upsert w); reflexivity.
Qed.

Lemma step_no_exceed now op s :
  gate_inv s -> allowed op s = true ->
  ~ exceeds (op, snd (fst (step now op s)), snd (step now op s)).
Proof.
  intros (_ & _ & Hroom) Hal.
  destruct op as [entity| | |n result]; cbn [exceeds]; auto.
  - cbn [allowed] in Hal. apply negb_true_iff in Hal. specialize (Hroom Hal).
    cbn [step]. destruct entity as [|key].
    + rewrite add_falsy. cbn. auto.
    + destruct (Z.eq_dec (Z.rem (bufferCount (writer s) + 1)
                            (bufferSize (writer s))) 0) as [E|E].
      * rewrite add_at_threshold by assumption.
        destruct (flush now (pushed (Obj key) (writer s)))
          as [[c w] out] eqn:Ef.
        apply flush_room in Ef; [|exact Hroom]. destruct Ef as (Hc & Ho).
        destruct c as [susp|err]; cbn [fst snd]; rewrite ?errors_of_app, Ho.
        -- intros [].
        -- cbn. intros [Hx|[]]. apply Hc. now rewrite Hx.
      * rewrite add_below_threshold by assumption. cbn. auto.
  - cbn [allowed] in Hal. apply negb_true_iff in Hal. specialize (Hroom Hal).
    cbn [step]. destruct (flush now (writer s)) as [[c w] out] eqn:Ef.
    apply flush_room in Ef; [|exact Hroom]. destruct Ef as (Hc & _).
    destruct c as [[|k foo]|err]; cbn [fst snd]; try discriminate.
    intros Hx. apply Hc. injection Hx as ->. reflexivity.
Qed.

Lemma run_no_exceed sched :
  forall s,
    gate_inv s -> awaits_ready sched s = true ->
    Forall (fun t => ~ exceeds t) (trace sched s).
Proof.
  induction sched as [|[now op] rest IH]; intros s Hg Hal.
  - constructor.
  - cbn [awaits_ready] in Hal. apply andb_true_iff in Hal.
    destruct Hal as [H1 H2]. rewrite trace_cons. constructor.
    + now apply step_no_exceed.
    + apply IH; [now apply step_gate|exact H2].
Qed.

(** X13.  A caller that calls [add] and [flush] only while the writer is
    not busy never meets the error of the limit: in no turn of such a run
    does [flush] reject with [ExceededMaxConcurrent], and in none does
    [add] report it with an 'error' event. *)
Theorem ready_prevents_exceeded ds opts w sched :
  constructor ds opts = Normal w ->
  awaits_ready sched (boot w) = true ->
  Forall (fun t => ~ exceeds t) (trace sched (boot w)).
Proof.
  intros Hc Hal. apply run_no_exceed; [|exact Hal].
  exact (constructor_gate _ _ _ Hc).
Qed.

Lemma ready_prevents_exceeded_witness :
  Forall (fun t => ~ exceeds t)
    (trace [(0, CallAdd (Obj "a")); (1, CallReady);
            (4, Settle 1 (Fulfilled true)); (5, CallAdd (Obj "b"));
            (7, Settle 2 (Rejected (SinkFailure "down"))); (8, CallReady)]
       (boot (fresh (Client "p") 1 1 false))).
Proof.
  apply (ready_prevents_exceeded (Some (Client "p"))
           (Some (Options.mk (Some 1) (Some 1) (Some false)))).
  - reflexivity.
  - reflexivity.
Defined.

Lemma settlement_app s1 s2 :
  settlement (s1 ++ s2)
  = match settlement s1 with
    | Some c => Some c
    | None => settlement s2
    end.
Proof.
  induction s1 as [|x s1 IH]; [reflexivity|].
  destruct x as [e| | |err]; cbn; auto.
Qed.

(** X14.  When the reader ends while the writer is busy and the promise of
    [load] is still pending, the promise is fulfilled in that turn: the
    buffer is empty, [flush] has nothing to send, and the loader does not
    wait for the requests in flight, which stay in flight. *)
Theorem end_while_busy_resolves filePath ds conv opts l0 file sched now r' :
  BulkLoader.constructor filePath ds conv opts = Normal l0 ->
  let r := BulkLoader.play sched (BulkLoader.load file l0) in
  let l := fst r in
  settlement (List.concat (snd r)) = None ->
  LineByLineReader.next_end (BulkLoader.lr l) = Some r' ->
  isBusy (BulkLoader.writer l) = true ->
  settlement (List.concat (snd r)
                ++ snd (BulkLoader.deliver now BulkLoader.EndEvent l))
  = Some (Normal tt)
  /\ BulkLoader.pending (fst (BulkLoader.deliver now BulkLoader.EndEvent l))
     = BulkLoader.pending l
  /\ BulkLoader.writer (fst (BulkLoader.deliver now BulkLoader.EndEvent l))
     = BulkLoader.writer l.
Proof.
  intros Hc r l Hpend Hn Hbusy.
  destruct (constructed_inv _ _ _ _ _ file Hc) as (Hinv & _).
  destruct (play_simulates sched _ Hinv) as (_ & _ & _ & _ & Hinv' & _).
  fold r in Hinv'. fold l in Hinv'. destruct Hinv' as (_ & Hb & _).
  rewrite settlement_app, Hpend.
  unfold BulkLoader.deliver, BulkLoader.turn.
  rewrite bind_get, Hn, bind_modify.
  rewrite (handleEndEvent_exact now (BulkLoader.set_lr r' l)
             (Normal Done) (BulkLoader.writer l) [])
    by (apply flush_empty; apply Hb; exact Hbusy).
  cbn. auto.
Qed.

Lemma end_while_busy_resolves_witness :
  let l0 := loader "f" (Client "p") (fun line => Normal (Obj line)) 1 1 None
              false in
  let r := BulkLoader.play [(0, BulkLoader.LineEvent)]
             (BulkLoader.load ["a"]%string l0) in
  let l := fst r in
  BulkLoader.pending l = [mkRequest 1 Automatic [Obj "a"]]
  /\ settlement (List.concat (snd r)
                   ++ snd (BulkLoader.deliver 3 BulkLoader.EndEvent l))
     = Some (Normal tt)
  /\ BulkLoader.pending (fst (BulkLoader.deliver 3 BulkLoader.EndEvent l))
     = BulkLoader.pending l
  /\ BulkLoader.writer (fst (BulkLoader.deliver 3 BulkLoader.EndEvent l))
     = BulkLoader.writer l.
Proof.
  intros l0 r l. split; [reflexivity|].
  apply (end_while_busy_resolves "f" (Some (Client "p"))
           (Some (fun line => Normal (Obj line)))
           (Some (BulkLoader.Options.mk (Some 1) None (Some 1) (Some false)))
           l0 ["a"]%string [(0, BulkLoader.LineEvent)] 3
           (LineByLineReader.mk [] false false true)).
  - reflexivity.
  - reflexivity.
  - reflexivity.
  - reflexivity.
Defined.

(** *** The reader along a run *)

Lemma next_line_source r line r' :
  LineByLineReader.next_line r = Some (line, r') ->
  LineByLineReader.remaining r = line :: LineByLineReader.remaining r'
  /\ LineByLineReader.closed r' = LineByLineReader.closed r.
Proof.
  unfold LineByLineReader.next_line.
  destruct (_ || _); [discriminate|].
  destruct (LineByLineReader.remaining r); [discriminate|].
  intros H; inversion H; subst. simpl. auto.
Qed.

Lemma next_end_source r r' :
  LineByLineReader.next_end r = Some r' ->
  LineByLineReader.remaining r = [] /\ LineByLineReader.remaining r' = []
  /\ LineByLineReader.closed r' = LineByLineReader.closed r.
Proof.
  unfold LineByLineReader.next_end.
  destruct (_ || _); [discriminate|].
  destruct (LineByLineReader.remaining r); [|discriminate].
  intros H; inversion H; subst. simpl. auto.
Qed.

Lemma resumed_source now entity l :
  LineByLineReader.remaining
    (BulkLoader.lr (snd (fst (BulkLoader.resumed now entity l))))
  = LineByLineReader.remaining (BulkLoader.lr l)
  /\ LineByLineReader.closed
       (BulkLoader.lr (snd (fst (BulkLoader.resumed now entity l))))
     = LineByLineReader.closed (BulkLoader.lr l).
Proof.
  destruct (BulkLoader.isPaused l) eqn:Hp.
  - destruct (add now entity (BulkLoader.writer l)) as [[r w] out] eqn:E.
    rewrite (resumed_add now entity l r w out Hp E).
    destruct r; auto.
  - rewrite resumed_assert by assumption. auto.
Qed.

Lemma continue_source now ps :
  forall l,
    LineByLineReader.remaining
      (BulkLoader.lr (snd (fst (BulkLoader.continue now ps l))))
    = LineByLineReader.remaining (BulkLoader.lr l)
    /\ LineByLineReader.closed
         (BulkLoader.lr (snd (fst (BulkLoader.continue now ps l))))
       = LineByLineReader.closed (BulkLoader.lr l).
Proof.
  induction ps as [|p ps IH]; intros l; [auto|].
  destruct (BulkLoader.continue now (p :: ps) l) as [[c3 l3] sig3] eqn:E.
  cbn [fst snd]. cbn [BulkLoader.continue] in E. rewrite bind_get in E.
  destruct (BulkLoader.take_waiter p (BulkLoader.waiters l))
    as [[entity ws]|].
  - unfold bind at 1 in E. rewrite bind_modify in E.
    pose proof (resumed_waiters now entity (BulkLoader.set_waiters ws l))
      as (_ & Hc).
    pose proof (resumed_source now entity (BulkLoader.set_waiters ws l))
      as (H1 & H2).
    destruct (BulkLoader.resumed now entity (BulkLoader.set_waiters ws l))
      as [[c l1] sig]. cbn [fst snd] in Hc, H1, H2. subst c.
    destruct (IH l1) as (G1 & G2).
    destruct (BulkLoader.continue now ps l1) as [[c2 l2] sig2].
    cbn [fst snd] in G1, G2. injection E as _ <- _.
    cbn [BulkLoader.lr BulkLoader.set_waiters] in H1, H2.
    split; congruence.
  - rewrite bind_ret in E. specialize (IH l). rewrite E in IH. exact IH.
Qed.

Lemma settle_source now n result l :
  BulkLoader.lr (snd (fst (BulkLoader.settle now n result l)))
  = BulkLoader.lr l.
Proof.
  destruct (take_request n (BulkLoader.pending l)) as [[r rest]|] eqn:Ht.
  - destruct (origin r) eqn:Ho.
    + destruct (add_settled now result (BulkLoader.writer l))
        as [[c w] out] eqn:Ha.
      now rewrite (settle_automatic now n result l r rest c w out Ht Ho Ha).
    + destruct (flush_resume now result (BulkLoader.writer l))
        as [[c w] out] eqn:Ha.
      now rewrite (settle_explicit now n result l r rest c w out Ht Ho Ha).
  - now rewrite settle_none.
Qed.

Lemma deliver_source now tick l :
  let l' := fst (BulkLoader.deliver now tick l) in
  (LineByLineReader.remaining (BulkLoader.lr l)
   = consumed_by tick l ++ LineByLineReader.remaining (BulkLoader.lr l')
   /\ LineByLineReader.closed (BulkLoader.lr l')
      = LineByLineReader.closed (BulkLoader.lr l))
  \/ (consumed_by tick l = []
      /\ LineByLineReader.closed (BulkLoader.lr l') = true
      /\ LineByLineReader.remaining (BulkLoader.lr l') = []
      /\ BulkLoader.limit_reached (BulkLoader.nLines l) (BulkLoader.count l)
         = true).
Proof.
  destruct tick as [| |cause|n result]; cbn [consumed_by]; cbv zeta.
  - destruct (LineByLineReader.next_line (BulkLoader.lr l))
      as [[line r']|] eqn:Hn.
    2: { rewrite deliver_line_none by assumption. left. auto. }
    destruct (next_line_source _ _ _ Hn) as (Hrem & Hcl).
    assert (Hd : fst (BulkLoader.deliver now BulkLoader.LineEvent l)
                 = snd (fst (BulkLoader.handleLineEvent now line
                               (BulkLoader.set_lr r' l)))).
    { unfold BulkLoader.deliver, BulkLoader.turn.
      rewrite bind_get, Hn, bind_modify.
      destruct (BulkLoader.handleLineEvent now line (BulkLoader.set_lr r' l))
        as [[c l1] sig]. reflexivity. }
    rewrite Hd. clear Hd.
    destruct (BulkLoader.limit_reached (BulkLoader.nLines l)
                (BulkLoader.count l)) eqn:Hlim.
    + rewrite handleLineEvent_closes by exact Hlim. right. auto.
    + left. destruct (BulkLoader.converter l line) as [entity|err] eqn:Hc.
      * destruct (isBusy (BulkLoader.writer l)) eqn:Hbusy.
        -- rewrite (handleLineEvent_wait now line (BulkLoader.set_lr r' l)
                      entity Hlim Hc Hbusy). auto.
        -- destruct (add now entity (BulkLoader.writer l))
             as [[r w] out] eqn:Ha.
           rewrite (handleLineEvent_add now line (BulkLoader.set_lr r' l)
                      entity r w out Hlim Hc Hbusy Ha). auto.
      * rewrite (handleLineEvent_throw now line (BulkLoader.set_lr r' l)
                   err Hlim Hc). auto.
  - left. destruct (LineByLineReader.next_end (BulkLoader.lr l))
      as [r'|] eqn:Hn.
    2: { rewrite deliver_end_none by assumption. auto. }
    destruct (next_end_source _ _ Hn) as (Hrem & Hrem' & Hcl).
    unfold BulkLoader.deliver, BulkLoader.turn.
    rewrite bind_get, Hn, bind_modify.
    destruct (flush now (BulkLoader.writer l)) as [[c w] out] eqn:Hf.
    rewrite (handleEndEvent_exact now (BulkLoader.set_lr r' l) c w out Hf).
    rewrite Hrem. destruct c as [[|k foo]|err]; cbn; auto.
  - left. auto.
  - left. unfold BulkLoader.deliver, BulkLoader.turn.
    pose proof (settle_source now n result l) as Hs.
    destruct (BulkLoader.settle now n result l) as [[c l1] sig1].
    cbn [fst snd] in Hs.
    destruct (continue_source now (BulkLoader.resolved_in sig1) l1)
      as (H1 & H2).
    destruct (BulkLoader.continue now (BulkLoader.resolved_in sig1) l1)
      as [[c2 l2] sig2].
    cbn [fst snd] in H1, H2.
    pose proof (tail_quiet c l2) as Hq. cbv zeta in Hq.
    destruct (match c with
              | Normal (Some (Normal _)) => BulkLoader.complete l2
              | Normal (Some (Throw err)) => BulkLoader.handleErrorEvent err l2
              | _ => (Normal tt, l2, [])
              end) as [[c3 l3] sig3].
    cbn [fst snd] in Hq. destruct Hq as (-> & _). cbn [fst app].
    rewrite H1, H2, Hs. auto.
Qed.

Lemma play_source sched :
  forall l,
    (exists rest,
        LineByLineReader.remaining (BulkLoader.lr l) = consumed sched l ++ rest)
    /\ (LineByLineReader.closed
          (BulkLoader.lr (fst (BulkLoader.play sched l))) = false ->
        LineByLineReader.remaining (BulkLoader.lr l)
        = consumed sched l
            ++ LineByLineReader.remaining
                 (BulkLoader.lr (fst (BulkLoader.play sched l)))
        /\ LineByLineReader.closed (BulkLoader.lr l) = false).
Proof.
  induction sched as [|[now tick] rest IH]; intros l.
  - cbn. split; [eexists; reflexivity|auto].
  - rewrite play_cons. cbn [fst consumed].
    destruct (IH (fst (BulkLoader.deliver now tick l)))
      as ((rest1 & G1) & G2).
    destruct (deliver_source now tick l) as [(H1 & H2)|(H1 & H2 & H3 & _)];
      cbv zeta in *.
    + split.
      * exists rest1. now rewrite H1, G1, app_assoc.
      * intros Hcl. destruct (G2 Hcl) as (G3 & G4).
        split; [|congruence]. now rewrite H1, G3, app_assoc.
    + rewrite H3 in G1. symmetry in G1. apply app_eq_nil in G1.
      destruct G1 as (G1 & _). rewrite H1, G1. split.
      * eexists. reflexivity.
      * intros Hcl. destruct (G2 Hcl) as (_ & G4). congruence.
Qed.

Lemma deliver_nLines now tick l :
  BulkLoader.nLines (fst (BulkLoader.deliver now tick l)) = BulkLoader.nLines l.
Proof.
  unfold BulkLoader.deliver.
  destruct (BulkLoader.turn now tick l) as [[c l'] sig] eqn:Et. cbn [fst].
  destruct tick as [| |cause|k result]; cbn [BulkLoader.turn] in Et.
  - rewrite bind_get in Et.
    destruct (LineByLineReader.next_line (BulkLoader.lr l)) as [[line r']|].
    + rewrite bind_modify in Et. apply handleLineEvent_cursor in Et.
      exact (proj1 Et).
    + inversion Et; subst. reflexivity.
  - rewrite bind_get in Et.
    destruct (LineByLineReader.next_end (BulkLoader.lr l)) as [r'|].
    + rewrite bind_modify in Et. apply keeps_handleEndEvent in Et.
      exact (proj2 Et).
    + inversion Et; subst. reflexivity.
  - inversion Et; subst. reflexivity.
  - destruct (BulkLoader.settle now k result l) as [[c1 l1] sig1] eqn:E1.
    apply keeps_settle in E1.
    destruct (BulkLoader.continue now (BulkLoader.resolved_in sig1) l1)
      as [[c2 l2] sig2] eqn:E2.
    apply keeps_continue in E2.
    pose proof (tail_quiet c1 l2) as Hq. cbv zeta in Hq.
    destruct (match c1 with
              | Normal (Some (Normal _)) => BulkLoader.complete l2
              | Normal (Some (Throw err)) => BulkLoader.handleErrorEvent err l2
              | _ => (Normal tt, l2, [])
              end) as [[c3 l3] sig3].
    cbn [fst snd] in Hq. destruct Hq as (-> & _).
    injection Et as _ <- _. destruct E1, E2. congruence.
Qed.

Lemma no_limit_never_reached l c :
  no_limit l -> BulkLoader.limit_reached (BulkLoader.nLines l) c = false.
Proof.
  unfold no_limit, BulkLoader.limit_reached.
  destruct (BulkLoader.nLines l) as [n|]; [|reflexivity].
  intros H. destruct (0 <? n) eqn:E; [|reflexivity].
  apply Z.ltb_lt in E. lia.
Qed.

Lemma play_never_closes sched :
  forall l,
    no_limit l ->
    LineByLineReader.closed (BulkLoader.lr l) = false ->
    LineByLineReader.closed (BulkLoader.lr (fst (BulkLoader.play sched l)))
    = false.
Proof.
  induction sched as [|[now tick] rest IH]; intros l Hno Hcl; [exact Hcl|].
  rewrite play_cons. cbn [fst]. apply IH.
  - unfold no_limit in *. now rewrite deliver_nLines.
  - destruct (deliver_source now tick l) as [(_ & H)|(_ & _ & _ & H)];
      cbv zeta in *.
    + congruence.
    + rewrite no_limit_never_reached in H by assumption. discriminate H.
Qed.

(** X16.  Without a positive [num_lines] the loader never closes the reader
    and skips no line: at every point of a run the lines consumed so far
    followed by the lines the reader still holds are the file. *)
Theorem no_limit_reads_everything l file sched :
  no_limit l ->
  let l' := fst (BulkLoader.play sched (BulkLoader.load file l)) in
  LineByLineReader.closed (BulkLoader.lr l') = false
  /\ file
     = consumed sched (BulkLoader.load file l)
         ++ LineByLineReader.remaining (BulkLoader.lr l').
Proof.
  intros Hno l'.
  assert (Hcl : LineByLineReader.closed (BulkLoader.lr l') = false).
  { apply play_never_closes; [exact Hno|reflexivity]. }
  split; [exact Hcl|].
  exact (proj1 (proj2 (play_source sched (BulkLoader.load file l)) Hcl)).
Qed.

Lemma no_limit_reads_everything_witness :
  let l := loader "f" (Client "p") (fun line => Normal (Obj line)) 2 1 (Some 0)
             false in
  let sched := [(0, BulkLoader.LineEvent); (1, BulkLoader.LineEvent);
                (2, BulkLoader.LineEvent);
                (5, BulkLoader.Settled 1 (Fulfilled true));
                (6, BulkLoader.LineEvent)] in
  let l' := fst (BulkLoader.play sched
                   (BulkLoader.load ["a"; "b"; "c"; "d"; "e"]%string l)) in
  LineByLineReader.closed (BulkLoader.lr l') = false
  /\ ["a"; "b"; "c"; "d"; "e"]%string
     = consumed sched (BulkLoader.load ["a"; "b"; "c"; "d"; "e"]%string l)
         ++ LineByLineReader.remaining (BulkLoader.lr l').
Proof.
  intros l sched.
  apply (no_limit_reads_everything l ["a"; "b"; "c"; "d"; "e"]%string sched).
  unfold no_limit. cbn. lia.
Defined.

(** X15.  With [num_concurrent] 1 and no limit, the records reach the
    writer in the order of the file, none skipped and none twice: at every
    point of a run the lines that the reader no longer holds are a prefix
    of the file, and the batches handed to the Datastore client, then the
    buffer, then the record that waits for the writer are, in order, the
    records that the converter gives for exactly these lines. *)
Theorem lines_in_file_order filePath ds conv opts l file sched :
  BulkLoader.constructor filePath ds conv opts = Normal l ->
  BulkLoader.numConcurrent l = 1 ->
  no_limit l ->
  let r := BulkLoader.play sched (BulkLoader.load file l) in
  exists emitted,
    file = emitted ++ LineByLineReader.remaining (BulkLoader.lr (fst r))
    /\ List.concat (run_batches (snd r))
         ++ entities (BulkLoader.writer (fst r)) ++ waiting (fst r)
       = converted_records (BulkLoader.converter l) emitted.
Proof.
  intros Hc Hone Hno r.
  exists (consumed sched (BulkLoader.load file l)).
  assert (Hcl : LineByLineReader.closed (BulkLoader.lr (fst r)) = false).
  { apply play_never_closes; [exact Hno|reflexivity]. }
  split.
  - exact (proj1 (proj2 (play_source sched (BulkLoader.load file l)) Hcl)).
  - destruct (constructed_inv _ _ _ _ _ file Hc)
      as (Hinv & Hmax & Htick & Hbusy & Hents & Hws).
    destruct (play_simulates sched _ Hinv) as (ops & H1 & H2 & H3 & _ & H5).
    fold r in H1, H3, H5.
    assert (Hslot : one_slot_inv (sys (BulkLoader.load file l))).
    { destruct Hinv as (Hg & _). split; [|split]; [|exact Hg|].
      - cbn. congruence.
      - intros _. exact Htick. }
    pose proof (run_conserves ops _ Hslot H2) as Hrun.
    rewrite all_batches_effects, <- H3, <- run_batches_effects, <- H1 in Hrun.
    cbn [sys writer BulkLoader.load BulkLoader.set_count BulkLoader.set_lr
         BulkLoader.writer] in Hrun.
    rewrite Hents in Hrun. cbn [app] in Hrun.
    rewrite app_assoc, Hrun, H5.
    unfold waiting at 1. cbn [BulkLoader.load BulkLoader.set_count
                               BulkLoader.set_lr BulkLoader.waiters].
    rewrite Hws. reflexivity.
Qed.

Lemma lines_in_file_order_witness :
  let l := loader "f" (Client "p") (fun line => Normal (Obj line)) 2 1 None
             false in
  let r := BulkLoader.play
             [(0, BulkLoader.LineEvent); (1, BulkLoader.LineEvent);
              (2, BulkLoader.LineEvent);
              (5, BulkLoader.Settled 1 (Fulfilled true));
              (6, BulkLoader.LineEvent)]
             (BulkLoader.load ["a"; "b"; "c"; "d"; "e"]%string l) in
  exists emitted,
    ["a"; "b"; "c"; "d"; "e"]%string
    = emitted ++ LineByLineReader.remaining (BulkLoader.lr (fst r))
    /\ List.concat (run_batches (snd r))
         ++ entities (BulkLoader.writer (fst r)) ++ waiting (fst r)
       = converted_records (BulkLoader.converter l) emitted.
Proof.
  apply (lines_in_file_order "f" (Some (Client "p"))
           (Some (fun line => Normal (Obj line)))
           (Some (BulkLoader.Options.mk (Some 1) None (Some 2) (Some false)))).
  - reflexivity.
  - reflexivity.
  - exact I.
Defined.


(** *** The promise of [load] *)

Lemma explicit_suspended susp l :
  explicit_pending
    (BulkLoader.set_pending (suspended Automatic susp (BulkLoader.pending l)) l)
  = explicit_pending l.
Proof.
  unfold explicit_pending. destruct susp as [|n foo]; cbn; [reflexivity|].
  rewrite filter_app. cbn. now rewrite app_nil_r.
Qed.

Lemma take_request_explicit n reqs r rest :
  take_request n reqs = Some (r, rest) ->
  List.length (filter (fun r => match origin r with
                                | Explicit => true
                                | Automatic => false
                                end) reqs)
  = (List.length (filter (fun r => match origin r with
                                   | Explicit => true
                                   | Automatic => false
                                   end) rest)
     + match origin r with Explicit => 1 | Automatic => 0 end)%nat.
Proof.
  revert r rest. induction reqs as [|x reqs IH]; cbn; intros r rest H.
  - discriminate.
  - destruct (number x =? n).
    + inversion H; subst. destruct (origin r); cbn; lia.
    + destruct (take_request n reqs) as [[y rest']|]; [|discriminate].
      inversion H; subst. specialize (IH _ _ eq_refl).
      cbn. destruct (origin x); cbn; lia.
Qed.

Lemma resolutions_caught {A} (r : Completion A) : resolutions (caught r) = 0%nat.
Proof. destruct r; reflexivity. Qed.

Lemma resumed_outstanding now entity l :
  resolutions (snd (BulkLoader.resumed now entity l)) = 0%nat
  /\ outstanding (snd (fst (BulkLoader.resumed now entity l))) = outstanding l.
Proof.
  destruct (BulkLoader.isPaused l) eqn:Hp.
  - destruct (add now entity (BulkLoader.writer l)) as [[r w] out] eqn:E.
    rewrite (resumed_add now entity l r w out Hp E). cbn [fst snd].
    rewrite resolutions_app, resolutions_signals, resolutions_caught.
    split; [reflexivity|].
    destruct r as [susp|err]; unfold outstanding, explicit_pending; cbn;
      [|reflexivity].
    destruct susp as [|n foo]; cbn; [reflexivity|].
    rewrite filter_app. cbn. now rewrite app_nil_r.
  - rewrite resumed_assert by assumption. auto.
Qed.

Lemma continue_outstanding now ps :
  forall l,
    resolutions (snd (BulkLoader.continue now ps l)) = 0%nat
    /\ outstanding (snd (fst (BulkLoader.continue now ps l))) = outstanding l.
Proof.
  induction ps as [|p ps IH]; intros l; [auto|].
  destruct (BulkLoader.continue now (p :: ps) l) as [[c3 l3] sig3] eqn:E.
  cbn [fst snd]. cbn [BulkLoader.continue] in E. rewrite bind_get in E.
  destruct (BulkLoader.take_waiter p (BulkLoader.waiters l))
    as [[entity ws]|].
  - unfold bind at 1 in E. rewrite bind_modify in E.
    pose proof (resumed_waiters now entity (BulkLoader.set_waiters ws l))
      as (_ & Hc).
    pose proof (resumed_outstanding now entity (BulkLoader.set_waiters ws l))
      as (H1 & H2).
    destruct (BulkLoader.resumed now entity (BulkLoader.set_waiters ws l))
      as [[c l1] sig]. cbn [fst snd] in Hc, H1, H2. subst c.
    destruct (IH l1) as (G1 & G2).
    destruct (BulkLoader.continue now ps l1) as [[c2 l2] sig2].
    cbn [fst snd] in G1, G2. injection E as _ <- <-.
    rewrite resolutions_app, H1, G1, G2, H2. auto.
  - rewrite bind_ret in E. specialize (IH l). rewrite E in IH. exact IH.
Qed.

Lemma ended_next_line r line r' :
  LineByLineReader.next_line r = Some (line, r') ->
  LineByLineReader.ended r' = LineByLineReader.ended r.
Proof.
  unfold LineByLineReader.next_line.
  destruct (_ || _); [discriminate|].
  destruct (LineByLineReader.remaining r); [discriminate|].
  intros H; inversion H; subst. reflexivity.
Qed.

Lemma ended_next_end r r' :
  LineByLineReader.next_end r = Some r' ->
  LineByLineReader.ended r = false /\ LineByLineReader.ended r' = true.
Proof.
  unfold LineByLineReader.next_end.
  destruct (LineByLineReader.paused r); [discriminate|].
  destruct (LineByLineReader.ended r); [discriminate|].
  destruct (LineByLineReader.remaining r); [|discriminate].
  intros H; inversion H; subst. auto.
Qed.

Lemma deliver_outstanding now tick l :
  (resolutions (snd (BulkLoader.deliver now tick l))
   + outstanding (fst (BulkLoader.deliver now tick l)) <= outstanding l)%nat.
Proof.
  destruct tick as [| |cause|n result].
  - destruct (LineByLineReader.next_line (BulkLoader.lr l))
      as [[line r']|] eqn:Hn.
    2: { rewrite deliver_line_none by assumption. cbn. lia. }
    pose proof (ended_next_line _ _ _ Hn) as He.
    unfold BulkLoader.deliver, BulkLoader.turn.
    rewrite bind_get, Hn, bind_modify.
    destruct (BulkLoader.limit_reached (BulkLoader.nLines l)
                (BulkLoader.count l)) eqn:Hlim.
    + rewrite handleLineEvent_closes by exact Hlim.
      unfold outstanding, explicit_pending. cbn. rewrite He. lia.
    + destruct (BulkLoader.converter l line) as [entity|err] eqn:Hc.
      * destruct (isBusy (BulkLoader.writer l)) eqn:Hbusy.
        -- rewrite (handleLineEvent_wait now line (BulkLoader.set_lr r' l)
                      entity Hlim Hc Hbusy).
           unfold outstanding, explicit_pending. cbn. rewrite He. lia.
        -- destruct (add now entity (BulkLoader.writer l))
             as [[r w] out] eqn:Ha.
           rewrite (handleLineEvent_add now line (BulkLoader.set_lr r' l)
                      entity r w out Hlim Hc Hbusy Ha).
           cbn [fst snd].
           rewrite resolutions_app, resolutions_signals.
           unfold outstanding, explicit_pending.
           destruct r as [[|k foo]|err]; cbn; rewrite ?filter_app, He; cbn;
             rewrite ?app_nil_r; lia.
      * rewrite (handleLineEvent_throw now line (BulkLoader.set_lr r' l)
                   err Hlim Hc).
        unfold outstanding, explicit_pending. cbn. rewrite He. lia.
  - destruct (LineByLineReader.next_end (BulkLoader.lr l))
      as [r'|] eqn:Hn.
    2: { rewrite deliver_end_none by assumption. cbn. lia. }
    destruct (ended_next_end _ _ Hn) as (He & He').
    unfold BulkLoader.deliver, BulkLoader.turn.
    rewrite bind_get, Hn, bind_modify.
    destruct (flush now (BulkLoader.writer l)) as [[c w] out] eqn:Hf.
    rewrite (handleEndEvent_exact now (BulkLoader.set_lr r' l) c w out Hf).
    cbn [fst snd]. rewrite resolutions_app, resolutions_signals.
    unfold outstanding, explicit_pending.
    destruct c as [[|k foo]|err]; cbn; rewrite ?filter_app, He, He'; cbn;
      rewrite ?length_app; cbn; lia.
  - cbn. lia.
  - unfold BulkLoader.deliver, BulkLoader.turn.
    destruct (take_request n (BulkLoader.pending l)) as [[r rest]|] eqn:Ht.
    2: { rewrite (settle_none now n result l Ht). cbn. lia. }
    pose proof (take_request_explicit _ _ _ _ Ht) as Hx.
    assert (Hcore : exists c w out,
               BulkLoader.settle now n result l
               = (c, called w out (BulkLoader.set_pending rest l),
                  signals_of out)
               /\ match c with
                  | Normal (Some _) => origin r = Explicit
                  | _ => True
                  end).
    { destruct (origin r) eqn:Ho.
      - destruct (add_settled now result (BulkLoader.writer l))
          as [[c w] out] eqn:Ha.
        exists (Normal None), w, out.
        split; [|exact I].
        exact (settle_automatic now n result l r rest c w out Ht Ho Ha).
      - destruct (flush_resume now result (BulkLoader.writer l))
          as [[c w] out] eqn:Ha.
        exists (Normal (Some c)), w, out.
        split; [|reflexivity].
        exact (settle_explicit now n result l r rest c w out Ht Ho Ha). }
    destruct Hcore as (c & w & out & Hs & Hor). rewrite Hs.
    set (l1 := called w out (BulkLoader.set_pending rest l)).
    destruct (continue_outstanding now
                (BulkLoader.resolved_in (signals_of out)) l1) as (H1 & H2).
    destruct (BulkLoader.continue now
                (BulkLoader.resolved_in (signals_of out)) l1)
      as [[c2 l2] sig2].
    cbn [fst snd] in H1, H2.
    assert (Hl1 : (outstanding l1
                   + match origin r with Explicit => 1 | Automatic => 0 end
                   = outstanding l)%nat).
    { unfold outstanding, explicit_pending, l1, called. cbn.
      unfold explicit_pending in Hx. lia. }
    destruct c as [[[u|err]|]|err]; cbn [fst snd BulkLoader.complete];
      unfold BulkLoader.complete, BulkLoader.handleErrorEvent;
      rewrite ?bind_get; cbn [fst snd perform];
      rewrite !resolutions_app, resolutions_signals, H1; cbn;
      try rewrite Hor in Hl1; lia.
Qed.

Lemma play_outstanding sched :
  forall l,
    (resolutions (List.concat (snd (BulkLoader.play sched l)))
     + outstanding (fst (BulkLoader.play sched l)) <= outstanding l)%nat.
Proof.
  induction sched as [|[now tick] rest IH]; intros l.
  - cbn. lia.
  - rewrite play_cons. cbn [fst snd List.concat]. rewrite resolutions_app.
    pose proof (deliver_outstanding now tick l).
    pose proof (IH (fst (BulkLoader.deliver now tick l))). lia.
Qed.

(** X17.  The promise of [load] is resolved at most once in a run, and not
    before the reader has emitted 'end'. *)
Theorem load_resolves_once filePath ds conv opts l file sched :
  BulkLoader.constructor filePath ds conv opts = Normal l ->
  let r := BulkLoader.play sched (BulkLoader.load file l) in
  (resolutions (List.concat (snd r)) <= 1)%nat
  /\ (LineByLineReader.ended (BulkLoader.lr (fst r)) = false ->
      resolutions (List.concat (snd r)) = 0%nat).
Proof.
  intros Hc r.
  pose proof (play_outstanding sched (BulkLoader.load file l)) as H.
  fold r in H.
  assert (H0 : outstanding (BulkLoader.load file l) = 1%nat).
  { apply loader_constructor_normal in Hc.
    destruct Hc as (d & cv & bs & mc & limit & ups & _ & _ & _ & _ & _ & ->).
    reflexivity. }
  rewrite H0 in H. split; [lia|].
  intros He. unfold outstanding in H. rewrite He in H. lia.
Qed.

Lemma load_resolves_once_witness :
  let l := loader "f" (Client "p") (fun line => Normal (Obj line)) 2 1 None
             false in
  let r := BulkLoader.play
             [(0, BulkLoader.LineEvent); (1, BulkLoader.EndEvent);
              (4, BulkLoader.Settled 1 (Fulfilled true));
              (5, BulkLoader.EndEvent)]
             (BulkLoader.load ["a"]%string l) in
  (resolutions (List.concat (snd r)) <= 1)%nat
  /\ (LineByLineReader.ended (BulkLoader.lr (fst r)) = false ->
      resolutions (List.concat (snd r)) = 0%nat).
Proof.
  apply (load_resolves_once "f" (Some (Client "p"))
           (Some (fun line => Normal (Obj line)))
           (Some (BulkLoader.Options.mk (Some 1) None (Some 2) (Some false)))).
  reflexivity.
Defined.

(** X18.  Whatever [num_concurrent] is, a loader never has more than one
    Datastore request in flight: the writer it drives shares one timer
    among its requests, and a flush started while a request is in flight
    fails before it calls the Datastore client. *)
Theorem loader_one_request_in_flight filePath ds conv opts l file sched :
  BulkLoader.constructor filePath ds conv opts = Normal l ->
  (List.length
     (BulkLoader.pending (fst (BulkLoader.play sched (BulkLoader.load file l))))
   <= 1)%nat.
Proof.
  intros Hc.
  destruct (constructed_inv _ _ _ _ _ file Hc)
    as (Hinv & _ & _ & _ & _ & _).
  destruct (play_simulates sched _ Hinv) as (ops & H1 & _).
  change (BulkLoader.pending
            (fst (BulkLoader.play sched (BulkLoader.load file l))))
    with (inFlight (sys (fst (BulkLoader.play sched (BulkLoader.load file l))))).
  rewrite H1.
  apply (run_invariant single_flight step_single_flight ops).
  apply loader_constructor_normal in Hc.
  destruct Hc as (d & cv & bs & mc & limit & ups & _ & _ & _ & _ & _ & ->).
  split; cbn; [lia|congruence].
Qed.

Lemma loader_one_request_in_flight_witness :
  let l := loader "f" (Client "p") (fun line => Normal (Obj line)) 1 10 None
             false in
  let sched := [(0, BulkLoader.LineEvent); (1, BulkLoader.LineEvent);
                (2, BulkLoader.LineEvent)] in
  (List.length
     (BulkLoader.pending
        (fst (BulkLoader.play sched
                (BulkLoader.load ["a"; "b"; "c"]%string l))))
   <= 1)%nat.
Proof.
  intros l sched.
  apply (loader_one_request_in_flight "f" (Some (Client "p"))
           (Some (fun line => Normal (Obj line)))
           (Some (BulkLoader.Options.mk (Some 10) None (Some 1) (Some false)))).
  reflexivity.
Defined.

(** *** The 'end' event with a request in flight

    The timer of the writer runs while a request is in flight, so the
    [flush] of [#handleEndEvent] cannot start a second one: the records it
    took from the buffer are handed to nobody and the promise of [load] is
    rejected. *)
Lemma end_flush_fails_in_flight filePath ds conv opts l0 file sched now r' :
  BulkLoader.constructor filePath ds conv opts = Normal l0 ->
  let l := fst (BulkLoader.play sched (BulkLoader.load file l0)) in
  LineByLineReader.next_end (BulkLoader.lr l) = Some r' ->
  BulkLoader.pending l <> [] ->
  entities (BulkLoader.writer l) <> [] ->
  signal_batches (snd (BulkLoader.deliver now BulkLoader.EndEvent l)) = []
  /\ entities
       (BulkLoader.writer (fst (BulkLoader.deliver now BulkLoader.EndEvent l)))
     = []
  /\ BulkLoader.pending (fst (BulkLoader.deliver now BulkLoader.EndEvent l))
     = BulkLoader.pending l
  /\ exists err,
       (err = AssertionError \/ err = ExceededMaxConcurrent)
       /\ In (BulkLoader.RejectLoad err)
            (snd (BulkLoader.deliver now BulkLoader.EndEvent l)).
Proof.
  intros Hc l Hn Hpend Hents.
  destruct (constructed_inv _ _ _ _ _ file Hc) as (Hinv & _).
  destruct (play_simulates sched _ Hinv) as (ops & H1 & _).
  fold l in H1.
  assert (Hfl : single_flight (sys l)).
  { rewrite H1.
    apply (run_invariant single_flight step_single_flight ops).
    apply loader_constructor_normal in Hc.
    destruct Hc as (d & cv & bs & mc & limit & ups & _ & _ & _ & _ & _ & ->).
    split; cbn; [lia|congruence]. }
  destruct Hfl as (_ & Htick). specialize (Htick Hpend).
  cbn [sys writer] in Htick.
  unfold BulkLoader.deliver, BulkLoader.turn.
  rewrite bind_get, Hn, bind_modify.
  destruct (flush_cases now (BulkLoader.writer l))
    as [(E & _)|[(_ & _ & E)|[(_ & _ & _ & E)|(_ & _ & Hx & _)]]];
    [contradiction| | |congruence].
  - rewrite (handleEndEvent_exact now (BulkLoader.set_lr r' l) _ _ _ E).
    cbn. repeat split. exists ExceededMaxConcurrent. auto.
  - rewrite (handleEndEvent_exact now (BulkLoader.set_lr r' l) _ _ _ E).
    cbn [fst snd]. rewrite signal_batches_app.
    destruct (busy_edge (BulkLoader.writer l)); cbn; repeat split;
      exists AssertionError; auto.
Qed.
